(** * escpos: the ESC/POS command encoder and the chunked raster transfer

    A shallow embedding of [raster.go] (intLowHigh, Printer.Raster) and of the
    printer file (Printer, its setters, Text, Feed, Barcode), with the
    properties the specification states about them.

    Conventions.
    - A Go [int] is a [Z] kept in the signed 64-bit range by [int_wrap] after
      every addition, subtraction and multiplication.
    - A [byte] is a [Z] in [0, 256); the conversion [byte(x)] is [x mod 256].
    - A Go string is a Rocq [string] (a sequence of bytes).
    - A [[]byte] argument is a [Slice]: the backing array from the slice's
      first element on, and the slice's length; the capacity is the length of
      that backing array.
    - Everything the code does to the outside world is an [Event] appended to
      the world's trace: a Write call on the sink, a line given to the
      standard logger, a call of the external text-to-image renderer.
    - A computation is a function from the world to a result and the world
      it leaves; a run-time panic is a result, and the world it leaves is
      the one at the panic.

    The graphics commands gSend and Image are embedded with the base64
    decoder as a parameter of Image, and the dispatch WriteNode with that
    decoder and the formatting of the params map by package fmt as
    parameters.

    Not embedded: the methods that only hand work to the font and image
    packages or set the process-wide flags (PrintImage, TextToRaster, the
    flag setters); none of them assigns a field of the printer. *)

From Stdlib Require Import ZArith Lia List Ascii String DecimalString.
From stdpp Require Import base gmap strings list.
Import ListNotations.

Local Open Scope Z_scope.

(** ** Go's machine integers *)

Module GoInt.

Definition int_min : Z := - 2 ^ 63.
Definition int_max : Z := 2 ^ 63 - 1.

Definition in_int (x : Z) : Prop := int_min <= x <= int_max.

(** Two's-complement wrap-around of a mathematical integer into [int]. *)
Definition int_wrap (x : Z) : Z := (x + 2 ^ 63) mod 2 ^ 64 - 2 ^ 63.

Definition int_add (a b : Z) : Z := int_wrap (a + b).
Definition int_sub (a b : Z) : Z := int_wrap (a - b).
Definition int_mul (a b : Z) : Z := int_wrap (a * b).

(** [a % b] and [a / b] truncate towards zero. *)
Definition int_rem (a b : Z) : Z := Z.rem a b.
Definition int_quo (a b : Z) : Z := int_wrap (Z.quot a b).

(** [x >> k] on a signed integer is the arithmetic shift. *)
Definition int_shr (x k : Z) : Z := Z.shiftr x k.

(** [x << s] with an unsigned count [s]: every bit is shifted out from
    [s = 64] on. *)
Definition int_shl (x s : Z) : Z :=
  if 64 <=? s then 0 else int_wrap (Z.shiftl x s).

(** The conversions [uint(x)], [uint16(x)] and [byte(x)]. *)
Definition uint_of (x : Z) : Z := x mod 2 ^ 64.
Definition uint_sub (a b : Z) : Z := (a - b) mod 2 ^ 64.
Definition uint16_of (x : Z) : Z := x mod 2 ^ 16.
Definition byte_of (x : Z) : Z := x mod 256.

(** Arithmetic on [byte] operands wraps modulo 256. *)
Definition byte_sub (a b : Z) : Z := (a - b) mod 256.
Definition byte_shl (a k : Z) : Z := (Z.shiftl a k) mod 256.

End GoInt.
Export GoInt.

(** ** Strings as bytes *)

Definition byte_of_ascii (a : ascii) : Z := Z.of_N (N_of_ascii a).

(** [[]byte(s)] *)
Definition bytes_of_string (s : string) : list Z :=
  map byte_of_ascii (list_ascii_of_string s).

(** ** The parts of the Go library the code calls *)

Module GoLib.

Definition RuneError : Z := 0xFFFD.
Definition MaxRune : Z := 0x10FFFF.

(** utf8.AppendRune on an empty buffer, for a rune [r] that is not
    negative. *)
Definition utf8_AppendRune (r : Z) : list Z :=
  if r <=? 0x7F then [byte_of r]
  else if r <=? 0x7FF then
    [Z.lor 0xC0 (byte_of (int_shr r 6)); Z.lor 0x80 (Z.land (byte_of r) 0x3F)]
  else
    let r3 := if (MaxRune <? r) || ((0xD800 <=? r) && (r <=? 0xDFFF))
              then RuneError else r in
    if (MaxRune <? r) || ((0xD800 <=? r) && (r <=? 0xDFFF)) || (r <=? 0xFFFF)
    then [Z.lor 0xE0 (byte_of (int_shr r3 12));
          Z.lor 0x80 (Z.land (byte_of (int_shr r3 6)) 0x3F);
          Z.lor 0x80 (Z.land (byte_of r3) 0x3F)]
    else [Z.lor 0xF0 (byte_of (int_shr r 18));
          Z.lor 0x80 (Z.land (byte_of (int_shr r 12)) 0x3F);
          Z.lor 0x80 (Z.land (byte_of (int_shr r 6)) 0x3F);
          Z.lor 0x80 (Z.land (byte_of r) 0x3F)].

(** The verb [%c] of fmt on an integer operand [c], already converted to
    uint64 as fmt does: the UTF-8 encoding of the code point, U+FFFD when
    there is no such code point. *)
Definition fmt_c (c : Z) : list Z :=
  let r := if MaxRune <? c then RuneError else c in
  utf8_AppendRune r.

(** The verb [%v] of fmt on an integer operand that is not negative: its
    decimal digits. *)
Definition fmt_v_int (n : Z) : list Z :=
  bytes_of_string (NilZero.string_of_uint (N.to_uint (Z.to_N n))).

(** The conversion [string(i)] of an integer: the UTF-8 encoding of the code
    point [i]. *)
Definition string_of_rune (i : Z) : list Z :=
  if i <? 0 then utf8_AppendRune RuneError else utf8_AppendRune i.

(** *** strconv.Atoi *)

Inductive NumError : Type := ErrSyntax | ErrRange.

Definition digit_of_ascii (a : ascii) : option Z :=
  let b := byte_of_ascii a in
  if (48 <=? b) && (b <=? 57) then Some (b - 48) else None.

(** The digit loop of strconv.ParseUint in base 10 with 64 bits: the first
    byte that is no digit is a syntax error, the first step that leaves the
    64 bits is a range error. *)
Fixpoint parse_digits (s : string) (n : Z) : NumError + Z :=
  match s with
  | EmptyString => inr n
  | String c s' =>
      match digit_of_ascii c with
      | None => inl ErrSyntax
      | Some d =>
          if 2 ^ 64 / 10 + 1 <=? n then inl ErrRange
          else
            let n1 := n * 10 + d in
            if 2 ^ 64 - 1 <? n1 then inl ErrRange
            else parse_digits s' n1
      end
  end.

Definition ParseUint (s : string) : NumError + Z :=
  match s with
  | EmptyString => inl ErrSyntax
  | _ => parse_digits s 0
  end.

(** strconv.Atoi: an optional sign, then decimal digits, the value within
    [int]. *)
Definition Atoi (s : string) : NumError + Z :=
  match s with
  | EmptyString => inl ErrSyntax
  | String c s' =>
      let neg := Ascii.eqb c "-"%char in
      let body := if neg || Ascii.eqb c "+"%char then s' else s in
      match ParseUint body with
      | inl e => inl e
      | inr un =>
          if negb neg && (2 ^ 63 <=? un) then inl ErrRange
          else if neg && (2 ^ 63 <? un) then inl ErrRange
          else inr (if neg then - un else un)
      end
  end.

(** strings.ToUpper on a string of one byte, the only strings the code
    gives it ([font[5:6]]): an ASCII letter is made upper case, another
    ASCII byte is kept, and a byte from 0x80 on, which is no UTF-8 text, is
    replaced by U+FFFD. *)
Definition ToUpper1 (s : string) : string :=
  match s with
  | String c EmptyString =>
      let b := byte_of_ascii c in
      if (97 <=? b) && (b <=? 122)
      then String (ascii_of_N (Z.to_N (b - 32))) EmptyString
      else if b <? 128 then s
      else String (ascii_of_N 0xEF)
             (String (ascii_of_N 0xBF) (String (ascii_of_N 0xBD) EmptyString))
  | _ => s
  end.

(** strings.Replacer.Replace for pairs whose old strings are not empty: at
    each position the first pair, in argument order, whose old string
    starts there is replaced and the scan resumes behind it; otherwise one
    byte is copied. [skip] counts the bytes of a match still to pass. *)
Fixpoint find_pair (pairs : list (string * string)) (s : string)
  : option (string * string) :=
  match pairs with
  | [] => None
  | (old, new) :: rest =>
      if String.prefix old s then Some (old, new) else find_pair rest s
  end.

Fixpoint Replace (pairs : list (string * string)) (skip : nat) (s : string)
  : string :=
  match s with
  | EmptyString => EmptyString
  | String c s' =>
      match skip with
      | S k => Replace pairs k s'
      | O =>
          match find_pair pairs s with
          | Some (old, new) =>
              String.append new (Replace pairs (String.length old - 1) s')
          | None => String c (Replace pairs 0 s')
          end
      end
  end.

End GoLib.
Export GoLib.

(** ** Slices of bytes *)

(** A [[]byte] value: [arr] is the backing array from the slice's first
    element to the end of the array, [slen] the slice's length. *)
Record Slice : Type := mkSlice { arr : list Z; slen : Z }.

Definition cap (s : Slice) : Z := Z.of_nat (length (arr s)).

(** The elements of the slice, [s[0] .. s[len(s)-1]]. *)
Definition elems (s : Slice) : list Z := take (Z.to_nat (slen s)) (arr s).

(** A slice a Go program can hold: its length is within its capacity, and
    the capacity is an [int]. *)
Definition slice_ok (s : Slice) : Prop :=
  0 <= slen s <= cap s /\ cap s <= int_max.

(** The slice literal or conversion with the elements [l]. *)
Definition slice_of (l : list Z) : Slice := mkSlice l (Z.of_nat (length l)).

(** The slice expression [s[lo:hi]]: in range when [0 <= lo <= hi <= cap(s)],
    a run-time panic otherwise. *)
Definition slice_expr (s : Slice) (lo hi : Z) : option Slice :=
  if (0 <=? lo) && (lo <=? hi) && (hi <=? cap s)
  then Some (mkSlice (drop (Z.to_nat lo) (arr s)) (hi - lo))
  else None.

(** ** The printer, the world around it, and the effects *)

(** One operand of a log.Println call, or one piece of the string it is
    given. *)
Inductive LogArg : Type :=
| LStr (s : string)
| LInt (n : Z)
| LRune (i : Z).   (* the conversion string(i): the bytes string_of_rune i *)

Inductive Event : Type :=
| EvWrite (buf : list Z)              (* one Write call on the sink p.w *)
| EvLog (line : list LogArg)          (* one line on the standard logger *)
| EvPrintTextImage (text : string).   (* the external renderer is called *)

(** The fields of the struct Printer, but [w] (the sink: what it received is
    the [EvWrite] events of the trace) and the mutex. *)
Record Printer : Type := mkPrinter {
  width : Z; height : Z;
  underline : Z; emphasize : Z; upsidedown : Z; rotate : Z;
  reverse : Z; smooth : Z
}.

Record World : Type := mkWorld { prn : Printer; trace : list Event }.

(** The writes the sink received, oldest first. *)
Definition written (st : World) : list (list Z) :=
  omap (fun e => match e with EvWrite b => Some b | _ => None end) (trace st).

Inductive Res (A : Type) : Type :=
| Done (a : A)
| Panic
| OutOfFuel.
Arguments Done {A} a.
Arguments Panic {A}.
Arguments OutOfFuel {A}.

(** A computation on the world: its result and the world it leaves, also
    when it panics. *)
Definition M (A : Type) : Type := World -> Res A * World.

#[export] Instance M_ret : MRet M := fun A a st => (Done a, st).
#[export] Instance M_bind : MBind M := fun A B k m st =>
  match m st with
  | (Done a, st') => k a st'
  | (Panic, st') => (Panic, st')
  | (OutOfFuel, st') => (OutOfFuel, st')
  end.

Definition emit (e : Event) : M unit :=
  fun st => (Done tt, mkWorld (prn st) (trace st ++ [e])).
Definition emits (es : list Event) : M unit :=
  fun st => (Done tt, mkWorld (prn st) (trace st ++ es)).
Definition get_prn : M Printer := fun st => (Done (prn st), st).
Definition modify_prn (f : Printer -> Printer) : M unit :=
  fun st => (Done tt, mkWorld (f (prn st)) (trace st)).
Definition panic {A : Type} : M A := fun st => (Panic, st).
Definition out_of_fuel {A : Type} : M A := fun st => (OutOfFuel, st).

(** The world a computation leaves. *)
Definition exec {A : Type} (m : M A) (st : World) : World := snd (m st).
Definition result {A : Type} (m : M A) (st : World) : Res A := fst (m st).

(** log.Println *)
Definition log_Println (line : list LogArg) : M unit := emit (EvLog line).

(** ** raster.go *)

Definition gs8lMaxY : Z := 1662.

Fixpoint intLowHigh_loop (n : nat) (inpNumber : Z) (outp : list Z) : list Z :=
  match n with
  | O => outp
  | S n' =>
      let inpNumberByte := byte_of (int_rem inpNumber 256) in
      intLowHigh_loop n' (int_quo inpNumber 256) (outp ++ [inpNumberByte])
  end.

(** intLowHigh: the lines it logs, and the bytes it returns. The loop
    [for i := 0; i < outBytes; i++] runs [outBytes] times, not at all when
    [outBytes] is negative. *)
Definition intLowHigh (inpNumber outBytes : Z) : list Event * list Z :=
  let maxInput := int_shl 256 (uint_sub (uint_of (int_mul outBytes 8)) 1) in
  let log1 :=
    if (outBytes <? 1) || (4 <? outBytes)
    then [EvLog [LStr "Can only output 1-4 bytes"]] else [] in
  let log2 :=
    if (inpNumber <? 0) || (maxInput <? inpNumber)
    then [EvLog [LStr "Number too large. Can only output up to ";
                 LRune maxInput; LStr " in"; LRune outBytes; LStr "byes"]]
    else [] in
  (log1 ++ log2, intLowHigh_loop (Z.to_nat outBytes) inpNumber []).

Definition intLowHigh_call (inpNumber outBytes : Z) : M (list Z) :=
  fun st => let r := intLowHigh inpNumber outBytes in
            (Done (snd r), mkWorld (prn st) (trace st ++ fst r)).

(** Printer.Write: one Write call on the sink. No caller in the package
    looks at what the sink returns. *)
Definition Write (buf : list Z) : M unit := emit (EvWrite buf).

(** The loop of the graphics mode, from row [l] on. Each turn takes at least
    one row, so [fuel] turns are enough when [fuel] is the height. *)
Fixpoint Raster_graphics (fuel : nat) (width height lineWidth : Z)
    (imgBw : Slice) (l : Z) : M unit :=
  if l <? height then
    match fuel with
    | O => out_of_fuel
    | S fuel' =>
        let lines := gs8lMaxY in
        let lines := if int_sub height l <? lines
                     then int_sub height l else lines in
        let f112P := int_add 10 (int_mul lines lineWidth) in
        Write [0x1d; 0x38; 0x4c;
               byte_of f112P; byte_of (int_shr f112P 8);
               byte_of (int_shr f112P 16); byte_of (int_shr f112P 24);
               0x30; 0x70; 0x30;
               0x01; 0x01;
               0x31;
               byte_of width; byte_of (int_shr width 8);
               byte_of lines; byte_of (int_shr lines 8)] ;;
        match slice_expr imgBw (int_mul l lineWidth)
                (int_mul (int_add l lines) lineWidth) with
        | None => panic
        | Some rows =>
            Write (elems rows) ;;
            Write [0x1d; 0x28; 0x4c; 0x02; 0x00; 0x30; 0x32] ;;
            Raster_graphics fuel' width height lineWidth imgBw
              (int_add l lines)
        end
    end
  else mret tt.

(** Printer.Raster *)
Definition Raster (width height lineWidth : Z) (imgBw : Slice)
    (printingType : string) : M unit :=
  if String.eqb printingType "bitImage" then
    let densityByte := byte_of 0 in
    let header := [0x1D; 0x76; 0x30] in
    let header := header ++ [densityByte] in
    let width := int_shr (int_add width 7) 3 in
    wb ← intLowHigh_call width 2 ;
    let header := header ++ wb in
    hb ← intLowHigh_call height 2 ;
    let header := header ++ hb in
    let fullImage := header ++ elems imgBw in
    Write fullImage
  else if String.eqb printingType "graphics" then
    Raster_graphics (Z.to_nat height) width height lineWidth imgBw 0
  else mret tt.

Definition world0 : World := mkWorld (mkPrinter 1 1 0 0 0 0 0 0) [].

(** ** The printer file *)

(** NewPrinter: [w] is [None] for a nil writer, and otherwise what the
    writer has received so far. *)
Definition NewPrinter (w : option (list Event)) : string + World :=
  match w with
  | None => inl "must supply valid writer"%string
  | Some tr =>
      inr (mkWorld {| width := 1; height := 1;
                      underline := 0; emphasize := 0; upsidedown := 0;
                      rotate := 0; reverse := 0; smooth := 0 |} tr)
  end.

Definition set_width (v : Z) (p : Printer) : Printer :=
  mkPrinter v (height p) (underline p) (emphasize p) (upsidedown p)
    (rotate p) (reverse p) (smooth p).
Definition set_height (v : Z) (p : Printer) : Printer :=
  mkPrinter (width p) v (underline p) (emphasize p) (upsidedown p)
    (rotate p) (reverse p) (smooth p).
Definition set_underline (v : Z) (p : Printer) : Printer :=
  mkPrinter (width p) (height p) v (emphasize p) (upsidedown p)
    (rotate p) (reverse p) (smooth p).
Definition set_emphasize (v : Z) (p : Printer) : Printer :=
  mkPrinter (width p) (height p) (underline p) v (upsidedown p)
    (rotate p) (reverse p) (smooth p).
Definition set_upsidedown (v : Z) (p : Printer) : Printer :=
  mkPrinter (width p) (height p) (underline p) (emphasize p) v
    (rotate p) (reverse p) (smooth p).
Definition set_rotate (v : Z) (p : Printer) : Printer :=
  mkPrinter (width p) (height p) (underline p) (emphasize p) (upsidedown p)
    v (reverse p) (smooth p).
Definition set_reverse (v : Z) (p : Printer) : Printer :=
  mkPrinter (width p) (height p) (underline p) (emphasize p) (upsidedown p)
    (rotate p) v (smooth p).
Definition set_smooth (v : Z) (p : Printer) : Printer :=
  mkPrinter (width p) (height p) (underline p) (emphasize p) (upsidedown p)
    (rotate p) (reverse p) v.

(** Reset *)
Definition Reset : M unit :=
  modify_prn (set_width 1) ;;
  modify_prn (set_height 1) ;;
  modify_prn (set_underline 0) ;;
  modify_prn (set_emphasize 0) ;;
  modify_prn (set_upsidedown 0) ;;
  modify_prn (set_rotate 0) ;;
  modify_prn (set_reverse 0) ;;
  modify_prn (set_smooth 0).

(** PrintTextImage. Its body reads the font file, draws the text with the
    external font and image packages, writes the picture to a file and calls
    PrintImage on that file, which, when every step so far succeeded, sends
    the alignment command and has the external raster converter send the
    picture; WriteString drops the error it returns, and none of this
    assigns a field of the printer. The call is recorded as one event, which
    stands for all of that: what PrintTextImage sends is not among the
    [EvWrite] events, which are the Write calls made outside it. *)
Definition PrintTextImage (text : string) : M unit :=
  emit (EvPrintTextImage text).

(** WriteString *)
Definition WriteString (s : string) : M unit :=
  PrintTextImage s ;;
  Write (bytes_of_string "").

(** Init *)
Definition Init : M unit :=
  Reset ;;
  Write [0x1B; 0x40].

(** End *)
Definition End_ : M unit := Write [0xFA].

(** Cut *)
Definition Cut : M unit := Write [0x1D; 0x56; 0x41; 0x30].

(** Cash *)
Definition Cash : M unit := Write [0x1B; 0x70; 0x00; 0x0A; 0xFF].

(** Linefeed *)
Definition Linefeed : M unit := Write [0x0A].

(** FormfeedN; [n] is an [int]. *)
Definition FormfeedN (n : Z) : M unit :=
  Write ([0x1B; 0x64] ++ fmt_c (uint_of n)).

(** Formfeed *)
Definition Formfeed : M unit := FormfeedN 1.

(** SetFont *)
Definition SetFont (font : string) : M unit :=
  let f := 0 in
  f ← (if String.eqb font "A" then mret 0
       else if String.eqb font "B" then mret 1
       else if String.eqb font "C" then mret 2
       else
         log_Println [LStr "Invalid font: '%s', defaulting to 'A'"; LStr font] ;;
         mret 0) ;
  Write ([0x1B; 0x4D] ++ fmt_c (uint_of f)).

(** SendFontSize *)
Definition SendFontSize : M unit :=
  p ← get_prn ;
  Write ([0x1D; 0x21] ++
         fmt_c (Z.lor (byte_shl (byte_sub (width p) 1) 4)
                      (byte_sub (height p) 1))).

(** SetFontSize; [width] and [height] are bytes. *)
Definition SetFontSize (width height : Z) : M unit :=
  if (0 <? width) && (0 <? height) && (width <=? 8) && (height <=? 8) then
    modify_prn (fun p => set_height height (set_width width p)) ;;
    SendFontSize
  else
    log_Println [LStr "Invalid font size passed: %d x %d";
                 LInt width; LInt height].

(** SendUnderline *)
Definition SendUnderline : M unit :=
  p ← get_prn ; Write ([0x1B; 0x2D] ++ fmt_c (underline p)).

(** SendEmphasize *)
Definition SendEmphasize : M unit :=
  p ← get_prn ; Write ([0x1B; 0x47] ++ fmt_c (emphasize p)).

(** SendUpsidedown *)
Definition SendUpsidedown : M unit :=
  p ← get_prn ; Write ([0x1B; 0x7B] ++ fmt_c (upsidedown p)).

(** SendRotate *)
Definition SendRotate : M unit :=
  p ← get_prn ; Write ([0x1B; 0x52] ++ fmt_c (rotate p)).

(** SendReverse *)
Definition SendReverse : M unit :=
  p ← get_prn ; Write ([0x1D; 0x42] ++ fmt_c (reverse p)).

(** SendSmooth *)
Definition SendSmooth : M unit :=
  p ← get_prn ; Write ([0x1D; 0x62] ++ fmt_c (smooth p)).

(** SendMoveX; [x] is a uint16. *)
Definition SendMoveX (x : Z) : M unit :=
  Write [0x1b; 0x24; byte_of (x mod 256); byte_of (x / 256)].

(** SendMoveY; [y] is a uint16. *)
Definition SendMoveY (y : Z) : M unit :=
  Write [0x1d; 0x24; byte_of (y mod 256); byte_of (y / 256)].

(** SetUnderline *)
Definition SetUnderline (v : Z) : M unit :=
  modify_prn (set_underline v) ;; SendUnderline.

(** SetEmphasize *)
Definition SetEmphasize (u : Z) : M unit :=
  modify_prn (set_emphasize u) ;; SendEmphasize.

(** SetUpsidedown *)
Definition SetUpsidedown (v : Z) : M unit :=
  modify_prn (set_upsidedown v) ;; SendUpsidedown.

(** SetRotate *)
Definition SetRotate (v : Z) : M unit :=
  modify_prn (set_rotate v) ;; SendRotate.

(** SetReverse *)
Definition SetReverse (v : Z) : M unit :=
  modify_prn (set_reverse v) ;; SendReverse.

(** SetSmooth *)
Definition SetSmooth (v : Z) : M unit :=
  modify_prn (set_smooth v) ;; SendSmooth.

(** Pulse *)
Definition Pulse : M unit := Write [0x1B; 0x70; 0x02].

(** SetAlign *)
Definition SetAlign (align : string) : M unit :=
  let a := 0 in
  a ← (if String.eqb align "left" then mret 0
       else if String.eqb align "center" then mret 1
       else if String.eqb align "right" then mret 2
       else log_Println [LStr "Invalid alignment: %s"; LStr align] ;; mret a) ;
  Write ([0x1B; 0x61] ++ fmt_c (uint_of a)).

(** SetLang *)
Definition SetLang (lang : string) : M unit :=
  let l := 0 in
  l ← (if String.eqb lang "en" then mret 0
       else if String.eqb lang "fr" then mret 1
       else if String.eqb lang "de" then mret 2
       else if String.eqb lang "uk" then mret 3
       else if String.eqb lang "da" then mret 4
       else if String.eqb lang "sv" then mret 5
       else if String.eqb lang "it" then mret 6
       else if String.eqb lang "es" then mret 7
       else if String.eqb lang "ja" then mret 8
       else if String.eqb lang "no" then mret 9
       else log_Println [LStr "Invalid language: %s"; LStr lang] ;; mret l) ;
  Write ([0x1B; 0x52] ++ fmt_c (uint_of l)).

(** The string expression [s[lo:hi]]: in range when [lo <= hi <= len(s)], a
    run-time panic otherwise. *)
Definition string_slice (s : string) (lo hi : nat) : option string :=
  if (lo <=? hi)%nat && (hi <=? String.length s)%nat
  then Some (String.substring lo (hi - lo) s)
  else None.

(** The test [v == "true" || v == "1"] of the boolean parameters. *)
Definition is_on (v : string) : bool :=
  String.eqb v "true" || String.eqb v "1".

(** A step of a function that returns an [error]: [Some err] returns [err]
    at once, [None] goes on with [k]. *)
Definition or_return (m : M (option NumError)) (k : M (option NumError))
  : M (option NumError) :=
  e ← m ;
  match e with
  | Some err => mret (Some err)
  | None => k
  end.

Definition str1 (n : nat) : string := String (ascii_of_nat n) EmptyString.

(** textReplacer *)
Definition textReplacer : list (string * string) :=
  [ ("&#9;", str1 9); ("&#x9;", str1 9);
    ("&#10;", str1 10); ("&#xA;", str1 10);
    ("&apos;", "'"); ("&quot;", str1 34); ("&gt;", ">"); ("&lt;", "<");
    ("&amp;", "&") ]%string.

(** Text *)
Definition Text (params : gmap string string) (text : string)
  : M (option NumError) :=
  match params !! "align"%string with
  | Some align => SetAlign align | None => mret tt end ;;
  match params !! "lang"%string with
  | Some lang => SetLang lang | None => mret tt end ;;
  match params !! "smooth"%string with
  | Some smooth => if is_on smooth then SetSmooth 1 else mret tt
  | None => mret tt end ;;
  match params !! "em"%string with
  | Some em => if is_on em then SetEmphasize 1 else mret tt
  | None => mret tt end ;;
  match params !! "ul"%string with
  | Some ul => if is_on ul then SetUnderline 1 else mret tt
  | None => mret tt end ;;
  match params !! "reverse"%string with
  | Some reverse => if is_on reverse then SetReverse 1 else mret tt
  | None => mret tt end ;;
  match params !! "rotate"%string with
  | Some rotate => if is_on rotate then SetRotate 1 else mret tt
  | None => mret tt end ;;
  match params !! "font"%string with
  | Some font =>
      match string_slice font 5 6 with
      | Some c => SetFont (ToUpper1 c)
      | None => panic
      end
  | None => mret tt end ;;
  match params !! "dw"%string with
  | Some dw =>
      if is_on dw then p ← get_prn ; SetFontSize 2 (height p) else mret tt
  | None => mret tt end ;;
  match params !! "dh"%string with
  | Some dh =>
      if is_on dh then p ← get_prn ; SetFontSize (width p) 2 else mret tt
  | None => mret tt end ;;
  or_return
    match params !! "width"%string with
    | Some width =>
        match Atoi width with
        | inr i => p ← get_prn ; SetFontSize (byte_of i) (height p) ;; mret None
        | inl err => mret (Some err)
        end
    | None => mret None end
  (or_return
    match params !! "height"%string with
    | Some height =>
        match Atoi height with
        | inr i => p ← get_prn ; SetFontSize (width p) (byte_of i) ;; mret None
        | inl err => mret (Some err)
        end
    | None => mret None end
  (or_return
    match params !! "x"%string with
    | Some x =>
        match Atoi x with
        | inr i => SendMoveX (uint16_of i) ;; mret None
        | inl err => mret (Some err)
        end
    | None => mret None end
  (or_return
    match params !! "y"%string with
    | Some y =>
        match Atoi y with
        | inr i => SendMoveY (uint16_of i) ;; mret None
        | inl err => mret (Some err)
        end
    | None => mret None end
  ((if (0 <? String.length text)%nat
    then WriteString (Replace textReplacer 0 text) else mret tt) ;;
   mret None)))).

(** Feed *)
Definition Feed (params : gmap string string) : M (option NumError) :=
  or_return
    match params !! "line"%string with
    | Some l =>
        match Atoi l with
        | inr i => FormfeedN i ;; mret None
        | inl err => mret (Some err)
        end
    | None => mret None end
  (or_return
    match params !! "unit"%string with
    | Some u =>
        match Atoi u with
        | inr i => SendMoveY (uint16_of i) ;; mret None
        | inl err => mret (Some err)
        end
    | None => mret None end
  (Linefeed ;;
   Reset ;;
   SendEmphasize ;;
   SendRotate ;;
   SendSmooth ;;
   SendReverse ;;
   SendUnderline ;;
   SendUpsidedown ;;
   SendFontSize ;;
   SendUnderline ;;
   mret None)).

(** FeedAndCut *)
Definition FeedAndCut (params : gmap string string) : M unit :=
  match params !! "type"%string with
  | Some t => if String.eqb t "feed" then Formfeed else mret tt
  | None => mret tt end ;;
  Cut.

(** The string [code] that the switch at the head of Barcode selects: empty
    for a format the switch does not list. *)
Definition Barcode_code (format : Z) : list Z :=
  if format =? 0 then [0x00]
  else if format =? 1 then [0x01]
  else if format =? 2 then [0x02]
  else if format =? 3 then [0x03]
  else if format =? 4 then [0x04]
  else if format =? 73 then [0x49]
  else [].

(** Barcode; [format] is an [int]. *)
Definition Barcode (barcode : string) (format : Z) : M unit :=
  let code := Barcode_code format in
  Reset ;;
  SetAlign "center" ;;
  (if 69 <? format then
     Write ([0x1d; 0x6b] ++ code ++
            fmt_v_int (Z.of_nat (String.length barcode)) ++
            bytes_of_string barcode)
   else if format <? 69 then
     Write ([0x1d; 0x6b] ++ code ++ bytes_of_string barcode ++ [0x00])
   else mret tt) ;;
  Write (bytes_of_string barcode).


(** ** The exported operations as a transition system *)

Inductive Call : Type :=
| CReset | CWrite (buf : list Z) | CWriteString (s : string)
| CInit | CEnd | CCut | CCash | CLinefeed
| CFormfeedN (n : Z) | CFormfeed
| CSetFont (font : string)
| CSendFontSize | CSetFontSize (width height : Z)
| CSendUnderline | CSendEmphasize | CSendUpsidedown
| CSendRotate | CSendReverse | CSendSmooth
| CSendMoveX (x : Z) | CSendMoveY (y : Z)
| CSetUnderline (v : Z) | CSetEmphasize (v : Z) | CSetUpsidedown (v : Z)
| CSetRotate (v : Z) | CSetReverse (v : Z) | CSetSmooth (v : Z)
| CPulse | CSetAlign (align : string) | CSetLang (lang : string)
| CText (params : gmap string string) (text : string)
| CFeed (params : gmap string string)
| CFeedAndCut (params : gmap string string)
| CBarcode (barcode : string) (format : Z)
| CRaster (width height lineWidth : Z) (imgBw : Slice) (printingType : string).

Definition drop_result {A : Type} (m : M A) : M unit := m ;; mret tt.

Definition call (c : Call) : M unit :=
  match c with
  | CReset => Reset
  | CWrite buf => Write buf
  | CWriteString s => WriteString s
  | CInit => Init
  | CEnd => End_
  | CCut => Cut
  | CCash => Cash
  | CLinefeed => Linefeed
  | CFormfeedN n => FormfeedN n
  | CFormfeed => Formfeed
  | CSetFont font => SetFont font
  | CSendFontSize => SendFontSize
  | CSetFontSize w h => SetFontSize w h
  | CSendUnderline => SendUnderline
  | CSendEmphasize => SendEmphasize
  | CSendUpsidedown => SendUpsidedown
  | CSendRotate => SendRotate
  | CSendReverse => SendReverse
  | CSendSmooth => SendSmooth
  | CSendMoveX x => SendMoveX x
  | CSendMoveY y => SendMoveY y
  | CSetUnderline v => SetUnderline v
  | CSetEmphasize v => SetEmphasize v
  | CSetUpsidedown v => SetUpsidedown v
  | CSetRotate v => SetRotate v
  | CSetReverse v => SetReverse v
  | CSetSmooth v => SetSmooth v
  | CPulse => Pulse
  | CSetAlign align => SetAlign align
  | CSetLang lang => SetLang lang
  | CText params text => drop_result (Text params text)
  | CFeed params => drop_result (Feed params)
  | CFeedAndCut params => FeedAndCut params
  | CBarcode barcode format => Barcode barcode format
  | CRaster w h lw img ty => Raster w h lw img ty
  end.

(** The worlds a session can be in: the one NewPrinter makes, and the one
    any call leaves, whether it returns or panics. *)
Inductive reachable : World -> Prop :=
| reach_new (tr : list Event) (st : World) :
    NewPrinter (Some tr) = inr st -> reachable st
| reach_call (st : World) (c : Call) :
    reachable st -> reachable (exec (call c) st).

Definition font_ok (p : Printer) : Prop :=
  1 <= width p <= 8 /\ 1 <= height p <= 8.

(** ** What the specification calls the encoding and the chunks *)

(** The [n]-byte little-endian encoding: the [n] low base-256 digits, least
    significant first. *)
Definition le_bytes (n : nat) (x : Z) : list Z :=
  map (fun i => (x / 256 ^ Z.of_nat i) mod 256) (seq 0 n).

Definition le_decode (bs : list Z) : Z :=
  fold_right (fun b acc => b + 256 * acc) 0 bs.

(** [n] consecutive chunks from row [l] on, each of [min(L_max, remaining)]
    rows. *)
Fixpoint chunks_from (n : nat) (l height : Z) : list (Z * Z) :=
  match n with
  | O => []
  | S n' =>
      let lines := Z.min gs8lMaxY (height - l) in
      (l, lines) :: chunks_from n' (l + lines) height
  end.

(** The [ceil(height / L_max)] chunks of an image, as (start row, line
    count). *)
Definition row_chunks (height : Z) : list (Z * Z) :=
  chunks_from (Z.to_nat ((height + (gs8lMaxY - 1)) / gs8lMaxY)) 0 height.

(** The bytes [imgBw[lo .. hi)]. *)
Definition sub_bytes (imgBw : Slice) (lo hi : Z) : list Z :=
  take (Z.to_nat (hi - lo)) (drop (Z.to_nat lo) (arr imgBw)).

(** The three writes of one chunk, as the wire protocol lays them out. *)
Definition chunk_frame (width lineWidth : Z) (imgBw : Slice) (c : Z * Z)
  : list (list Z) :=
  let '(l, lineCount) := c in
  [ [0x1D; 0x38; 0x4C] ++ le_bytes 4 (10 + lineCount * lineWidth) ++
    [0x30; 0x70; 0x30; 0x01; 0x01; 0x31] ++
    le_bytes 2 width ++ le_bytes 2 lineCount;
    sub_bytes imgBw (l * lineWidth) ((l + lineCount) * lineWidth);
    [0x1D; 0x28; 0x4C; 0x02; 0x00; 0x30; 0x32] ].

(** ** The notions the properties are stated with *)

(** The number of chunks still to send from row [l]. *)
Definition chunks_left (height l : Z) : nat :=
  Z.to_nat ((height - l + (gs8lMaxY - 1)) / gs8lMaxY).

Definition total_lines (cs : list (Z * Z)) : Z :=
  fold_right Z.add 0 (map snd cs).

(** A 512 x 2000 image of 64 bytes a line. *)
Definition image_512x2000 : Slice := slice_of (repeat 0 (Z.to_nat 128000)).

(** A toggle takes the values 0 and 1. *)
Definition toggle (v : Z) : Prop := v = 0 \/ v = 1.

(** C8 as the specification states it, for the underline setter: a value
    that is no toggle is not stored. *)
Definition underline_validated (v : Z) (st : World) : Prop :=
  ~ toggle v -> underline (prn (exec (SetUnderline v) st)) <> v.

(** The events a computation adds to the trace. *)
Definition added {A : Type} (m : M A) (st : World) : list Event :=
  drop (length (trace st)) (trace (exec m st)).

(** Calling [m] twice in succession: both calls return, add the same events,
    and the second leaves the printer state as the first left it. *)
Definition idempotent (m : M unit) : Prop :=
  forall st : World,
    let st1 := exec m st in
    let st2 := exec m st1 in
    result m st = Done tt /\ result m st1 = Done tt /\
    trace st1 = trace st ++ added m st /\
    trace st2 = trace st1 ++ added m st /\
    prn st2 = prn st1.

(** The writes a computation adds to what the sink has received. *)
Definition writes_of {A : Type} (m : M A) (st : World) : list (list Z) :=
  drop (length (written st)) (written (exec m st)).

(** The two framings of the barcode command 1D 6B: the payload behind its
    length in decimal digits, and the payload closed by a NUL byte. *)
Definition length_prefixed (code : list Z) (barcode : string) : list Z :=
  [0x1d; 0x6b] ++ code ++
  fmt_v_int (Z.of_nat (String.length barcode)) ++ bytes_of_string barcode.

Definition nul_terminated (code : list Z) (barcode : string) : list Z :=
  [0x1d; 0x6b] ++ code ++ bytes_of_string barcode ++ [0x00].

(** The write of SetAlign("center"). *)
Definition align_center : list Z := [0x1B; 0x61; 0x01].

(** C5 as the specification states it: above 69 the length-prefixed frame
    is sent, and up to 69 the NUL-terminated one. *)
Definition framing_by_threshold (barcode : string) (format : Z) (st : World)
  : Prop :=
  let ws := writes_of (Barcode barcode format) st in
  (69 < format -> length_prefixed (Barcode_code format) barcode ∈ ws) /\
  (format <= 69 -> nul_terminated (Barcode_code format) barcode ∈ ws).

(** An event that is not the sending of the text. *)
Definition no_render (e : Event) : Prop :=
  match e with EvPrintTextImage _ => False | _ => True end.

(** [m] returns, with a result in [Q], and has only added events that are
    not the sending of the text. *)
Definition quiet {A : Type} (Q : A -> Prop) (m : M A) : Prop :=
  forall st : World,
    exists (a : A) (p' : Printer) (evs : list Event),
      m st = (Done a, mkWorld p' (trace st ++ evs)) /\
      Forall no_render evs /\ Q a.

Definition anything {A : Type} (_ : A) : Prop := True.

(** The parameters of Text in the order it handles them. *)
Definition style_keys : list string :=
  ["align"; "lang"; "smooth"; "em"; "ul"; "reverse"; "rotate"; "font";
   "dw"; "dh"]%string.

Definition numeric_keys : list string := ["width"; "height"; "x"; "y"]%string.

(** A numeric parameter holds a string that strconv.Atoi refuses. *)
Definition malformed (params : gmap string string) : Prop :=
  exists (key v : string) (err : NumError),
    key ∈ numeric_keys /\ params !! key = Some v /\ Atoi v = inl err.

(** The font parameter, when there is one, is long enough for [font[5:6]]. *)
Definition font_sliceable (params : gmap string string) : Prop :=
  forall font : string,
    params !! "font"%string = Some font -> (6 <= String.length font)%nat.

(** C6 as the specification states it: an error is returned and the sink
    has received nothing from the call. *)
Definition aborts_before_any_write (params : gmap string string)
    (text : string) (st : World) : Prop :=
  exists err : NumError,
    result (Text params text) st = Done (Some err) /\
    written (exec (Text params text) st) = written st.

Definition params_align_width : gmap string string :=
  {[ "align"%string := "left"%string; "width"%string := "abc"%string ]}.

(** [m] keeps [I]: from a printer state in [I] it leaves one in [I],
    whether it returns or panics. *)
Definition keeps (I : Printer -> Prop) {A : Type} (m : M A) : Prop :=
  forall st : World, I (prn st) -> I (prn (exec m st)).

(** The events of sending the frames of the chunks [cs]. *)
Definition chunk_events (width lineWidth : Z) (imgBw : Slice)
    (cs : list (Z * Z)) : list Event :=
  map EvWrite (concat (map (chunk_frame width lineWidth imgBw) cs)).

(** ** The graphics commands: gSend and Image *)

Inductive ImageError : Type :=
| ImageNumError (err : NumError)      (* from strconv.Atoi *)
| ImageCorruptInput (offset : Z).     (* base64.CorruptInputError *)

(** gSend; [m] and [fn] are bytes, [data] the elements of the slice. *)
Definition gSend (m fn : Z) (data : list Z) : M unit :=
  let l := int_add (Z.of_nat (length data)) 2 in
  Write [0x1b; 0x28; 0x4c] ;;
  Write [byte_of (int_rem l 256); byte_of (int_quo l 256); m; fn] ;;
  Write data.

(** Image. [DecodeString] stands for base64.StdEncoding.DecodeString: the
    decoded bytes, or the offset of the corrupt input. A key that is absent
    reads as the empty string. The line of log.Printf is recorded as its
    format and its operands. *)
Definition Image (DecodeString : string -> Z + list Z)
    (params : gmap string string) (data : string) : M (option ImageError) :=
  match params !! "align"%string with
  | Some align => SetAlign align | None => mret tt end ;;
  let wstr := default ""%string (params !! "width"%string) in
  match params !! "width"%string with
  | Some _ => mret tt
  | None => log_Println [LStr "No width specified on image"] end ;;
  let hstr := default ""%string (params !! "height"%string) in
  match params !! "height"%string with
  | Some _ => mret tt
  | None => log_Println [LStr "No height specified on image"] end ;;
  match Atoi wstr with
  | inl err => mret (Some (ImageNumError err))
  | inr width =>
      match Atoi hstr with
      | inl err => mret (Some (ImageNumError err))
      | inr height =>
          match DecodeString data with
          | inl offset => mret (Some (ImageCorruptInput offset))
          | inr dec =>
              log_Println [LStr ("Image len:%d w: %d h: %d" ++ str1 10);
                           LInt (Z.of_nat (length dec));
                           LInt width; LInt height] ;;
              let header := [0x30; 0x01; 0x01; 0x31] in
              let a := header ++ dec in
              gSend 0x30 0x70 a ;;
              gSend 0x30 0x32 [] ;;
              mret None
          end
      end
  end.

(** ** The dispatch WriteNode *)

(** The excerpt of the data in the log line of WriteNode. *)
Definition WriteNode_cstr (data : string) : M string :=
  let cstr := ""%string in
  if negb (String.eqb data "") then
    let str := data in
    str ← (if (40 <? String.length data)%nat then
             match string_slice data 0 40 with
             | Some s => mret (s ++ " ...")%string
             | None => panic
             end
           else mret str) ;
    mret (" => '" ++ str ++ "'")%string
  else mret cstr.

(** WriteNode. [fmt_map] stands for the verb [%+v] of package fmt on the
    params map, and [DecodeString] for the base64 decoder of Image. The
    line of log.Printf is recorded as its format and its operands. The
    errors that Text, Feed and Image return are dropped. *)
Definition WriteNode (fmt_map : gmap string string -> string)
    (DecodeString : string -> Z + list Z)
    (name : string) (params : gmap string string) (data : string) : M unit :=
  cstr ← WriteNode_cstr data ;
  log_Println [LStr ("Write: %s => %+v%s" ++ str1 10); LStr name;
               LStr (fmt_map params); LStr cstr] ;;
  if String.eqb name "text" then drop_result (Text params data)
  else if String.eqb name "feed" then drop_result (Feed params)
  else if String.eqb name "cut" then FeedAndCut params
  else if String.eqb name "pulse" then Pulse
  else if String.eqb name "image" then
    drop_result (Image DecodeString params data)
  else mret tt.

(** ** The notions the further properties are stated with *)

(** The byte-wise negation of a list of base-256 digits. *)
Definition negate_bytes (bs : list Z) : list Z :=
  map (fun d => (- d) mod 256) bs.

(** The second write of every frame of three writes: the pixel payloads of a
    transfer in graphics mode. *)
Fixpoint payloads (ws : list (list Z)) : list (list Z) :=
  match ws with
  | _ :: p :: _ :: rest => p :: payloads rest
  | _ => []
  end.

(** A numeric parameter that is absent or holds an integer. *)
Definition well_formed (key : string) (params : gmap string string) : Prop :=
  forall v : string, params !! key = Some v -> exists i : Z, Atoi v = inr i.

(** The form feed Feed writes for its parameter line, and the move it writes
    for its parameter unit. *)
Definition feed_line (params : gmap string string) : list (list Z) :=
  match params !! "line"%string with
  | Some l =>
      match Atoi l with
      | inr i => [[0x1B; 0x64] ++ fmt_c (uint_of i)]
      | inl _ => []
      end
  | None => []
  end.

Definition feed_unit (params : gmap string string) : list (list Z) :=
  match params !! "unit"%string with
  | Some u =>
      match Atoi u with
      | inr i => [[0x1d; 0x24] ++ le_bytes 2 (uint16_of i)]
      | inl _ => []
      end
  | None => []
  end.

(** The line feed and the eight style commands Feed ends with, all for the
    default state. *)
Definition feed_refresh : list (list Z) :=
  [ [0x0A];
    [0x1B; 0x47; 0x00]; [0x1B; 0x52; 0x00]; [0x1D; 0x62; 0x00];
    [0x1D; 0x42; 0x00]; [0x1B; 0x2D; 0x00]; [0x1B; 0x7B; 0x00];
    [0x1D; 0x21; 0x00]; [0x1B; 0x2D; 0x00] ].

(** The state of a new printer. *)
Definition default_printer : Printer := mkPrinter 1 1 0 0 0 0 0 0.

(** The error of a numeric parameter: none when it is absent or holds an
    integer. *)
Definition param_error (params : gmap string string) (key : string)
  : option NumError :=
  match params !! key with
  | Some v => match Atoi v with inl err => Some err | inr _ => None end
  | None => None
  end.

(** The error of the first malformed numeric parameter of Text, in the order
    width, height, x, y. *)
Definition first_error (params : gmap string string) : option NumError :=
  match param_error params "width" with
  | Some err => Some err
  | None =>
      match param_error params "height" with
      | Some err => Some err
      | None =>
          match param_error params "x" with
          | Some err => Some err
          | None => param_error params "y"
          end
      end
  end.

(** [m] returns, with a result in [Q]. *)
Definition returns {A : Type} (Q : A -> Prop) (m : M A) : Prop :=
  forall st : World, exists (a : A) (st' : World), m st = (Done a, st') /\ Q a.

(** [m] panics. *)
Definition panics {A : Type} (m : M A) : Prop :=
  forall st : World, exists st' : World, m st = (Panic, st').

(** Against [p0], the state [p] has the same upside-down toggle, and every
    other toggle is as in [p0] or on. *)
Definition only_switched_on (p0 p : Printer) : Prop :=
  upsidedown p = upsidedown p0 /\
  (underline p = underline p0 \/ underline p = 1) /\
  (emphasize p = emphasize p0 \/ emphasize p = 1) /\
  (rotate p = rotate p0 \/ rotate p = 1) /\
  (reverse p = reverse p0 \/ reverse p = 1) /\
  (smooth p = smooth p0 \/ smooth p = 1).

(** The string holds no ampersand. *)
Definition no_amp (s : string) : Prop :=
  Forall (fun c => c <> "&"%char) (list_ascii_of_string s).


(** The body of Image behind the alignment parameter. *)
Definition Image_body (DecodeString : string -> Z + list Z)
    (params : gmap string string) (data : string) : M (option ImageError) :=
  let wstr := default ""%string (params !! "width"%string) in
  match params !! "width"%string with
  | Some _ => mret tt
  | None => log_Println [LStr "No width specified on image"] end ;;
  let hstr := default ""%string (params !! "height"%string) in
  match params !! "height"%string with
  | Some _ => mret tt
  | None => log_Println [LStr "No height specified on image"] end ;;
  match Atoi wstr with
  | inl err => mret (Some (ImageNumError err))
  | inr width =>
      match Atoi hstr with
      | inl err => mret (Some (ImageNumError err))
      | inr height =>
          match DecodeString data with
          | inl offset => mret (Some (ImageCorruptInput offset))
          | inr dec =>
              log_Println [LStr ("Image len:%d w: %d h: %d" ++ str1 10);
                           LInt (Z.of_nat (length dec));
                           LInt width; LInt height] ;;
              let header := [0x30; 0x01; 0x01; 0x31] in
              let a := header ++ dec in
              gSend 0x30 0x70 a ;;
              gSend 0x30 0x32 [] ;;
              mret None
          end
      end
  end.

(** The two graphics commands of Image for the decoded bytes [dec]. *)
Definition image_frames (dec : list Z) : list (list Z) :=
  [ [0x1b; 0x28; 0x4c];
    le_bytes 2 (Z.of_nat (length dec) + 6) ++ [0x30; 0x70];
    [0x30; 0x01; 0x01; 0x31] ++ dec;
    [0x1b; 0x28; 0x4c];
    [0x02; 0x00; 0x30; 0x32];
    [] ].

(** The writes of the alignment parameter of Image. *)
Definition image_align (params : gmap string string) (st : World)
  : list (list Z) :=
  match params !! "align"%string with
  | Some align => writes_of (SetAlign align) st
  | None => []
  end.

(** The font number that the byte [b] at index 5 of the font parameter of
    Text selects, and whether [b] is one of the letters a, b, c in either
    case. *)
Definition font_number (b : Z) : Z :=
  if (b =? 65) || (b =? 97) then 0
  else if (b =? 66) || (b =? 98) then 1
  else if (b =? 67) || (b =? 99) then 2
  else 0.

Definition font_letter (b : Z) : bool :=
  ((b =? 65) || (b =? 97)) || ((b =? 66) || (b =? 98))
  || ((b =? 67) || (b =? 99)).

(** The keys of Text other than font. *)
Definition keys_but_font : list string :=
  ["align"; "lang"; "smooth"; "em"; "ul"; "reverse"; "rotate"; "dw"; "dh";
   "width"; "height"; "x"; "y"]%string.

(** ** The command frames of the parameters of Text *)

(** The argument of the alignment command and of the language command. *)
Definition align_code (align : string) : Z :=
  if String.eqb align "left" then 0
  else if String.eqb align "center" then 1
  else if String.eqb align "right" then 2
  else 0.

Definition lang_code (lang : string) : Z :=
  if String.eqb lang "en" then 0
  else if String.eqb lang "fr" then 1
  else if String.eqb lang "de" then 2
  else if String.eqb lang "uk" then 3
  else if String.eqb lang "da" then 4
  else if String.eqb lang "sv" then 5
  else if String.eqb lang "it" then 6
  else if String.eqb lang "es" then 7
  else if String.eqb lang "ja" then 8
  else if String.eqb lang "no" then 9
  else 0.

(** What handling one parameter comes to: the printer state it leaves and
    the frames it has written. [Ending] adds the error that stops Text. *)
Definition Step : Type := Printer -> Printer * list (list Z).
Definition Ending : Type :=
  Printer -> option NumError * (Printer * list (list Z)).

Definition align_step (params : gmap string string) : Step :=
  fun p =>
    (p, match params !! "align"%string with
        | Some align => [[0x1B; 0x61; align_code align]]
        | None => []
        end).

Definition lang_step (params : gmap string string) : Step :=
  fun p =>
    (p, match params !! "lang"%string with
        | Some lang => [[0x1B; 0x52; lang_code lang]]
        | None => []
        end).

(** A boolean parameter that is on stores 1 and writes the command with the
    byte 01; one that is absent or off does nothing. *)
Definition toggle_step (key : string) (set : Z -> Printer -> Printer)
    (cmd : list Z) (params : gmap string string) : Step :=
  fun p =>
    match params !! key with
    | Some v => if is_on v then (set 1 p, [cmd ++ [0x01]]) else (p, [])
    | None => (p, [])
    end.

Definition font_step (params : gmap string string) : Step :=
  fun p =>
    (p, match params !! "font"%string with
        | Some font =>
            match String.get 5 font with
            | Some c => [[0x1B; 0x4D; font_number (byte_of_ascii c)]]
            | None => []
            end
        | None => []
        end).

(** A font size in 1..8 by 1..8 is stored and written as 1D 21 and the size
    byte; another one does nothing. *)
Definition size_step (w h : Z) : Step :=
  fun p =>
    if (0 <? w) && (0 <? h) && (w <=? 8) && (h <=? 8)
    then (set_height h (set_width w p),
          [[0x1D; 0x21; Z.lor (Z.shiftl (w - 1) 4) (h - 1)]])
    else (p, []).

Definition dw_step (params : gmap string string) : Step :=
  fun p =>
    match params !! "dw"%string with
    | Some v => if is_on v then size_step 2 (height p) p else (p, [])
    | None => (p, [])
    end.

Definition dh_step (params : gmap string string) : Step :=
  fun p =>
    match params !! "dh"%string with
    | Some v => if is_on v then size_step (width p) 2 p else (p, [])
    | None => (p, [])
    end.

(** A numeric parameter: absent it does nothing, malformed it stops Text
    with the error, and otherwise [f] is done with the number. *)
Definition number_step (key : string) (f : Z -> Step)
    (params : gmap string string) : Ending :=
  fun p =>
    match params !! key with
    | Some v =>
        match Atoi v with
        | inr i => (None, f i p)
        | inl err => (Some err, (p, []))
        end
    | None => (None, (p, []))
    end.

Definition width_step : gmap string string -> Ending :=
  number_step "width" (fun i p => size_step (i mod 256) (height p) p).

Definition height_step : gmap string string -> Ending :=
  number_step "height" (fun i p => size_step (width p) (i mod 256) p).

Definition x_step : gmap string string -> Ending :=
  number_step "x" (fun i p => (p, [[0x1B; 0x24] ++ le_bytes 2 (i mod 2 ^ 16)])).

Definition y_step : gmap string string -> Ending :=
  number_step "y" (fun i p => (p, [[0x1D; 0x24] ++ le_bytes 2 (i mod 2 ^ 16)])).

(** One step and then the rest; a step that can stop with an error and
    then the rest. *)
Definition after (s : Step) (e : Ending) : Ending :=
  fun p =>
    let '(p1, w1) := s p in
    let '(err, (p2, w2)) := e p1 in
    (err, (p2, w1 ++ w2)).

Definition or_else (s e : Ending) : Ending :=
  fun p =>
    match s p with
    | (Some err, o) => (Some err, o)
    | (None, (p1, w1)) =>
        let '(err, (p2, w2)) := e p1 in
        (err, (p2, w1 ++ w2))
    end.

Definition params_done : Ending := fun p => (None, (p, [])).

(** The parameters of Text in the order it handles them, up to the first
    malformed numeric one: the error, the state left and the frames
    written. *)
Definition Text_params (params : gmap string string) : Ending :=
  after (align_step params)
  (after (lang_step params)
  (after (toggle_step "smooth" set_smooth [0x1D; 0x62] params)
  (after (toggle_step "em" set_emphasize [0x1B; 0x47] params)
  (after (toggle_step "ul" set_underline [0x1B; 0x2D] params)
  (after (toggle_step "reverse" set_reverse [0x1D; 0x42] params)
  (after (toggle_step "rotate" set_rotate [0x1B; 0x52] params)
  (after (font_step params)
  (after (dw_step params)
  (after (dh_step params)
  (or_else (width_step params)
  (or_else (height_step params)
  (or_else (x_step params)
  (or_else (y_step params) params_done))))))))))))).

Definition param_frames (params : gmap string string) (p : Printer)
  : list (list Z) :=
  snd (snd (Text_params params p)).

(** What Text does once its parameters are handled: it sends the text, if
    there is one, and returns nil. *)
Definition Text_last (text : string) : M (option NumError) :=
  (if (0 <? String.length text)%nat
   then WriteString (Replace textReplacer 0 text) else mret tt) ;;
  mret None.

(** [m] does the step [s]: it returns, leaves the state of [s], and adds
    events that are no rendering and whose writes are the frames of [s]. *)
Definition handles (m : M unit) (s : Step) : Prop :=
  forall (p : Printer) (tr : list Event),
    exists evs : list Event,
      m (mkWorld p tr) = (Done tt, mkWorld (fst (s p)) (tr ++ evs)) /\
      Forall no_render evs /\
      written (mkWorld p evs) = snd (s p).

Definition decides (m : M (option NumError)) (s : Ending) : Prop :=
  forall (p : Printer) (tr : list Event),
    exists evs : list Event,
      m (mkWorld p tr)
      = (Done (fst (s p)), mkWorld (fst (snd (s p))) (tr ++ evs)) /\
      Forall no_render evs /\
      written (mkWorld p evs) = snd (snd (s p)).

(** [m] does [e] and then, unless [e] stops with an error, which [m]
    returns, goes on as [last]. *)
Definition ends_in (last m : M (option NumError)) (e : Ending) : Prop :=
  forall (p : Printer) (tr : list Event),
    exists evs : list Event,
      Forall no_render evs /\
      written (mkWorld p evs) = snd (snd (e p)) /\
      match fst (e p) with
      | Some err =>
          m (mkWorld p tr)
          = (Done (Some err), mkWorld (fst (snd (e p))) (tr ++ evs))
      | None =>
          m (mkWorld p tr) = last (mkWorld (fst (snd (e p))) (tr ++ evs))
      end.


Definition params_width : gmap string string :=
  {[ "width"%string := "abc"%string ]}.


(** * Properties *)

(** ** Machine integers *)

Lemma int_wrap_id (x : Z) : in_int x -> int_wrap x = x.
Proof.
  unfold in_int, int_wrap, int_min, int_max. intros H.
  rewrite Z.mod_small; lia.
Qed.

Lemma int_wrap_cong (x : Z) : exists q, int_wrap x = x + 2 ^ 64 * q.
Proof.
  exists (- ((x + 2 ^ 63) / 2 ^ 64)). unfold int_wrap.
  rewrite Z.mod_eq by lia. lia.
Qed.

(** The four low bytes of a wrapped integer are those of the integer. *)
Lemma byte_shr_wrap (x k : Z) :
  0 <= k <= 56 ->
  byte_of (int_shr (int_wrap x) k) = (x / 2 ^ k) mod 256.
Proof.
  intros Hk. destruct (int_wrap_cong x) as [q ->].
  unfold byte_of, int_shr. rewrite Z.shiftr_div_pow2 by lia.
  replace (2 ^ 64 * q) with (2 ^ (56 - k) * 256 * q * 2 ^ k).
  - rewrite Z.div_add by (apply Z.pow_nonzero; lia).
    replace (2 ^ (56 - k) * 256 * q) with (2 ^ (56 - k) * q * 256) by ring.
    apply Z_mod_plus_full.
  - replace (2 ^ 64) with (2 ^ (56 - k) * 2 ^ 8 * 2 ^ k).
    + change (2 ^ 8) with 256. ring.
    + rewrite <- !Z.pow_add_r by lia. f_equal. lia.
Qed.

Lemma byte_shr (x k : Z) :
  0 <= k -> byte_of (int_shr x k) = (x / 2 ^ k) mod 256.
Proof.
  intros Hk. unfold byte_of, int_shr. now rewrite Z.shiftr_div_pow2.
Qed.

Lemma le_bytes_4_wrap (x : Z) :
  [byte_of (int_wrap x); byte_of (int_shr (int_wrap x) 8);
   byte_of (int_shr (int_wrap x) 16); byte_of (int_shr (int_wrap x) 24)]
  = le_bytes 4 x.
Proof.
  unfold le_bytes. cbn [seq map].
  rewrite <- (Z.shiftr_0_r (int_wrap x)) at 1.
  change (Z.shiftr (int_wrap x) 0) with (int_shr (int_wrap x) 0).
  rewrite !byte_shr_wrap by lia. reflexivity.
Qed.

Lemma le_bytes_2 (x : Z) :
  [byte_of x; byte_of (int_shr x 8)] = le_bytes 2 x.
Proof.
  unfold le_bytes. cbn [seq map].
  rewrite byte_shr by lia. unfold byte_of.
  change (256 ^ Z.of_nat 0) with 1. rewrite Z.div_1_r. reflexivity.
Qed.

(** ** The little-endian encoding *)

Lemma le_bytes_S (n : nat) (x : Z) :
  le_bytes (S n) x = x mod 256 :: le_bytes n (x / 256).
Proof.
  unfold le_bytes. cbn [seq map]. f_equal.
  - change (256 ^ Z.of_nat 0) with 1. now rewrite Z.div_1_r.
  - rewrite <- seq_shift, map_map. apply map_ext. intros i.
    rewrite Nat2Z.inj_succ, Z.pow_succ_r by lia.
    rewrite Z.div_div by lia. reflexivity.
Qed.

Lemma le_bytes_length (n : nat) (x : Z) : length (le_bytes n x) = n.
Proof. unfold le_bytes. now rewrite length_map, length_seq. Qed.

Lemma le_decode_bytes (n : nat) :
  forall x, le_decode (le_bytes n x) = x mod 256 ^ Z.of_nat n.
Proof.
  induction n as [|n IH]; intros x.
  - cbn. now rewrite Z.mod_1_r.
  - rewrite le_bytes_S. cbn [le_decode fold_right].
    fold (le_decode (le_bytes n (x / 256))). rewrite IH.
    rewrite Nat2Z.inj_succ, Z.pow_succ_r by lia.
    rewrite Z.rem_mul_r by lia. reflexivity.
Qed.

Lemma le_bytes_mod (n : nat) :
  forall x, le_bytes n (x mod 256 ^ Z.of_nat n) = le_bytes n x.
Proof.
  induction n as [|n IH]; intros x; [reflexivity|].
  rewrite !le_bytes_S.
  rewrite Nat2Z.inj_succ, Z.pow_succ_r by lia.
  assert (Hpos : 0 < 256 ^ Z.of_nat n) by (apply Z.pow_pos_nonneg; lia).
  rewrite Z.rem_mul_r by lia.
  f_equal.
  - rewrite (Z.mul_comm 256), Z_mod_plus_full. apply Z.mod_mod. lia.
  - rewrite Z.add_comm, (Z.mul_comm 256), Z.div_add_l by lia.
    rewrite (Z.div_small (x mod 256)) by (apply Z.mod_pos_bound; lia).
    rewrite Z.add_0_r. apply IH.
Qed.

Lemma le_bytes_zero (n : nat) : le_bytes n 0 = repeat 0 n.
Proof.
  induction n as [|n IH]; [reflexivity|].
  rewrite le_bytes_S. cbn [repeat]. now rewrite <- IH.
Qed.

Lemma le_bytes_range (n : nat) (x : Z) :
  Forall (fun b => 0 <= b < 256) (le_bytes n x).
Proof.
  unfold le_bytes. apply Forall_map, Forall_forall. intros i _.
  apply Z.mod_pos_bound. lia.
Qed.

(** The loop of intLowHigh appends the low digits of an input that is not
    negative. *)
Lemma intLowHigh_loop_digits (n : nat) :
  forall inpNumber outp,
    0 <= inpNumber <= int_max ->
    intLowHigh_loop n inpNumber outp = outp ++ le_bytes n inpNumber.
Proof.
  induction n as [|n IH]; intros inp outp Hin; cbn [intLowHigh_loop].
  - cbn. now rewrite app_nil_r.
  - assert (Hq : 0 <= inp / 256 <= int_max).
    { split; [apply Z.div_pos; lia|].
      apply Z.le_trans with inp; [|lia]. apply Z.div_le_upper_bound; lia. }
    unfold int_rem, int_quo, byte_of.
    rewrite Z.rem_mod_nonneg, Z.quot_div_nonneg by lia.
    rewrite int_wrap_id by (unfold in_int, int_min; lia).
    rewrite IH by exact Hq.
    rewrite le_bytes_S, <- app_assoc. cbn [app].
    now rewrite Z.mod_mod by lia.
Qed.

(** C3. For every input that is not negative and every byte count from 1 to
    4, intLowHigh returns exactly that many bytes, the little-endian base-256
    digits of the input modulo 256^outBytes: the exact encoding of an input
    below 256^outBytes (all zero bytes for 0, [0x2C, 0x01] for 300 in two
    bytes), and the truncated encoding of a larger one, returned in any
    case. *)
Theorem intLowHigh_little_endian (inpNumber outBytes : Z) :
  0 <= inpNumber <= int_max ->
  1 <= outBytes <= 4 ->
  let outp := snd (intLowHigh inpNumber outBytes) in
  Z.of_nat (length outp) = outBytes /\
  outp = le_bytes (Z.to_nat outBytes) (inpNumber mod 256 ^ outBytes) /\
  Forall (fun b => 0 <= b < 256) outp /\
  le_decode outp = inpNumber mod 256 ^ outBytes /\
  (inpNumber < 256 ^ outBytes -> le_decode outp = inpNumber) /\
  (inpNumber = 0 -> outp = repeat 0 (Z.to_nat outBytes)) /\
  snd (intLowHigh 300 2) = [0x2C; 0x01].
Proof.
  intros Hin Hn outp.
  assert (Hout : outp = le_bytes (Z.to_nat outBytes) inpNumber).
  { subst outp. unfold intLowHigh. cbn [snd].
    now rewrite intLowHigh_loop_digits. }
  assert (Hpow : 256 ^ outBytes = 256 ^ Z.of_nat (Z.to_nat outBytes))
    by (now rewrite Z2Nat.id by lia).
  assert (Hdec : le_decode outp = inpNumber mod 256 ^ outBytes)
    by (now rewrite Hout, le_decode_bytes, Hpow).
  repeat split.
  - rewrite Hout, le_bytes_length. lia.
  - now rewrite Hpow, le_bytes_mod.
  - rewrite Hout. apply le_bytes_range.
  - exact Hdec.
  - intros Hlt. rewrite Hdec. apply Z.mod_small. lia.
  - intros ->. rewrite Hout. apply le_bytes_zero.
Qed.

(** The theorem at 300 in two bytes. *)
Lemma intLowHigh_little_endian_300 :
  let outp := snd (intLowHigh 300 2) in
  Z.of_nat (length outp) = 2 /\
  outp = le_bytes (Z.to_nat 2) (300 mod 256 ^ 2) /\
  Forall (fun b => 0 <= b < 256) outp /\
  le_decode outp = 300 mod 256 ^ 2 /\
  (300 < 256 ^ 2 -> le_decode outp = 300) /\
  (300 = 0 -> outp = repeat 0 (Z.to_nat 2)) /\
  snd (intLowHigh 300 2) = [0x2C; 0x01].
Proof.
  apply (intLowHigh_little_endian 300 2); unfold int_max; lia.
Defined.

(** ** The chunked raster transfer *)

Lemma bind_emit {A : Type} (e : Event) (k : M A) (st : World) :
  (emit e ;; k) st = k (mkWorld (prn st) (trace st ++ [e])).
Proof. reflexivity. Qed.

Lemma world_trace_nil (st : World) : mkWorld (prn st) (trace st ++ []) = st.
Proof. destruct st as [p tr]. cbn. now rewrite app_nil_r. Qed.


Lemma chunks_left_done (height : Z) : chunks_left height height = O.
Proof. unfold chunks_left. now rewrite Z.sub_diag. Qed.

Lemma chunks_left_step (height l : Z) :
  l < height ->
  chunks_left height l
  = S (chunks_left height (l + Z.min gs8lMaxY (height - l))).
Proof.
  intros Hl. unfold chunks_left, gs8lMaxY.
  destruct (Z.le_gt_cases 1662 (height - l)) as [Hbig|Hsmall].
  - rewrite Z.min_l by lia.
    replace (height - l + (1662 - 1))
      with (height - (l + 1662) + (1662 - 1) + 1 * 1662) by lia.
    rewrite Z.div_add by lia.
    rewrite Z2Nat.inj_add by (try apply Z.div_pos; lia).
    rewrite Nat.add_comm. reflexivity.
  - rewrite Z.min_r by lia.
    replace (height - (l + (height - l)) + (1662 - 1)) with 1661 by lia.
    replace ((height - l + (1662 - 1)) / 1662) with 1; [reflexivity|].
    apply Z.div_unique with (r := height - l - 1); lia.
Qed.

Section RasterGraphics.

Variables (width height lineWidth : Z) (imgBw : Slice).
Hypothesis height_int : height <= int_max.
Hypothesis lineWidth_nonneg : 0 <= lineWidth.
Hypothesis imgBw_ok : slice_ok imgBw.
Hypothesis imgBw_rows : height * lineWidth <= cap imgBw.

(** One turn of the loop sends the frame of the chunk at row [l]. *)
Lemma Raster_graphics_turn (fuel : nat) (l : Z) (st : World) :
  0 <= l < height ->
  Raster_graphics (S fuel) width height lineWidth imgBw l st
  = Raster_graphics fuel width height lineWidth imgBw
      (l + Z.min gs8lMaxY (height - l))
      (mkWorld (prn st)
         (trace st ++
          chunk_events width lineWidth imgBw
            [(l, Z.min gs8lMaxY (height - l))])).
Proof.
  intros Hl. cbn [Raster_graphics].
  destruct (Z.ltb_spec l height) as [_|Hge]; [|lia].
  assert (Hsub : int_sub height l = height - l).
  { apply int_wrap_id. unfold in_int, int_min, int_max in *. lia. }
  rewrite Hsub.
  set (lines := Z.min gs8lMaxY (height - l)).
  assert (Hlines : (if height - l <? gs8lMaxY then height - l else gs8lMaxY)
                   = lines).
  { subst lines. destruct (Z.ltb_spec (height - l) gs8lMaxY); lia. }
  rewrite Hlines.
  assert (Hrange : 1 <= lines <= gs8lMaxY /\ l + lines <= height)
    by (subst lines; unfold gs8lMaxY; lia).
  destruct imgBw_ok as [Hlen Hcap].
  assert (Hhi : (l + lines) * lineWidth <= height * lineWidth)
    by (apply Z.mul_le_mono_nonneg_r; lia).
  assert (Hlo : 0 <= l * lineWidth <= (l + lines) * lineWidth)
    by (split; [apply Z.mul_nonneg_nonneg; lia
               |apply Z.mul_le_mono_nonneg_r; lia]).
  assert (Hadd : int_add l lines = l + lines).
  { apply int_wrap_id. unfold in_int, int_min, int_max in *. lia. }
  assert (Hmul1 : int_mul l lineWidth = l * lineWidth).
  { apply int_wrap_id. unfold in_int, int_min, int_max in *. lia. }
  assert (Hmul2 : int_mul (l + lines) lineWidth = (l + lines) * lineWidth).
  { apply int_wrap_id. unfold in_int, int_min, int_max in *. lia. }
  assert (Hmul3 : int_mul lines lineWidth = lines * lineWidth).
  { apply int_wrap_id. unfold in_int, int_min, int_max in *.
    assert (0 <= lines * lineWidth <= (l + lines) * lineWidth)
      by (split; [apply Z.mul_nonneg_nonneg; lia
                 |apply Z.mul_le_mono_nonneg_r; lia]).
    lia. }
  rewrite Hadd, Hmul1, Hmul2, Hmul3.
  unfold slice_expr.
  replace ((0 <=? l * lineWidth) && (l * lineWidth <=? (l + lines) * lineWidth)
           && ((l + lines) * lineWidth <=? cap imgBw)) with true
    by (symmetry; rewrite !andb_true_iff, !Z.leb_le; lia).
  unfold Write. rewrite !bind_emit. cbn [prn trace].
  f_equal. f_equal.
  rewrite <- !app_assoc. f_equal.
  unfold chunk_events, chunk_frame. cbn [map concat].
  rewrite <- le_bytes_4_wrap, <- !le_bytes_2.
  reflexivity.
Qed.

(** From any row on, with fuel for the rows left, the loop returns and has
    sent the frames of the chunks left. *)
Lemma Raster_graphics_from (fuel : nat) :
  forall (l : Z) (st : World),
    0 <= l <= height ->
    (Z.to_nat (height - l) <= fuel)%nat ->
    Raster_graphics fuel width height lineWidth imgBw l st
    = (Done tt,
       mkWorld (prn st)
         (trace st ++
          chunk_events width lineWidth imgBw
            (chunks_from (chunks_left height l) l height))).
Proof.
  induction fuel as [|fuel IH]; intros l st Hl Hfuel.
  - assert (l = height) as -> by lia.
    rewrite chunks_left_done. cbn. rewrite Z.ltb_irrefl.
    unfold chunk_events. cbn. now rewrite world_trace_nil.
  - destruct (Z.eq_dec l height) as [->|Hne].
    + rewrite chunks_left_done. cbn [Raster_graphics].
      rewrite Z.ltb_irrefl. unfold chunk_events. cbn.
      now rewrite world_trace_nil.
    + rewrite Raster_graphics_turn by lia.
      rewrite IH by (unfold gs8lMaxY; lia).
      rewrite (chunks_left_step height l) by lia.
      cbn [chunks_from prn trace].
      rewrite <- app_assoc. unfold chunk_events. cbn [map concat].
      now rewrite map_app.
Qed.

End RasterGraphics.

(** ** The chunks of an image *)


Lemma chunks_from_length (n : nat) :
  forall l height, length (chunks_from n l height) = n.
Proof. induction n as [|n IH]; intros; cbn; [|rewrite IH]; reflexivity. Qed.

(** While full chunks fit before it, chunk [i] starts [i] full chunks
    behind the first one. *)
Lemma chunks_from_lookup (height : Z) (n : nat) :
  forall (l : Z) (i : nat),
    (i < n)%nat ->
    l + gs8lMaxY * Z.of_nat i <= height ->
    chunks_from n l height !! i
    = Some (l + gs8lMaxY * Z.of_nat i,
            Z.min gs8lMaxY (height - (l + gs8lMaxY * Z.of_nat i))).
Proof.
  induction n as [|n IH]; intros l i Hi Hfit; [lia|].
  destruct i as [|i]; cbn [chunks_from].
  - cbn. now rewrite Z.mul_0_r, Z.add_0_r.
  - change ((?c :: ?cs) !! S i) with (cs !! i).
    unfold gs8lMaxY in *. rewrite Z.min_l by lia.
    rewrite IH by lia. do 2 f_equal; lia.
Qed.

Lemma chunks_left_zero (height l : Z) :
  l <= height -> chunks_left height l = O -> l = height.
Proof.
  unfold chunks_left, gs8lMaxY. intros Hl H0.
  destruct (Z.lt_ge_cases (height - l + (1662 - 1)) 1662) as [Hlt|Hge];
    [lia|].
  assert (1 <= (height - l + (1662 - 1)) / 1662)
    by (apply Z.div_le_lower_bound; lia).
  lia.
Qed.

Lemma chunks_from_total (height : Z) (n : nat) :
  forall l, l <= height -> n = chunks_left height l ->
            total_lines (chunks_from n l height) = height - l.
Proof.
  induction n as [|n IH]; intros l Hl Hn.
  - symmetry in Hn. apply chunks_left_zero in Hn; [|exact Hl].
    subst l. cbn. lia.
  - destruct (Z.eq_dec l height) as [->|Hne].
    + rewrite chunks_left_done in Hn. discriminate.
    + rewrite chunks_left_step in Hn by lia. injection Hn as Hn.
      cbn [chunks_from]. unfold total_lines in *. cbn [map snd fold_right].
      rewrite IH; [lia| unfold gs8lMaxY; lia | exact Hn].
Qed.

Lemma row_chunks_count (height : Z) :
  0 <= height ->
  Z.of_nat (length (row_chunks height)) = (height + 1661) / 1662.
Proof.
  intros Hh. unfold row_chunks. rewrite chunks_from_length.
  unfold gs8lMaxY. rewrite Z2Nat.id; [reflexivity|].
  apply Z.div_pos; lia.
Qed.

(** Chunk [i] of an image is rows [1662 i .. 1662 i + min(1662, rest)). *)
Lemma row_chunks_lookup (height : Z) (i : nat) (l n : Z) :
  0 <= height ->
  row_chunks height !! i = Some (l, n) ->
  l = gs8lMaxY * Z.of_nat i /\ n = Z.min gs8lMaxY (height - l) /\
  0 <= l /\ l < height.
Proof.
  intros Hh Hi.
  assert (Hlt : (i < length (row_chunks height))%nat)
    by (apply lookup_lt_is_Some; eauto).
  assert (Hcount := row_chunks_count height Hh).
  assert (Hfit : gs8lMaxY * Z.of_nat i < height).
  { unfold gs8lMaxY.
    assert (Z.of_nat i + 1 <= (height + 1661) / 1662) by lia.
    assert (1662 * ((height + 1661) / 1662) <= height + 1661)
      by (apply Z.mul_div_le; lia).
    lia. }
  unfold row_chunks in Hi, Hlt. rewrite chunks_from_length in Hlt.
  rewrite chunks_from_lookup in Hi by (try exact Hlt; lia).
  rewrite Z.add_0_l in Hi. injection Hi as <- <-.
  unfold gs8lMaxY in *. repeat split; lia.
Qed.

Lemma row_chunks_total (height : Z) :
  0 <= height -> total_lines (row_chunks height) = height.
Proof.
  intros Hh. unfold row_chunks.
  rewrite chunks_from_total; [lia|exact Hh|].
  unfold chunks_left. now rewrite Z.sub_0_r.
Qed.

(** Every row of the image is in a chunk. *)
Lemma row_chunks_cover (height row : Z) :
  0 <= row < height ->
  exists i l n, row_chunks height !! i = Some (l, n) /\ l <= row < l + n.
Proof.
  intros Hrow.
  set (i := Z.to_nat (row / gs8lMaxY)).
  assert (Hq : 0 <= row / gs8lMaxY) by (apply Z.div_pos; unfold gs8lMaxY; lia).
  assert (Hdm : row = gs8lMaxY * (row / gs8lMaxY) + row mod gs8lMaxY)
    by (apply Z.div_mod; unfold gs8lMaxY; lia).
  assert (Hm : 0 <= row mod gs8lMaxY < gs8lMaxY)
    by (apply Z.mod_pos_bound; unfold gs8lMaxY; lia).
  assert (Hi : Z.of_nat i = row / gs8lMaxY) by (subst i; lia).
  assert (Hn : (i < Z.to_nat ((height + (gs8lMaxY - 1)) / gs8lMaxY))%nat).
  { apply Nat2Z.inj_lt. rewrite Hi, Z2Nat.id
      by (apply Z.div_pos; unfold gs8lMaxY; lia).
    apply Z.div_lt_upper_bound; [unfold gs8lMaxY; lia|].
    assert (height + (gs8lMaxY - 1)
            < gs8lMaxY * ((height + (gs8lMaxY - 1)) / gs8lMaxY) + gs8lMaxY).
    { rewrite (Z.div_mod (height + (gs8lMaxY - 1)) gs8lMaxY) at 1
        by (unfold gs8lMaxY; lia).
      assert (0 <= (height + (gs8lMaxY - 1)) mod gs8lMaxY < gs8lMaxY)
        by (apply Z.mod_pos_bound; unfold gs8lMaxY; lia).
      lia. }
    unfold gs8lMaxY in *. lia. }
  exists i, (0 + gs8lMaxY * Z.of_nat i),
    (Z.min gs8lMaxY (height - (0 + gs8lMaxY * Z.of_nat i))).
  split.
  - unfold row_chunks. apply chunks_from_lookup; [exact Hn|].
    unfold gs8lMaxY in *. lia.
  - unfold gs8lMaxY in *. lia.
Qed.

(** No row is in two chunks. *)
Lemma row_chunks_disjoint (height row : Z) (i j : nat) (l n l' n' : Z) :
  0 <= height ->
  row_chunks height !! i = Some (l, n) -> l <= row < l + n ->
  row_chunks height !! j = Some (l', n') -> l' <= row < l' + n' ->
  i = j.
Proof.
  intros Hh Hi Hr Hj Hr'.
  apply row_chunks_lookup in Hi as (-> & -> & _ & _); [|exact Hh].
  apply row_chunks_lookup in Hj as (-> & -> & _ & _); [|exact Hh].
  unfold gs8lMaxY in *. lia.
Qed.

Lemma row_chunks_2000 : row_chunks 2000 = [(0, 1662); (1662, 338)].
Proof. reflexivity. Qed.

(** ** Raster in graphics mode *)

Lemma omap_EvWrite (ws : list (list Z)) :
  omap (fun e => match e with EvWrite b => Some b | _ => None end)
    (map EvWrite ws) = ws.
Proof. induction ws as [|b ws IH]; cbn; [|rewrite IH]; reflexivity. Qed.

Lemma written_frames (p : Printer) (tr : list Event) (ws : list (list Z)) :
  written (mkWorld p (tr ++ map EvWrite ws)) = written (mkWorld p tr) ++ ws.
Proof. unfold written. cbn [trace]. now rewrite omap_app, omap_EvWrite. Qed.

(** In a list of frames of three writes each, write [j] of frame [i] is at
    position [3 i + j]. *)
Lemma concat_frames_lookup {A : Type} (f : A -> list (list Z)) (cs : list A) :
  (forall c, length (f c) = 3%nat) ->
  forall (i j : nat) (c : A),
    cs !! i = Some c -> (j < 3)%nat ->
    concat (map f cs) !! (3 * i + j)%nat = f c !! j.
Proof.
  intros Hlen. induction cs as [|c0 cs IH]; intros i j c Hi Hj.
  - discriminate.
  - cbn [map concat]. destruct i as [|i].
    + injection Hi as ->. rewrite lookup_app_l; [reflexivity|].
      rewrite Hlen. lia.
    + rewrite lookup_app_r by (rewrite Hlen; lia).
      rewrite Hlen. replace (3 * S i + j - 3)%nat with (3 * i + j)%nat by lia.
      now apply IH.
Qed.

Lemma concat_frames_length {A : Type} (f : A -> list (list Z)) (cs : list A) :
  (forall c, length (f c) = 3%nat) ->
  length (concat (map f cs)) = (3 * length cs)%nat.
Proof.
  intros Hlen. induction cs as [|c cs IH]; [reflexivity|].
  cbn [map concat length]. rewrite length_app, Hlen, IH. lia.
Qed.

(** Raster in graphics mode on an image that holds its rows: it returns, and
    what it did is to send the frames of the image's chunks in order. *)
Lemma Raster_graphics_run (width height lineWidth : Z) (imgBw : Slice)
    (st : World) :
  0 <= height <= int_max ->
  0 <= lineWidth ->
  slice_ok imgBw ->
  height * lineWidth <= cap imgBw ->
  Raster width height lineWidth imgBw "graphics" st
  = (Done tt,
     mkWorld (prn st)
       (trace st ++ chunk_events width lineWidth imgBw (row_chunks height))).
Proof.
  intros Hh Hlw Hok Hrows.
  change (Raster width height lineWidth imgBw "graphics")
    with (Raster_graphics (Z.to_nat height) width height lineWidth imgBw 0).
  rewrite Raster_graphics_from by (try assumption; lia).
  unfold chunks_left, row_chunks. now rewrite Z.sub_0_r.
Qed.

(** The loop of the graphics mode never runs out of the fuel Raster gives
    it, whatever the image: it returns or it panics. *)
Lemma Raster_graphics_fuel (width height lineWidth : Z) (imgBw : Slice)
    (fuel : nat) :
  height <= int_max ->
  forall (l : Z) (st : World),
    0 <= l ->
    (Z.to_nat (height - l) <= fuel)%nat ->
    result (Raster_graphics fuel width height lineWidth imgBw l) st
    <> OutOfFuel.
Proof.
  intros Hh. induction fuel as [|fuel IH]; intros l st Hl Hfuel;
    unfold result; cbn [Raster_graphics];
    destruct (Z.ltb_spec l height) as [Hlt|Hge]; try discriminate; [lia|].
  assert (Hsub : int_sub height l = height - l).
  { apply int_wrap_id. unfold in_int, int_min, int_max in *. lia. }
  rewrite Hsub.
  set (lines := if height - l <? gs8lMaxY then height - l else gs8lMaxY).
  assert (Hlines : 1 <= lines /\ l + lines <= height).
  { subst lines. unfold gs8lMaxY.
    destruct (Z.ltb_spec (height - l) 1662); lia. }
  assert (Hadd : int_add l lines = l + lines).
  { apply int_wrap_id. unfold in_int, int_min, int_max in *. lia. }
  rewrite Hadd. unfold Write. rewrite bind_emit.
  destruct (slice_expr imgBw (int_mul l lineWidth)
              (int_mul (l + lines) lineWidth)) as [rows|];
    [|discriminate].
  rewrite !bind_emit. apply IH; lia.
Qed.

Lemma Raster_returns_or_panics (width height lineWidth : Z) (imgBw : Slice)
    (printingType : string) (st : World) :
  height <= int_max ->
  result (Raster width height lineWidth imgBw printingType) st <> OutOfFuel.
Proof.
  intros Hh. unfold Raster.
  destruct (String.eqb printingType "bitImage"); [discriminate|].
  destruct (String.eqb printingType "graphics"); [|discriminate].
  apply Raster_graphics_fuel; [exact Hh|lia|lia].
Qed.

(** C1. For every height above 0, Raster in graphics mode on an image that
    holds its rows sends the rows in consecutive chunks, in increasing row
    order: ceil(height / 1662) chunks, chunk [i] starting at row [1662 i]
    with [min(1662, remaining)] lines, each with 1 to 1662 lines, each
    starting where the one before ends, the line counts summing to the
    height, and every row of [0, height) in exactly one chunk. *)
Theorem Raster_graphics_partitions_rows (width height lineWidth : Z)
    (imgBw : Slice) (st : World) :
  0 < height <= int_max ->
  0 <= lineWidth ->
  slice_ok imgBw ->
  height * lineWidth <= cap imgBw ->
  let cs := row_chunks height in
  Raster width height lineWidth imgBw "graphics" st
  = (Done tt,
     mkWorld (prn st)
       (trace st ++ chunk_events width lineWidth imgBw cs))
  /\ Z.of_nat (length cs) = (height + 1661) / 1662
  /\ (forall (i : nat) (l n : Z),
        cs !! i = Some (l, n) ->
        l = 1662 * Z.of_nat i /\ n = Z.min 1662 (height - l) /\
        1 <= n <= 1662 /\ 0 <= l /\ l + n <= height)
  /\ (forall (i : nat) (l n l' n' : Z),
        cs !! i = Some (l, n) -> cs !! S i = Some (l', n') -> l' = l + n)
  /\ total_lines cs = height
  /\ (forall row : Z,
        0 <= row < height ->
        exists (i : nat) (l n : Z),
          cs !! i = Some (l, n) /\ l <= row < l + n /\
          forall (j : nat) (l' n' : Z),
            cs !! j = Some (l', n') -> l' <= row < l' + n' -> j = i).
Proof.
  intros Hh Hlw Hok Hrows cs.
  assert (H0 : 0 <= height) by lia.
  split; [apply Raster_graphics_run; (assumption || lia)|].
  split; [apply row_chunks_count; exact H0|].
  split; [|split; [|split]].
  - intros i l n Hi.
    apply row_chunks_lookup in Hi as (Hl & Hn & Hl0 & Hlt); [|exact H0].
    unfold gs8lMaxY in *. lia.
  - intros i l n l' n' Hi Hi'.
    apply row_chunks_lookup in Hi as (Hl & Hn & _ & _); [|exact H0].
    apply row_chunks_lookup in Hi' as (Hl' & _ & _ & Hlt'); [|exact H0].
    unfold gs8lMaxY in *. lia.
  - apply row_chunks_total. exact H0.
  - intros row Hrow.
    destruct (row_chunks_cover height row Hrow) as (i & l & n & Hi & Hin).
    exists i, l, n. repeat split; try tauto.
    intros j l' n' Hj Hin'. symmetry.
    eapply row_chunks_disjoint; eauto.
Qed.


Lemma image_512x2000_ok :
  slice_ok image_512x2000 /\ 2000 * 64 <= cap image_512x2000.
Proof.
  unfold slice_ok, cap, image_512x2000, slice_of. cbn [arr slen].
  rewrite repeat_length. unfold int_max. lia.
Defined.

(** The theorem on the 512 x 2000 image: two chunks, rows [0, 1662) and
    [1662, 2000). *)
Lemma Raster_graphics_partitions_rows_2000 :
  let cs := row_chunks 2000 in
  Raster 512 2000 64 image_512x2000 "graphics" world0
  = (Done tt,
     mkWorld (prn world0)
       (trace world0 ++ chunk_events 512 64 image_512x2000 cs))
  /\ Z.of_nat (length cs) = (2000 + 1661) / 1662
  /\ (forall (i : nat) (l n : Z),
        cs !! i = Some (l, n) ->
        l = 1662 * Z.of_nat i /\ n = Z.min 1662 (2000 - l) /\
        1 <= n <= 1662 /\ 0 <= l /\ l + n <= 2000)
  /\ (forall (i : nat) (l n l' n' : Z),
        cs !! i = Some (l, n) -> cs !! S i = Some (l', n') -> l' = l + n)
  /\ total_lines cs = 2000
  /\ (forall row : Z,
        0 <= row < 2000 ->
        exists (i : nat) (l n : Z),
          cs !! i = Some (l, n) /\ l <= row < l + n /\
          forall (j : nat) (l' n' : Z),
            cs !! j = Some (l', n') -> l' <= row < l' + n' -> j = i).
Proof.
  apply (Raster_graphics_partitions_rows 512 2000 64 image_512x2000 world0).
  - unfold int_max. lia.
  - lia.
  - exact (proj1 image_512x2000_ok).
  - exact (proj2 image_512x2000_ok).
Defined.

(** C2. In graphics mode, for every chunk starting at row [l] with
    [lineCount] lines, Raster writes exactly: the header 1D 38 4C, the four
    little-endian bytes of P = 10 + lineCount * bytesPerLine, 30 70 30,
    01 01, 31, the two little-endian bytes of the width and the two of
    lineCount; then the pixel bytes
    imgBw[l * bytesPerLine .. (l + lineCount) * bytesPerLine), which are
    P - 10 bytes; then the flush command 1D 28 4C 02 00 30 32. These are
    writes 3i, 3i+1, 3i+2 of the call for chunk [i], and the call writes
    nothing else. *)
Theorem Raster_graphics_chunk_bytes (width height lineWidth : Z)
    (imgBw : Slice) (st : World) :
  0 < height <= int_max ->
  0 <= lineWidth ->
  slice_ok imgBw ->
  height * lineWidth <= cap imgBw ->
  let st' := exec (Raster width height lineWidth imgBw "graphics") st in
  result (Raster width height lineWidth imgBw "graphics") st = Done tt /\
  length (written st')
  = (length (written st) + 3 * length (row_chunks height))%nat /\
  forall (i : nat) (l lineCount : Z),
    row_chunks height !! i = Some (l, lineCount) ->
    let P := 10 + lineCount * lineWidth in
    let k := (length (written st) + 3 * i)%nat in
    written st' !! k
    = Some ([0x1D; 0x38; 0x4C] ++ le_bytes 4 P ++
            [0x30; 0x70; 0x30; 0x01; 0x01; 0x31] ++
            le_bytes 2 width ++ le_bytes 2 lineCount) /\
    written st' !! (k + 1)%nat
    = Some (sub_bytes imgBw (l * lineWidth) ((l + lineCount) * lineWidth)) /\
    written st' !! (k + 2)%nat
    = Some [0x1D; 0x28; 0x4C; 0x02; 0x00; 0x30; 0x32] /\
    Z.of_nat (length (sub_bytes imgBw (l * lineWidth)
                        ((l + lineCount) * lineWidth))) = P - 10 /\
    (P < 2 ^ 32 -> le_decode (le_bytes 4 P) = P) /\
    (0 <= width < 2 ^ 16 -> le_decode (le_bytes 2 width) = width) /\
    le_decode (le_bytes 2 lineCount) = lineCount.
Proof.
  intros Hh Hlw Hok Hrows st'.
  assert (Hrun := Raster_graphics_run width height lineWidth imgBw st
                    ltac:(lia) Hlw Hok Hrows).
  assert (Hlen3 : forall c, length (chunk_frame width lineWidth imgBw c) = 3%nat)
    by (intros [l n]; reflexivity).
  assert (Hw : written st'
               = written st ++
                 concat (map (chunk_frame width lineWidth imgBw)
                           (row_chunks height))).
  { subst st'. unfold exec. rewrite Hrun. cbn [snd]. unfold chunk_events.
    rewrite written_frames. now destruct st. }
  split; [unfold result; now rewrite Hrun|].
  split; [rewrite Hw, length_app, concat_frames_length by exact Hlen3; lia|].
  intros i l lineCount Hi P k.
  assert (Hat : forall j, (j < 3)%nat ->
                 written st' !! (k + j)%nat
                 = chunk_frame width lineWidth imgBw (l, lineCount) !! j).
  { intros j Hj. rewrite Hw. subst k.
    rewrite lookup_app_r by lia.
    replace (length (written st) + 3 * i + j - length (written st))%nat
      with (3 * i + j)%nat by lia.
    now apply concat_frames_lookup. }
  apply row_chunks_lookup in Hi as (Hl & Hn & Hl0 & Hlt); [|lia].
  assert (Hn' : 1 <= lineCount <= 1662 /\ l + lineCount <= height)
    by (unfold gs8lMaxY in *; lia).
  assert (Hmul : 0 <= l * lineWidth
                 /\ (l + lineCount) * lineWidth <= height * lineWidth
                 /\ 0 <= lineCount * lineWidth).
  { repeat split; try (apply Z.mul_nonneg_nonneg; lia).
    apply Z.mul_le_mono_nonneg_r; lia. }
  repeat split.
  - rewrite <- (Nat.add_0_r k). rewrite Hat by lia. reflexivity.
  - rewrite Hat by lia. reflexivity.
  - rewrite Hat by lia. reflexivity.
  - unfold sub_bytes. rewrite length_take, length_drop.
    unfold cap in Hrows. subst P. lia.
  - intros HP. rewrite le_decode_bytes. apply Z.mod_small. subst P. lia.
  - intros Hwd. rewrite le_decode_bytes. apply Z.mod_small. lia.
  - rewrite le_decode_bytes. apply Z.mod_small. lia.
Qed.

(** The theorem on the 512 x 2000 image: the second chunk declares 338
    lines. *)
Lemma Raster_graphics_chunk_bytes_2000 :
  let st' := exec (Raster 512 2000 64 image_512x2000 "graphics") world0 in
  result (Raster 512 2000 64 image_512x2000 "graphics") world0 = Done tt /\
  length (written st')
  = (length (written world0) + 3 * length (row_chunks 2000))%nat /\
  forall (i : nat) (l lineCount : Z),
    row_chunks 2000 !! i = Some (l, lineCount) ->
    let P := 10 + lineCount * 64 in
    let k := (length (written world0) + 3 * i)%nat in
    written st' !! k
    = Some ([0x1D; 0x38; 0x4C] ++ le_bytes 4 P ++
            [0x30; 0x70; 0x30; 0x01; 0x01; 0x31] ++
            le_bytes 2 512 ++ le_bytes 2 lineCount) /\
    written st' !! (k + 1)%nat
    = Some (sub_bytes image_512x2000 (l * 64) ((l + lineCount) * 64)) /\
    written st' !! (k + 2)%nat
    = Some [0x1D; 0x28; 0x4C; 0x02; 0x00; 0x30; 0x32] /\
    Z.of_nat (length (sub_bytes image_512x2000 (l * 64)
                        ((l + lineCount) * 64))) = P - 10 /\
    (P < 2 ^ 32 -> le_decode (le_bytes 4 P) = P) /\
    (0 <= 512 < 2 ^ 16 -> le_decode (le_bytes 2 512) = 512) /\
    le_decode (le_bytes 2 lineCount) = lineCount.
Proof.
  apply (Raster_graphics_chunk_bytes 512 2000 64 image_512x2000 world0).
  - unfold int_max. lia.
  - lia.
  - exact (proj1 image_512x2000_ok).
  - exact (proj2 image_512x2000_ok).
Defined.

(** The header of the second chunk of the 512 x 2000 image. *)
Example chunk_frame_2000_second :
  head (chunk_frame 512 64 image_512x2000 (1662, 338))
  = Some [0x1D; 0x38; 0x4C; 0x8A; 0x54; 0x00; 0x00;
          0x30; 0x70; 0x30; 0x01; 0x01; 0x31; 0x00; 0x02; 0x52; 0x01].
Proof. reflexivity. Qed.

(** ** The font size *)

Lemma small_cases (x : Z) :
  1 <= x <= 8 ->
  x = 1 \/ x = 2 \/ x = 3 \/ x = 4 \/ x = 5 \/ x = 6 \/ x = 7 \/ x = 8.
Proof. lia. Qed.

(** The byte SendFontSize formats is below 0x80, so [%c] writes it as it
    is. *)
Lemma font_size_byte (w h : Z) :
  1 <= w <= 8 -> 1 <= h <= 8 ->
  fmt_c (Z.lor (byte_shl (byte_sub w 1) 4) (byte_sub h 1))
  = [Z.lor (Z.shiftl (w - 1) 4) (h - 1)].
Proof.
  intros Hw Hh.
  destruct (small_cases w Hw) as [->|[->|[->|[->|[->|[->|[->| ->]]]]]]];
    destruct (small_cases h Hh) as [->|[->|[->|[->|[->|[->|[->| ->]]]]]]];
    reflexivity.
Qed.

Lemma font_size_guard (w h : Z) :
  (0 <? w) && (0 <? h) && (w <=? 8) && (h <=? 8) = true
  <-> 1 <= w <= 8 /\ 1 <= h <= 8.
Proof. rewrite !andb_true_iff, !Z.ltb_lt, !Z.leb_le. lia. Qed.

(** C4. SetFontSize with both arguments in [1,8] stores them as the font
    width and height and writes the font-size command 1D 21 whose last byte
    is ((width-1) << 4) | (height-1); with an argument outside [1,8] it
    leaves the stored width and height, and the whole printer state, as they
    were and writes nothing to the sink. *)
Theorem SetFontSize_in_and_out_of_range (w h : Z) (st : World) :
  let st' := exec (SetFontSize w h) st in
  (1 <= w <= 8 /\ 1 <= h <= 8 ->
     width (prn st') = w /\ height (prn st') = h /\
     written st'
     = written st ++ [[0x1D; 0x21; Z.lor (Z.shiftl (w - 1) 4) (h - 1)]])
  /\
  (~ (1 <= w <= 8 /\ 1 <= h <= 8) ->
     width (prn st') = width (prn st) /\ height (prn st') = height (prn st) /\
     prn st' = prn st /\ written st' = written st).
Proof.
  intros st'. subst st'. unfold exec, SetFontSize. split.
  - intros Hin. pose proof (proj2 (font_size_guard w h) Hin) as Hg.
    rewrite Hg. destruct Hin as [Hw Hh].
    unfold SendFontSize, Write, mbind, M_bind, modify_prn, get_prn, emit.
    cbn [snd prn trace width height set_width set_height].
    rewrite font_size_byte by assumption.
    unfold written. cbn [trace]. rewrite omap_app. cbn. auto.
  - intros Hout.
    destruct ((0 <? w) && (0 <? h) && (w <=? 8) && (h <=? 8)) eqn:Hg.
    + apply font_size_guard in Hg. contradiction.
    + unfold log_Println, written. cbn. rewrite omap_app. cbn.
      rewrite app_nil_r. auto.
Qed.

(** ** The style setters *)

(** [%c] writes a code point below 0x80 as the byte it is. *)
Lemma fmt_c_ascii (v : Z) : 0 <= v < 128 -> fmt_c v = [v].
Proof.
  intros Hv. unfold fmt_c, utf8_AppendRune, MaxRune, byte_of.
  replace (1114111 <? v) with false by (symmetry; apply Z.ltb_ge; lia).
  replace (v <=? 127) with true by (symmetry; apply Z.leb_le; lia).
  now rewrite Z.mod_small by lia.
Qed.

(** What a toggle setter does: it stores [v] and writes one command frame,
    the two command bytes and [v] as [%c] formats it. *)
Lemma SetUnderline_run (v : Z) (st : World) :
  SetUnderline v st
  = (Done tt, mkWorld (set_underline v (prn st))
                (trace st ++ [EvWrite ([0x1B; 0x2D] ++ fmt_c v)])).
Proof. reflexivity. Qed.

Lemma SetEmphasize_run (v : Z) (st : World) :
  SetEmphasize v st
  = (Done tt, mkWorld (set_emphasize v (prn st))
                (trace st ++ [EvWrite ([0x1B; 0x47] ++ fmt_c v)])).
Proof. reflexivity. Qed.

Lemma SetUpsidedown_run (v : Z) (st : World) :
  SetUpsidedown v st
  = (Done tt, mkWorld (set_upsidedown v (prn st))
                (trace st ++ [EvWrite ([0x1B; 0x7B] ++ fmt_c v)])).
Proof. reflexivity. Qed.

Lemma SetRotate_run (v : Z) (st : World) :
  SetRotate v st
  = (Done tt, mkWorld (set_rotate v (prn st))
                (trace st ++ [EvWrite ([0x1B; 0x52] ++ fmt_c v)])).
Proof. reflexivity. Qed.

Lemma SetReverse_run (v : Z) (st : World) :
  SetReverse v st
  = (Done tt, mkWorld (set_reverse v (prn st))
                (trace st ++ [EvWrite ([0x1D; 0x42] ++ fmt_c v)])).
Proof. reflexivity. Qed.

Lemma SetSmooth_run (v : Z) (st : World) :
  SetSmooth v st
  = (Done tt, mkWorld (set_smooth v (prn st))
                (trace st ++ [EvWrite ([0x1D; 0x62] ++ fmt_c v)])).
Proof. reflexivity. Qed.

Lemma SetFontSize_run (w h : Z) (st : World) :
  SetFontSize w h st
  = if (0 <? w) && (0 <? h) && (w <=? 8) && (h <=? 8)
    then (Done tt,
          mkWorld (set_height h (set_width w (prn st)))
            (trace st ++
             [EvWrite ([0x1D; 0x21] ++
                       fmt_c (Z.lor (byte_shl (byte_sub w 1) 4)
                                (byte_sub h 1)))]))
    else (Done tt,
          mkWorld (prn st)
            (trace st ++ [EvLog [LStr "Invalid font size passed: %d x %d";
                                 LInt w; LInt h]])).
Proof.
  unfold SetFontSize.
  destruct ((0 <? w) && (0 <? h) && (w <=? 8) && (h <=? 8)); reflexivity.
Qed.



(** C8, counterexample. SetUnderline(2) on a new printer stores 2, which is
    no toggle value. *)
Lemma SetUnderline_stores_2 :
  ~ underline_validated 2 world0 /\
  underline (prn world0) = 0 /\
  underline (prn (exec (SetUnderline 2) world0)) = 2.
Proof.
  split; [|split; reflexivity].
  unfold underline_validated, toggle. intros H. apply H; [lia|reflexivity].
Qed.

Lemma drop_app_length' {A : Type} (l k : list A) : drop (length l) (l ++ k) = k.
Proof. induction l as [|x l IH]; [reflexivity|exact IH]. Qed.

(** A computation that stores and sends the same thing whatever the state
    before is idempotent. *)
Lemma idempotent_const (m : M unit) (f : Printer -> Printer)
    (evs : list Event) :
  (forall st, m st = (Done tt, mkWorld (f (prn st)) (trace st ++ evs))) ->
  (forall p, f (f p) = f p) ->
  idempotent m.
Proof.
  intros Hm Hf st. unfold added, exec, result. rewrite !Hm.
  cbn [fst snd prn trace]. rewrite drop_app_length', Hf. auto.
Qed.

(** ** The font size stays in range *)

Section Keeps.

Variable I : Printer -> Prop.

Lemma keeps_ret {A : Type} (a : A) : keeps I (mret a : M A).
Proof. intros st H. exact H. Qed.

Lemma keeps_bind {A B : Type} (m : M A) (k : A -> M B) :
  keeps I m -> (forall a, keeps I (k a)) -> keeps I (m ≫= k).
Proof.
  intros Hm Hk st HI. specialize (Hm st HI).
  unfold exec, mbind, M_bind in *.
  destruct (m st) as [[a| |] st'] eqn:E; cbn [snd] in *.
  - now apply Hk.
  - exact Hm.
  - exact Hm.
Qed.

Lemma keeps_emit (e : Event) : keeps I (emit e).
Proof. intros st H. exact H. Qed.

Lemma keeps_get_prn : keeps I get_prn.
Proof. intros st H. exact H. Qed.

Lemma keeps_panic {A : Type} : keeps I (panic : M A).
Proof. intros st H. exact H. Qed.

Lemma keeps_out_of_fuel {A : Type} : keeps I (out_of_fuel : M A).
Proof. intros st H. exact H. Qed.

Lemma keeps_modify_prn (f : Printer -> Printer) :
  (forall p, I p -> I (f p)) -> keeps I (modify_prn f).
Proof. intros Hf st H. now apply Hf. Qed.

Lemma keeps_intLowHigh_call (n b : Z) : keeps I (intLowHigh_call n b).
Proof. intros st H. exact H. Qed.

End Keeps.

Create HintDb keeps discriminated.
#[export] Hint Resolve keeps_ret keeps_emit keeps_get_prn keeps_panic
  keeps_out_of_fuel keeps_intLowHigh_call : keeps.

(** Takes a computation apart along its binds, conditionals and matches, and
    closes the leaves from the hint base. *)
Ltac keeps_step :=
  match goal with
  | |- keeps _ (_ ≫= _) => apply keeps_bind; [|intros ?]
  | |- keeps _ (if ?b then _ else _) => destruct b
  | |- keeps _ (match ?x with _ => _ end) => destruct x
  | |- keeps _ (or_return _ _) => unfold or_return
  | |- keeps _ (drop_result _) => unfold drop_result
  | |- keeps _ (Write _) => apply keeps_emit
  | |- keeps _ (log_Println _) => apply keeps_emit
  | |- keeps _ _ => solve [auto with keeps]
  end.
Ltac keeps_auto := repeat keeps_step.

Lemma font_ok_set_width (v : Z) (p : Printer) :
  1 <= v <= 8 -> font_ok p -> font_ok (set_width v p).
Proof. unfold font_ok. cbn. tauto. Qed.

Lemma font_ok_set_height (v : Z) (p : Printer) :
  1 <= v <= 8 -> font_ok p -> font_ok (set_height v p).
Proof. unfold font_ok. cbn. tauto. Qed.

Lemma keeps_Reset : keeps font_ok Reset.
Proof.
  intros st _. unfold font_ok, exec, Reset, mbind, M_bind, modify_prn.
  cbn. lia.
Qed.

Lemma keeps_SetFontSize (w h : Z) : keeps font_ok (SetFontSize w h).
Proof.
  unfold SetFontSize.
  destruct ((0 <? w) && (0 <? h) && (w <=? 8) && (h <=? 8)) eqn:Hg.
  - apply font_size_guard in Hg as [Hw Hh]. unfold SendFontSize.
    keeps_auto. apply keeps_modify_prn. intros p Hp.
    apply font_ok_set_height; [exact Hh|].
    apply font_ok_set_width; [exact Hw|exact Hp].
  - keeps_auto.
Qed.

#[export] Hint Resolve keeps_Reset keeps_SetFontSize : keeps.

Lemma keeps_senders :
  keeps font_ok SendFontSize /\ keeps font_ok SendUnderline /\
  keeps font_ok SendEmphasize /\ keeps font_ok SendUpsidedown /\
  keeps font_ok SendRotate /\ keeps font_ok SendReverse /\
  keeps font_ok SendSmooth.
Proof.
  unfold SendFontSize, SendUnderline, SendEmphasize, SendUpsidedown,
    SendRotate, SendReverse, SendSmooth.
  repeat apply conj; keeps_auto.
Qed.

Lemma keeps_toggle_setters (v : Z) :
  keeps font_ok (SetUnderline v) /\ keeps font_ok (SetEmphasize v) /\
  keeps font_ok (SetUpsidedown v) /\ keeps font_ok (SetRotate v) /\
  keeps font_ok (SetReverse v) /\ keeps font_ok (SetSmooth v).
Proof.
  repeat apply conj; intros st H; exact H.
Qed.

Lemma keeps_SetAlign (align : string) : keeps font_ok (SetAlign align).
Proof. unfold SetAlign. keeps_auto. Qed.

Lemma keeps_SetLang (lang : string) : keeps font_ok (SetLang lang).
Proof. unfold SetLang. keeps_auto. Qed.

Lemma keeps_SetFont (font : string) : keeps font_ok (SetFont font).
Proof. unfold SetFont. keeps_auto. Qed.

Lemma keeps_WriteString (s : string) : keeps font_ok (WriteString s).
Proof. intros st H. exact H. Qed.

Lemma keeps_moves (x : Z) :
  keeps font_ok (SendMoveX x) /\ keeps font_ok (SendMoveY x) /\
  keeps font_ok (FormfeedN x).
Proof. repeat apply conj; intros st H; exact H. Qed.

#[export] Hint Resolve keeps_SetAlign keeps_SetLang keeps_SetFont
  keeps_WriteString : keeps.
#[export] Hint Extern 1 (keeps _ (SetUnderline _)) =>
  apply keeps_toggle_setters : keeps.
#[export] Hint Extern 1 (keeps _ (SetEmphasize _)) =>
  apply keeps_toggle_setters : keeps.
#[export] Hint Extern 1 (keeps _ (SetUpsidedown _)) =>
  apply keeps_toggle_setters : keeps.
#[export] Hint Extern 1 (keeps _ (SetRotate _)) =>
  apply keeps_toggle_setters : keeps.
#[export] Hint Extern 1 (keeps _ (SetReverse _)) =>
  apply keeps_toggle_setters : keeps.
#[export] Hint Extern 1 (keeps _ (SetSmooth _)) =>
  apply keeps_toggle_setters : keeps.
#[export] Hint Extern 1 (keeps _ SendFontSize) => apply keeps_senders : keeps.
#[export] Hint Extern 1 (keeps _ SendUnderline) => apply keeps_senders : keeps.
#[export] Hint Extern 1 (keeps _ SendEmphasize) => apply keeps_senders : keeps.
#[export] Hint Extern 1 (keeps _ SendUpsidedown) => apply keeps_senders : keeps.
#[export] Hint Extern 1 (keeps _ SendRotate) => apply keeps_senders : keeps.
#[export] Hint Extern 1 (keeps _ SendReverse) => apply keeps_senders : keeps.
#[export] Hint Extern 1 (keeps _ SendSmooth) => apply keeps_senders : keeps.
#[export] Hint Extern 1 (keeps _ (SendMoveX _)) => apply keeps_moves : keeps.
#[export] Hint Extern 1 (keeps _ (SendMoveY _)) => apply keeps_moves : keeps.
#[export] Hint Extern 1 (keeps _ (FormfeedN _)) => apply keeps_moves : keeps.

Lemma keeps_Text (params : gmap string string) (text : string) :
  keeps font_ok (Text params text).
Proof. unfold Text. keeps_auto. Qed.

Lemma keeps_Feed (params : gmap string string) : keeps font_ok (Feed params).
Proof. unfold Feed, Linefeed. keeps_auto. Qed.

Lemma keeps_Barcode (barcode : string) (format : Z) :
  keeps font_ok (Barcode barcode format).
Proof. unfold Barcode. keeps_auto. Qed.

Lemma keeps_Raster_graphics (width height lineWidth : Z) (imgBw : Slice)
    (fuel : nat) :
  forall l, keeps font_ok (Raster_graphics fuel width height lineWidth imgBw l).
Proof.
  induction fuel as [|fuel IH]; intros l; cbn [Raster_graphics]; keeps_auto.
Qed.

Lemma keeps_Raster (width height lineWidth : Z) (imgBw : Slice)
    (printingType : string) :
  keeps font_ok (Raster width height lineWidth imgBw printingType).
Proof.
  unfold Raster. keeps_auto. apply keeps_Raster_graphics.
Qed.

Lemma keeps_call (c : Call) : keeps font_ok (call c).
Proof.
  destruct c; cbn [call];
    unfold FeedAndCut, Init, End_, Cut, Cash, Linefeed, Formfeed, Pulse;
    keeps_auto;
    auto using keeps_Text, keeps_Feed, keeps_Barcode, keeps_Raster
      with keeps.
Qed.

(** C7. In every printer state reachable from a new printer by any sequence
    of the exported operations, the stored font width and height are both
    within [1,8], so at least 1. *)
Theorem font_size_invariant (st : World) :
  reachable st ->
  1 <= width (prn st) <= 8 /\ 1 <= height (prn st) <= 8.
Proof.
  intros Hreach. change (font_ok (prn st)).
  induction Hreach as [tr st Hnew | st c _ IH].
  - cbn in Hnew. injection Hnew as <-. unfold font_ok. cbn. lia.
  - apply keeps_call. exact IH.
Qed.

(** The theorem after NewPrinter, SetFontSize(2, 3), SetFontSize(9, 0) and a
    Feed. *)
Lemma font_size_invariant_session :
  let st := exec (call (CFeed ∅))
              (exec (call (CSetFontSize 9 0))
                 (exec (call (CSetFontSize 2 3)) world0)) in
  1 <= width (prn st) <= 8 /\ 1 <= height (prn st) <= 8.
Proof.
  apply font_size_invariant.
  do 3 apply reach_call. apply (reach_new []). reflexivity.
Defined.

(** ** Barcode *)





Lemma written_app_events (p : Printer) (tr evs : list Event) :
  written (mkWorld p (tr ++ evs))
  = written (mkWorld p tr) ++ written (mkWorld p evs).
Proof. unfold written. cbn [trace]. apply omap_app. Qed.

Lemma Barcode_run (barcode : string) (format : Z) (st : World) :
  Barcode barcode format st
  = (Done tt,
     mkWorld (mkPrinter 1 1 0 0 0 0 0 0)
       (trace st ++
        [EvWrite align_center] ++
        (if 69 <? format
         then [EvWrite (length_prefixed (Barcode_code format) barcode)]
         else if format <? 69
              then [EvWrite (nul_terminated (Barcode_code format) barcode)]
              else []) ++
        [EvWrite (bytes_of_string barcode)])).
Proof.
  unfold Barcode.
  destruct (69 <? format); [|destruct (format <? 69)];
    unfold Reset, SetAlign, Write, emit, modify_prn;
    unfold mbind, M_bind, mret, M_ret;
    cbn [String.eqb Ascii.eqb Bool.eqb prn trace uint_of fmt_c];
    rewrite <- ?app_assoc; reflexivity.
Qed.

Lemma Barcode_writes (barcode : string) (format : Z) (st : World) :
  writes_of (Barcode barcode format) st
  = [align_center] ++
    (if 69 <? format
     then [length_prefixed (Barcode_code format) barcode]
     else if format <? 69
          then [nul_terminated (Barcode_code format) barcode]
          else []) ++
    [bytes_of_string barcode].
Proof.
  unfold writes_of, exec. rewrite Barcode_run. cbn [snd].
  rewrite written_app_events.
  replace (written (mkWorld (mkPrinter 1 1 0 0 0 0 0 0) (trace st)))
    with (written st) by reflexivity.
  rewrite drop_app_length'.
  destruct (69 <? format); [|destruct (format <? 69)]; reflexivity.
Qed.


(** C5, counterexample. At format 69 the barcode A gets neither framing:
    the only writes are the alignment command and the raw payload. *)
Lemma Barcode_69_no_framing :
  ~ framing_by_threshold "A" 69 world0 /\
  writes_of (Barcode "A" 69) world0 = [[0x1B; 0x61; 0x01]; [0x41]].
Proof.
  split; [|reflexivity].
  intros [_ H]. specialize (H ltac:(lia)).
  apply list_elem_of_In in H. cbn in H.
  destruct H as [H|[H|[]]]; discriminate H.
Qed.

(** C5, amended. For every format and barcode string, Barcode sends the
    length-prefixed frame when the format is above 69 and the NUL-terminated
    frame when it is below 69, one frame in each of these calls, between the
    alignment command and the raw payload; at format 69 it sends neither. *)
Theorem Barcode_framing (barcode : string) (format : Z) (st : World) :
  let code := Barcode_code format in
  let ws := writes_of (Barcode barcode format) st in
  (69 < format ->
     ws = [align_center; length_prefixed code barcode;
           bytes_of_string barcode])
  /\ (format < 69 ->
     ws = [align_center; nul_terminated code barcode;
           bytes_of_string barcode])
  /\ (format = 69 -> ws = [align_center; bytes_of_string barcode]).
Proof.
  intros code ws. subst code ws. rewrite Barcode_writes.
  destruct (Z.ltb_spec 69 format) as [Hgt|Hle].
  - repeat split; intros; (reflexivity || lia).
  - destruct (Z.ltb_spec format 69) as [Hlt|Hge];
      repeat split; intros; (reflexivity || lia).
Qed.

(** C10. For every format below 69, Barcode writes the raw payload twice:
    inside the NUL-terminated command 1D 6B, and again as a write of its own
    right behind that command; at format 69 it writes no framing command,
    only the raw payload. In both cases the alignment command of
    SetAlign("center") comes first. *)
Theorem Barcode_payload_twice (barcode : string) (format : Z) (st : World) :
  let payload := bytes_of_string barcode in
  let ws := writes_of (Barcode barcode format) st in
  (format < 69 ->
     ws = [[0x1B; 0x61; 0x01];
           [0x1d; 0x6b] ++ Barcode_code format ++ payload ++ [0x00];
           payload])
  /\ (format = 69 -> ws = [[0x1B; 0x61; 0x01]; payload]).
Proof.
  intros payload ws. subst payload ws. split; intros Hf.
  - rewrite Barcode_writes.
    case_eq (69 <? format); intros H1; [apply Z.ltb_lt in H1; lia|].
    case_eq (format <? 69); intros H2; [reflexivity|].
    apply Z.ltb_ge in H2. lia.
  - subst format. apply Barcode_writes.
Qed.

(** ** Text and its numeric parameters *)




Lemma quiet_ret {A : Type} (Q : A -> Prop) (a : A) :
  Q a -> quiet Q (mret a : M A).
Proof.
  intros HQ [p tr]. exists a, p, []. cbn. rewrite app_nil_r. auto.
Qed.

Lemma quiet_bind {A B : Type} (P : A -> Prop) (Q : B -> Prop)
    (m : M A) (k : A -> M B) :
  quiet P m -> (forall a, P a -> quiet Q (k a)) -> quiet Q (m ≫= k).
Proof.
  intros Hm Hk st.
  destruct (Hm st) as (a & p1 & evs1 & Em & Hevs1 & HP).
  destruct (Hk a HP (mkWorld p1 (trace st ++ evs1)))
    as (b & p2 & evs2 & Ek & Hevs2 & HQ).
  exists b, p2, (evs1 ++ evs2).
  unfold mbind, M_bind. rewrite Em, Ek. cbn [trace].
  rewrite app_assoc. split; [reflexivity|].
  split; [now apply Forall_app|exact HQ].
Qed.

Lemma quiet_emit (Q : unit -> Prop) (e : Event) :
  no_render e -> Q tt -> quiet Q (emit e).
Proof.
  intros He HQ st. exists tt, (prn st), [e].
  split; [reflexivity|]. split; [now constructor|exact HQ].
Qed.

Lemma quiet_modify_prn (Q : unit -> Prop) (f : Printer -> Printer) :
  Q tt -> quiet Q (modify_prn f).
Proof.
  intros HQ st. exists tt, (f (prn st)), [].
  unfold modify_prn. rewrite app_nil_r. auto.
Qed.

Lemma quiet_get_prn (Q : Printer -> Prop) :
  (forall p, Q p) -> quiet Q get_prn.
Proof.
  intros HQ [p tr]. exists p, p, []. cbn. rewrite app_nil_r. auto.
Qed.

Ltac quiet_step :=
  match goal with
  | |- quiet _ (_ ≫= _) =>
      apply quiet_bind with (P := anything); [|intros ? _]
  | |- quiet _ (if ?b then _ else _) => destruct b
  | |- quiet _ (mret _) => apply quiet_ret; exact I
  | |- quiet _ (Write _) => apply quiet_emit; exact I
  | |- quiet _ (log_Println _) => apply quiet_emit; exact I
  | |- quiet _ (modify_prn _) => apply quiet_modify_prn; exact I
  | |- quiet _ get_prn => apply quiet_get_prn; intros; exact I
  end.
Ltac quiet_auto := repeat quiet_step.

Lemma quiet_SetFontSize (w h : Z) : quiet anything (SetFontSize w h).
Proof. unfold SetFontSize, SendFontSize. quiet_auto. Qed.

Lemma quiet_SetAlign (align : string) : quiet anything (SetAlign align).
Proof. unfold SetAlign. quiet_auto. Qed.

Lemma quiet_SetLang (lang : string) : quiet anything (SetLang lang).
Proof. unfold SetLang. quiet_auto. Qed.

Lemma quiet_SetFont (font : string) : quiet anything (SetFont font).
Proof. unfold SetFont. quiet_auto. Qed.

Lemma quiet_toggles (v : Z) :
  quiet anything (SetSmooth v) /\ quiet anything (SetEmphasize v) /\
  quiet anything (SetUnderline v) /\ quiet anything (SetReverse v) /\
  quiet anything (SetRotate v).
Proof.
  unfold SetSmooth, SetEmphasize, SetUnderline, SetReverse, SetRotate,
    SendSmooth, SendEmphasize, SendUnderline, SendReverse, SendRotate.
  repeat apply conj; quiet_auto.
Qed.

Lemma quiet_moves (x : Z) :
  quiet anything (SendMoveX x) /\ quiet anything (SendMoveY x).
Proof. unfold SendMoveX, SendMoveY. split; quiet_auto. Qed.

Lemma string_slice_font (font : string) :
  (6 <= String.length font)%nat ->
  string_slice font 5 6 = Some (String.substring 5 1 font).
Proof.
  intros Hlen. unfold string_slice.
  replace (6 <=? String.length font)%nat with true
    by (symmetry; apply Nat.leb_le; exact Hlen).
  reflexivity.
Qed.

Ltac quiet_leaf :=
  first [ apply quiet_ret; exact I
        | apply quiet_SetAlign | apply quiet_SetLang | apply quiet_SetFont
        | apply quiet_SetFontSize | apply quiet_toggles | apply quiet_moves
        | apply quiet_get_prn; intros; exact I ].

Ltac quiet_any :=
  repeat first
    [ quiet_leaf
    | match goal with
      | |- quiet _ (_ ≫= _) =>
          apply quiet_bind with (P := anything); [|intros ? _]
      | |- quiet anything (if ?b then _ else _) => destruct b
      | |- quiet anything (match ?x with _ => _ end) => destruct x eqn:?
      end ].

Lemma params_align_width_malformed :
  malformed params_align_width /\ font_sliceable params_align_width.
Proof.
  split.
  - exists "width"%string, "abc"%string, ErrSyntax.
    split; [unfold numeric_keys; apply elem_of_cons; now left|].
    split; reflexivity.
  - intros font Hfont. vm_compute in Hfont. discriminate Hfont.
Defined.

(** C6, counterexample. With align=left and the malformed width abc, Text
    returns the syntax error after the alignment command 1B 61 00 has been
    written to the sink. *)
Lemma Text_writes_before_error :
  malformed params_align_width /\
  ~ aborts_before_any_write params_align_width "hi" world0 /\
  result (Text params_align_width "hi") world0 = Done (Some ErrSyntax) /\
  written (exec (Text params_align_width "hi") world0) = [[0x1B; 0x61; 0x00]].
Proof.
  split; [exact (proj1 params_align_width_malformed)|].
  split; [|split; vm_compute; reflexivity].
  intros (err & _ & Hw). vm_compute in Hw. discriminate Hw.
Qed.

(** With a font value shorter than six bytes Text panics at [font[5:6]]
    before it reaches the numeric parameters. *)
Lemma Text_short_font_panics :
  result (Text {[ "font"%string := "b"%string;
                  "width"%string := "abc"%string ]} "hi") world0 = Panic.
Proof. vm_compute. reflexivity. Qed.

(** * Further properties of the code *)

(** ** intLowHigh outside its documented domain *)

Lemma maxInput_value (outBytes : Z) :
  1 <= outBytes <= 4 ->
  int_shl 256 (uint_sub (uint_of (int_mul outBytes 8)) 1)
  = 2 ^ (8 * outBytes + 7).
Proof.
  intros H.
  assert (outBytes = 1 \/ outBytes = 2 \/ outBytes = 3 \/ outBytes = 4)
    as [->|[->|[->| ->]]] by lia; reflexivity.
Qed.

(** X1. For a byte count from 1 to 4, intLowHigh logs nothing exactly when
    the input is between 0 and 2^(8 outBytes + 7): an input from
    256^outBytes up to that bound is truncated without any diagnostic. *)
Theorem intLowHigh_silent_truncation (inpNumber outBytes : Z) :
  1 <= outBytes <= 4 ->
  (fst (intLowHigh inpNumber outBytes) = []
   <-> 0 <= inpNumber <= 2 ^ (8 * outBytes + 7))
  /\ (256 ^ outBytes <= inpNumber <= 2 ^ (8 * outBytes + 7) ->
      fst (intLowHigh inpNumber outBytes) = [] /\
      le_decode (snd (intLowHigh inpNumber outBytes))
      = inpNumber mod 256 ^ outBytes /\
      le_decode (snd (intLowHigh inpNumber outBytes)) <> inpNumber).
Proof.
  intros Hn.
  assert (Hlog : fst (intLowHigh inpNumber outBytes) = []
                 <-> 0 <= inpNumber <= 2 ^ (8 * outBytes + 7)).
  { unfold intLowHigh. cbn [fst]. rewrite maxInput_value by exact Hn.
    replace ((outBytes <? 1) || (4 <? outBytes)) with false
      by (symmetry; apply orb_false_iff; rewrite Z.ltb_ge, Z.ltb_ge; lia).
    cbn [app].
    destruct (Z.ltb_spec inpNumber 0) as [Hneg|Hpos]; cbn [orb].
    - split; [discriminate|lia].
    - destruct (Z.ltb_spec (2 ^ (8 * outBytes + 7)) inpNumber) as [Hbig|Hfit].
      + split; [discriminate|lia].
      + split; [lia|reflexivity]. }
  split; [exact Hlog|].
  intros [Hlo Hhi].
  assert (Hpow : 0 < 256 ^ outBytes) by (apply Z.pow_pos_nonneg; lia).
  assert (Hmax : 2 ^ (8 * outBytes + 7) <= int_max).
  { assert (outBytes = 1 \/ outBytes = 2 \/ outBytes = 3 \/ outBytes = 4)
      as [->|[->|[->| ->]]] by lia; unfold int_max; lia. }
  assert (Hdec : le_decode (snd (intLowHigh inpNumber outBytes))
                 = inpNumber mod 256 ^ outBytes).
  { unfold intLowHigh. cbn [snd].
    rewrite intLowHigh_loop_digits by lia.
    cbn [app]. rewrite le_decode_bytes. now rewrite Z2Nat.id by lia. }
  split; [apply Hlog; lia|]. split; [exact Hdec|].
  rewrite Hdec.
  assert (inpNumber mod 256 ^ outBytes < 256 ^ outBytes)
    by (apply Z.mod_pos_bound; lia).
  lia.
Qed.

Lemma intLowHigh_silent_truncation_70000 :
  (fst (intLowHigh 70000 2) = [] <-> 0 <= 70000 <= 2 ^ (8 * 2 + 7))
  /\ (256 ^ 2 <= 70000 <= 2 ^ (8 * 2 + 7) ->
      fst (intLowHigh 70000 2) = [] /\
      le_decode (snd (intLowHigh 70000 2)) = 70000 mod 256 ^ 2 /\
      le_decode (snd (intLowHigh 70000 2)) <> 70000).
Proof. apply (intLowHigh_silent_truncation 70000 2). lia. Defined.

(** On an input that is not positive the loop appends, digit by digit, the
    negated digits of the absolute value. *)
Lemma intLowHigh_loop_negative (n : nat) :
  forall inpNumber outp,
    int_min <= inpNumber <= 0 ->
    intLowHigh_loop n inpNumber outp
    = outp ++ negate_bytes (le_bytes n (- inpNumber)).
Proof.
  induction n as [|n IH]; intros inp outp Hin; cbn [intLowHigh_loop].
  - cbn. now rewrite app_nil_r.
  - set (m := - inp). assert (Hm : 0 <= m <= 2 ^ 63)
      by (unfold int_min in Hin; subst m; lia).
    replace inp with (- m) by (subst m; lia).
    unfold int_rem, int_quo, byte_of.
    rewrite Z.rem_opp_l, Z.quot_opp_l by lia.
    rewrite Z.rem_mod_nonneg, Z.quot_div_nonneg by lia.
    assert (Hq : 0 <= m / 256 <= m).
    { split; [apply Z.div_pos; lia|].
      apply Z.div_le_upper_bound; lia. }
    rewrite int_wrap_id by (unfold in_int, int_min, int_max; lia).
    rewrite IH by (unfold int_min; lia).
    rewrite Z.opp_involutive, le_bytes_S, <- app_assoc. reflexivity.
Qed.

(** X2. For a negative input intLowHigh logs the "too large" line and
    returns, byte by byte, the negated base-256 digits of the absolute
    value: this is not the two's-complement encoding (-1 in two bytes is
    FF 00, not FF FF). *)
Theorem intLowHigh_negative (inpNumber outBytes : Z) :
  int_min <= inpNumber < 0 ->
  1 <= outBytes <= 4 ->
  snd (intLowHigh inpNumber outBytes)
  = negate_bytes (le_bytes (Z.to_nat outBytes) (- inpNumber))
  /\ fst (intLowHigh inpNumber outBytes) <> []
  /\ (2 <= outBytes -> -256 < inpNumber ->
      snd (intLowHigh inpNumber outBytes)
      = (256 + inpNumber) :: repeat 0 (Z.to_nat outBytes - 1) /\
      snd (intLowHigh inpNumber outBytes)
      <> le_bytes (Z.to_nat outBytes) inpNumber).
Proof.
  intros Hin Hn.
  assert (Hout : snd (intLowHigh inpNumber outBytes)
                 = negate_bytes (le_bytes (Z.to_nat outBytes) (- inpNumber))).
  { unfold intLowHigh. cbn [snd].
    now rewrite intLowHigh_loop_negative by lia. }
  split; [exact Hout|]. split.
  - unfold intLowHigh. cbn [fst].
    replace ((outBytes <? 1) || (4 <? outBytes)) with false
      by (symmetry; apply orb_false_iff; rewrite Z.ltb_ge, Z.ltb_ge; lia).
    replace (inpNumber <? 0) with true by (symmetry; apply Z.ltb_lt; lia).
    discriminate.
  - intros H2 Hsmall.
    destruct (Z.to_nat outBytes) as [|[|k]] eqn:Ek; try lia.
    assert (Hhead : snd (intLowHigh inpNumber outBytes)
                    = (256 + inpNumber) :: repeat 0 (S k)).
    { rewrite Hout, le_bytes_S. unfold negate_bytes. cbn [map].
      rewrite (Z.mod_small (- inpNumber)) by lia.
      rewrite (Z.div_small (- inpNumber)) by lia.
      rewrite le_bytes_zero, map_repeat. f_equal.
      replace (- - inpNumber) with (inpNumber + 1 * 256 - 256) by lia.
      replace (inpNumber + 1 * 256 - 256) with (256 + inpNumber + (-1) * 256)
        by lia.
      rewrite Z_mod_plus_full. apply Z.mod_small. lia. }
    split.
    + rewrite Hhead. reflexivity.
    + rewrite Hhead, !le_bytes_S. cbn [repeat]. intros Heq.
      injection Heq as _ H1 _.
      replace (inpNumber / 256) with (-1) in H1
        by (apply Z.div_unique with (r := 256 + inpNumber); lia).
      vm_compute in H1. discriminate H1.
Qed.

Lemma intLowHigh_negative_minus_one :
  snd (intLowHigh (-1) 2) = negate_bytes (le_bytes (Z.to_nat 2) (- -1))
  /\ fst (intLowHigh (-1) 2) <> []
  /\ (2 <= 2 -> -256 < -1 ->
      snd (intLowHigh (-1) 2) = (256 + -1) :: repeat 0 (Z.to_nat 2 - 1) /\
      snd (intLowHigh (-1) 2) <> le_bytes (Z.to_nat 2) (-1)).
Proof. apply (intLowHigh_negative (-1) 2); unfold int_min; lia. Defined.

(** X3. intLowHigh does not refuse a byte count outside 1..4: it logs the
    line "Can only output 1-4 bytes" exactly then, and still returns
    max(outBytes, 0) bytes, the low digits of an input that is not negative
    (none at all for a count of 0 or less). *)
Theorem intLowHigh_any_byte_count (inpNumber outBytes : Z) :
  0 <= inpNumber <= int_max ->
  snd (intLowHigh inpNumber outBytes) = le_bytes (Z.to_nat outBytes) inpNumber
  /\ Z.of_nat (length (snd (intLowHigh inpNumber outBytes))) = Z.max 0 outBytes
  /\ (outBytes <= 0 -> snd (intLowHigh inpNumber outBytes) = [])
  /\ (In (EvLog [LStr "Can only output 1-4 bytes"])
        (fst (intLowHigh inpNumber outBytes))
      <-> outBytes < 1 \/ 4 < outBytes).
Proof.
  intros Hin.
  assert (Hout : snd (intLowHigh inpNumber outBytes)
                 = le_bytes (Z.to_nat outBytes) inpNumber).
  { unfold intLowHigh. cbn [snd]. now rewrite intLowHigh_loop_digits. }
  split; [exact Hout|]. split; [rewrite Hout, le_bytes_length; lia|].
  split.
  - intros H0. rewrite Hout. now replace (Z.to_nat outBytes) with O by lia.
  - unfold intLowHigh. cbn [fst].
    destruct (Z.ltb_spec outBytes 1) as [H1|H1];
      destruct (Z.ltb_spec 4 outBytes) as [H4|H4]; cbn [orb app];
      try (split; [intros _; lia|intros _; now left]).
    split; [|lia].
    destruct ((inpNumber <? 0) || (_ <? inpNumber)); cbn [In];
      intros H; repeat destruct H as [H|H]; try discriminate H; try easy.
Qed.

Lemma intLowHigh_any_byte_count_8 :
  snd (intLowHigh 1 8) = le_bytes (Z.to_nat 8) 1
  /\ Z.of_nat (length (snd (intLowHigh 1 8))) = Z.max 0 8
  /\ (8 <= 0 -> snd (intLowHigh 1 8) = [])
  /\ (In (EvLog [LStr "Can only output 1-4 bytes"]) (fst (intLowHigh 1 8))
      <-> 8 < 1 \/ 4 < 8).
Proof. apply (intLowHigh_any_byte_count 1 8). unfold int_max. lia. Defined.

(** ** Raster in bit-image mode *)





(** ** Raster in graphics mode: what reaches the printer *)

Lemma take_take_drop {A : Type} (n m : nat) :
  forall l : list A, take n l ++ take m (drop n l) = take (n + m) l.
Proof.
  induction n as [|n IH]; intros [|x l]; cbn; try reflexivity.
  - now rewrite take_nil.
  - now rewrite IH.
Qed.

Lemma sub_bytes_app (imgBw : Slice) (a b c : Z) :
  0 <= a <= b -> b <= c ->
  sub_bytes imgBw a b ++ sub_bytes imgBw b c = sub_bytes imgBw a c.
Proof.
  intros Hab Hbc. unfold sub_bytes.
  replace (Z.to_nat b) with (Z.to_nat a + Z.to_nat (b - a))%nat by lia.
  rewrite <- drop_drop, take_take_drop. f_equal. lia.
Qed.

Lemma payloads_frames (width lineWidth : Z) (imgBw : Slice)
    (cs : list (Z * Z)) :
  payloads (concat (map (chunk_frame width lineWidth imgBw) cs))
  = map (fun c => sub_bytes imgBw (fst c * lineWidth)
                    ((fst c + snd c) * lineWidth)) cs.
Proof.
  induction cs as [|[l n] cs IH]; [reflexivity|].
  cbn [map concat chunk_frame app payloads fst snd]. now rewrite IH.
Qed.

(** The pixel payloads of the chunks from row [l] on are the bytes of the
    rows from [l] to the last. *)
Lemma chunks_from_pixels (lineWidth height : Z) (imgBw : Slice) (n : nat) :
  0 <= lineWidth ->
  forall l, 0 <= l <= height -> n = chunks_left height l ->
    concat (map (fun c => sub_bytes imgBw (fst c * lineWidth)
                            ((fst c + snd c) * lineWidth))
              (chunks_from n l height))
    = sub_bytes imgBw (l * lineWidth) (height * lineWidth).
Proof.
  intros Hlw. induction n as [|n IH]; intros l Hl Hn.
  - symmetry in Hn. apply chunks_left_zero in Hn; [|lia]. subst l.
    unfold sub_bytes. rewrite Z.sub_diag. reflexivity.
  - destruct (Z.eq_dec l height) as [->|Hne].
    + rewrite chunks_left_done in Hn. discriminate.
    + rewrite chunks_left_step in Hn by lia. injection Hn as Hn.
      cbn [chunks_from map concat fst snd].
      set (lines := Z.min gs8lMaxY (height - l)) in *.
      assert (Hlines : 1 <= lines /\ l + lines <= height)
        by (subst lines; unfold gs8lMaxY; lia).
      rewrite IH by (try exact Hn; lia).
      apply sub_bytes_app.
      * split; [apply Z.mul_nonneg_nonneg; lia|].
        apply Z.mul_le_mono_nonneg_r; lia.
      * apply Z.mul_le_mono_nonneg_r; lia.
Qed.

Lemma frames_total_length (width lineWidth : Z) (imgBw : Slice)
    (cs : list (Z * Z)) :
  length (concat (concat (map (chunk_frame width lineWidth imgBw) cs)))
  = (24 * length cs
     + length (concat (map (fun c => sub_bytes imgBw (fst c * lineWidth)
                                       ((fst c + snd c) * lineWidth)) cs)))%nat.
Proof.
  induction cs as [|[l n] cs IH]; [reflexivity|].
  cbn [map concat chunk_frame fst snd]. rewrite !concat_app, !length_app, IH.
  cbn [concat]. rewrite !length_app, !le_bytes_length. cbn [length]. lia.
Qed.

(** X5. In graphics mode, on an image that holds its rows, the pixel
    payloads of the frames, put together in the order sent, are exactly the
    first height * lineWidth bytes of imgBw: no byte is lost, repeated or
    reordered. All the writes together are that many bytes and 24 more for
    every chunk. *)
Theorem Raster_graphics_sends_all_pixels (width height lineWidth : Z)
    (imgBw : Slice) (st : World) :
  0 <= height <= int_max ->
  0 <= lineWidth ->
  slice_ok imgBw ->
  height * lineWidth <= cap imgBw ->
  let ws := writes_of (Raster width height lineWidth imgBw "graphics") st in
  concat (payloads ws) = take (Z.to_nat (height * lineWidth)) (arr imgBw)
  /\ Z.of_nat (length (concat ws))
     = height * lineWidth + 24 * Z.of_nat (length (row_chunks height)).
Proof.
  intros Hh Hlw Hok Hrows ws.
  assert (Hws : ws = concat (map (chunk_frame width lineWidth imgBw)
                               (row_chunks height))).
  { subst ws. unfold writes_of, exec.
    rewrite Raster_graphics_run by assumption. cbn [snd].
    unfold chunk_events. rewrite written_frames.
    replace (written (mkWorld (prn st) (trace st))) with (written st)
      by reflexivity.
    apply drop_app_length'. }
  assert (Hpix : concat (map (fun c => sub_bytes imgBw (fst c * lineWidth)
                                         ((fst c + snd c) * lineWidth))
                           (row_chunks height))
                 = take (Z.to_nat (height * lineWidth)) (arr imgBw)).
  { unfold row_chunks.
    rewrite chunks_from_pixels
      by (try lia; unfold chunks_left; now rewrite Z.sub_0_r).
    unfold sub_bytes. cbn. now rewrite Z.sub_0_r. }
  rewrite Hws. split.
  - now rewrite payloads_frames.
  - rewrite frames_total_length, Hpix, length_take.
    unfold cap in Hrows.
    assert (0 <= height * lineWidth) by (apply Z.mul_nonneg_nonneg; lia).
    lia.
Qed.

Lemma Raster_graphics_sends_all_pixels_2000 :
  let ws := writes_of (Raster 512 2000 64 image_512x2000 "graphics") world0 in
  concat (payloads ws) = take (Z.to_nat (2000 * 64)) (arr image_512x2000)
  /\ Z.of_nat (length (concat ws))
     = 2000 * 64 + 24 * Z.of_nat (length (row_chunks 2000)).
Proof.
  apply (Raster_graphics_sends_all_pixels 512 2000 64 image_512x2000 world0).
  - unfold int_max. lia.
  - lia.
  - exact (proj1 image_512x2000_ok).
  - exact (proj2 image_512x2000_ok).
Defined.

(** Raster keeps any property of the printer state. *)
Lemma Raster_graphics_keeps (I : Printer -> Prop)
    (width height lineWidth : Z) (imgBw : Slice) (fuel : nat) :
  forall l, keeps I (Raster_graphics fuel width height lineWidth imgBw l).
Proof.
  induction fuel as [|fuel IH]; intros l; cbn [Raster_graphics]; keeps_auto.
Qed.

(** X7. Raster never changes the printer state, in either mode, for any
    image, also when it panics; and it does nothing at all, returning at
    once, for a printing type other than bitImage and graphics, and in
    graphics mode for a height of 0 or less. *)
Theorem Raster_leaves_state (width height lineWidth : Z) (imgBw : Slice)
    (printingType : string) (st : World) :
  prn (exec (Raster width height lineWidth imgBw printingType) st) = prn st
  /\ (printingType <> "bitImage"%string ->
      printingType <> "graphics"%string ->
      Raster width height lineWidth imgBw printingType st = (Done tt, st))
  /\ (height <= 0 ->
      Raster width height lineWidth imgBw "graphics" st = (Done tt, st)).
Proof.
  split; [|split].
  - assert (H : keeps (fun p => p = prn st)
                  (Raster width height lineWidth imgBw printingType)).
    { unfold Raster. keeps_auto. apply Raster_graphics_keeps. }
    now apply H.
  - intros Hb Hg. unfold Raster.
    apply String.eqb_neq in Hb, Hg. now rewrite Hb, Hg.
  - intros Hh.
    change (Raster width height lineWidth imgBw "graphics")
      with (Raster_graphics (Z.to_nat height) width height lineWidth imgBw 0).
    destruct (Z.to_nat height); cbn [Raster_graphics];
      (replace (0 <? height) with false by (symmetry; apply Z.ltb_ge; lia));
      reflexivity.
Qed.

(** ** Feed *)

Lemma writes_of_appended {A : Type} (m : M A) (st : World) (r : Res A)
    (p : Printer) (ws : list (list Z)) :
  m st = (r, mkWorld p (trace st ++ map EvWrite ws)) ->
  writes_of m st = ws.
Proof.
  intros E. unfold writes_of, exec. rewrite E. cbn [snd].
  rewrite written_frames.
  replace (written (mkWorld p (trace st))) with (written st) by reflexivity.
  apply drop_app_length'.
Qed.

Lemma move_bytes (x : Z) :
  0 <= x < 2 ^ 16 ->
  [byte_of (x mod 256); byte_of (x / 256)] = le_bytes 2 x.
Proof.
  intros Hx. unfold le_bytes, byte_of. cbn [seq map].
  change (256 ^ Z.of_nat 0) with 1. change (256 ^ Z.of_nat 1) with 256.
  rewrite Z.div_1_r, Z.mod_mod by lia. reflexivity.
Qed.

Lemma uint16_of_range (i : Z) : 0 <= uint16_of i < 2 ^ 16.
Proof. unfold uint16_of. apply Z.mod_pos_bound. lia. Qed.

(** Runs a computation made of writes and state updates on a world. *)
Ltac run_writes :=
  cbv [or_return FormfeedN Formfeed SendMoveX SendMoveY Linefeed Cut Reset
       SendEmphasize SendRotate SendSmooth SendReverse SendUnderline
       SendUpsidedown SendFontSize Write emit modify_prn get_prn
       mbind M_bind mret M_ret prn trace
       width height underline emphasize upsidedown rotate reverse smooth
       set_width set_height set_underline set_emphasize set_upsidedown
       set_rotate set_reverse set_smooth];
  rewrite <- ?app_assoc; cbn [app].

(** X8. Feed checks line before it writes anything: with a malformed line it
    returns the error and the world is as before. With a malformed unit it
    returns the error after the form feed of a well-formed line, the state
    not reset. Otherwise it returns nil, the state is that of a new printer,
    and it has written the form feed and the move its parameters ask for,
    then a line feed and the eight style commands for the default state,
    the underline command twice. *)
Theorem Feed_outcome (params : gmap string string) (st : World) :
  (forall (l : string) (err : NumError),
      params !! "line"%string = Some l -> Atoi l = inl err ->
      Feed params st = (Done (Some err), st))
  /\ (forall (u : string) (err : NumError),
      well_formed "line" params ->
      params !! "unit"%string = Some u -> Atoi u = inl err ->
      result (Feed params) st = Done (Some err) /\
      prn (exec (Feed params) st) = prn st /\
      writes_of (Feed params) st = feed_line params)
  /\ (well_formed "line" params -> well_formed "unit" params ->
      result (Feed params) st = Done None /\
      prn (exec (Feed params) st) = default_printer /\
      writes_of (Feed params) st
      = feed_line params ++ feed_unit params ++ feed_refresh).
Proof.
  split; [|split].
  - intros l err Hl Ha. unfold Feed. rewrite Hl, Ha. reflexivity.
  - intros u err Hline Hu Ha. unfold feed_line.
    destruct (params !! "line"%string) as [l|] eqn:El.
    + destruct (Hline l El) as [i Hi].
      assert (E : Feed params st
                  = (Done (Some err),
                     mkWorld (prn st)
                       (trace st ++
                        map EvWrite [[0x1B; 0x64] ++ fmt_c (uint_of i)]))).
      { unfold Feed. rewrite El, Hi, Hu, Ha. reflexivity. }
      rewrite Hi. unfold result, exec. rewrite (writes_of_appended _ _ _ _ _ E).
      rewrite E. auto.
    + assert (E : Feed params st = (Done (Some err), st)).
      { unfold Feed. rewrite El, Hu, Ha. reflexivity. }
      unfold writes_of, result, exec. rewrite E. cbn [fst snd].
      rewrite drop_all. auto.
  - intros Hline Hunit. unfold feed_line, feed_unit.
    assert (E : Feed params st
                = (Done None,
                   mkWorld default_printer
                     (trace st ++
                      map EvWrite
                        (feed_line params ++ feed_unit params ++
                         feed_refresh)))).
    { unfold Feed, feed_line, feed_unit.
      destruct (params !! "line"%string) as [l|] eqn:El;
        [destruct (Hline l El) as [i ->]|];
        (destruct (params !! "unit"%string) as [u|] eqn:Eu;
         [destruct (Hunit u Eu) as [j ->];
          rewrite <- (move_bytes _ (uint16_of_range j))|]);
        run_writes; reflexivity. }
    unfold result, exec. rewrite (writes_of_appended _ _ _ _ _ E).
    rewrite E. auto.
Qed.

(** ** Integers formatted with [%c] *)

Lemma fmt_c_multibyte (c : Z) : 128 <= c -> (2 <= length (fmt_c c) <= 4)%nat.
Proof.
  intros Hc. unfold fmt_c.
  destruct (Z.ltb_spec MaxRune c) as [Hbig|Hfit]; [cbn; lia|].
  unfold utf8_AppendRune.
  replace (c <=? 127) with false by (symmetry; apply Z.leb_gt; lia).
  destruct (c <=? 2047); [cbn; lia|].
  destruct ((MaxRune <? c) || ((55296 <=? c) && (c <=? 57343))
            || (c <=? 65535)); cbn; lia.
Qed.

(** X9. FormfeedN sends its count as one byte only for 0 <= n <= 127, where
    the frame is 1B 64 n. For every other count the [%c] verb writes the
    UTF-8 encoding of a code point, two to four bytes, so the frame is
    longer than the three bytes of the command. *)
Theorem FormfeedN_count_byte (n : Z) (st : World) :
  in_int n ->
  (0 <= n <= 127 -> writes_of (FormfeedN n) st = [[0x1B; 0x64; n]])
  /\ (~ 0 <= n <= 127 ->
      exists u : list Z,
        writes_of (FormfeedN n) st = [[0x1B; 0x64] ++ u] /\
        (2 <= length u <= 4)%nat).
Proof.
  intros Hn.
  assert (E : writes_of (FormfeedN n) st = [[0x1B; 0x64] ++ fmt_c (uint_of n)]).
  { apply writes_of_appended with (r := Done tt) (p := prn st). reflexivity. }
  split.
  - intros Hsmall. rewrite E. unfold uint_of.
    rewrite Z.mod_small by lia. now rewrite fmt_c_ascii by lia.
  - intros Hbig. exists (fmt_c (uint_of n)). split; [exact E|].
    apply fmt_c_multibyte. unfold uint_of, in_int, int_min, int_max in *.
    destruct (Z.lt_ge_cases n 0) as [Hneg|Hpos].
    + replace n with (n + 2 ^ 64 + (-1) * 2 ^ 64) by lia.
      rewrite Z_mod_plus_full, Z.mod_small; lia.
    + rewrite Z.mod_small; lia.
Qed.

Lemma FormfeedN_count_byte_200 :
  (0 <= 200 <= 127 -> writes_of (FormfeedN 200) world0 = [[0x1B; 0x64; 200]])
  /\ (~ 0 <= 200 <= 127 ->
      exists u : list Z,
        writes_of (FormfeedN 200) world0 = [[0x1B; 0x64] ++ u] /\
        (2 <= length u <= 4)%nat).
Proof.
  apply (FormfeedN_count_byte 200 world0).
  unfold in_int, int_min, int_max. lia.
Defined.

Lemma fmt_c_high_byte (v : Z) :
  128 <= v <= 255 ->
  fmt_c v = [0xC0 + v / 64; Z.lor 0x80 (Z.land v 0x3F)].
Proof.
  intros Hv. unfold fmt_c, utf8_AppendRune, MaxRune.
  replace (1114111 <? v) with false by (symmetry; apply Z.ltb_ge; lia).
  replace (v <=? 127) with false by (symmetry; apply Z.leb_gt; lia).
  replace (v <=? 2047) with true by (symmetry; apply Z.leb_le; lia).
  unfold byte_of, int_shr. rewrite Z.shiftr_div_pow2 by lia.
  change (2 ^ 6) with 64.
  assert (Hq : v / 64 = 2 \/ v / 64 = 3).
  { assert (2 <= v / 64) by (apply Z.div_le_lower_bound; lia).
    assert (v / 64 < 4) by (apply Z.div_lt_upper_bound; lia). lia. }
  rewrite (Z.mod_small v) by lia.
  destruct Hq as [-> | ->]; reflexivity.
Qed.

(** X10. A toggle setter given a byte from 128 to 255 stores it and writes a
    frame of four bytes, not three: [%c] turns the byte into the two bytes
    of its UTF-8 encoding, so the printer reads C2 or C3 as the argument.
    This holds of each of the six setters. *)
Theorem toggle_setters_high_byte (v : Z) (st : World) :
  128 <= v <= 255 ->
  let u := [0xC0 + v / 64; Z.lor 0x80 (Z.land v 0x3F)] in
  (v / 64 = 2 \/ v / 64 = 3)
  /\ writes_of (SetUnderline v) st = [[0x1B; 0x2D] ++ u]
  /\ writes_of (SetEmphasize v) st = [[0x1B; 0x47] ++ u]
  /\ writes_of (SetUpsidedown v) st = [[0x1B; 0x7B] ++ u]
  /\ writes_of (SetRotate v) st = [[0x1B; 0x52] ++ u]
  /\ writes_of (SetReverse v) st = [[0x1D; 0x42] ++ u]
  /\ writes_of (SetSmooth v) st = [[0x1D; 0x62] ++ u]
  /\ underline (prn (exec (SetUnderline v) st)) = v
  /\ emphasize (prn (exec (SetEmphasize v) st)) = v
  /\ upsidedown (prn (exec (SetUpsidedown v) st)) = v
  /\ rotate (prn (exec (SetRotate v) st)) = v
  /\ reverse (prn (exec (SetReverse v) st)) = v
  /\ smooth (prn (exec (SetSmooth v) st)) = v.
Proof.
  intros Hv u. subst u. rewrite <- (fmt_c_high_byte v Hv).
  split.
  { assert (2 <= v / 64) by (apply Z.div_le_lower_bound; lia).
    assert (v / 64 < 4) by (apply Z.div_lt_upper_bound; lia). lia. }
  repeat apply conj;
    try (eapply writes_of_appended with (r := Done tt); reflexivity);
    reflexivity.
Qed.

Lemma toggle_setters_high_byte_200 :
  let u := [0xC0 + 200 / 64; Z.lor 0x80 (Z.land 200 0x3F)] in
  (200 / 64 = 2 \/ 200 / 64 = 3)
  /\ writes_of (SetUnderline 200) world0 = [[0x1B; 0x2D] ++ u]
  /\ writes_of (SetEmphasize 200) world0 = [[0x1B; 0x47] ++ u]
  /\ writes_of (SetUpsidedown 200) world0 = [[0x1B; 0x7B] ++ u]
  /\ writes_of (SetRotate 200) world0 = [[0x1B; 0x52] ++ u]
  /\ writes_of (SetReverse 200) world0 = [[0x1D; 0x42] ++ u]
  /\ writes_of (SetSmooth 200) world0 = [[0x1D; 0x62] ++ u]
  /\ underline (prn (exec (SetUnderline 200) world0)) = 200
  /\ emphasize (prn (exec (SetEmphasize 200) world0)) = 200
  /\ upsidedown (prn (exec (SetUpsidedown 200) world0)) = 200
  /\ rotate (prn (exec (SetRotate 200) world0)) = 200
  /\ reverse (prn (exec (SetReverse 200) world0)) = 200
  /\ smooth (prn (exec (SetSmooth 200) world0)) = 200.
Proof. apply (toggle_setters_high_byte 200 world0). lia. Defined.

(** ** Text: how it ends *)

Lemma returns_ret {A : Type} (Q : A -> Prop) (a : A) :
  Q a -> returns Q (mret a : M A).
Proof. intros HQ st. exists a, st. auto. Qed.

Lemma returns_bind {A B : Type} (P : A -> Prop) (Q : B -> Prop)
    (m : M A) (k : A -> M B) :
  returns P m -> (forall a, P a -> returns Q (k a)) -> returns Q (m ≫= k).
Proof.
  intros Hm Hk st. destruct (Hm st) as (a & st1 & Em & HP).
  destruct (Hk a HP st1) as (b & st2 & Ek & HQ).
  exists b, st2. unfold mbind, M_bind. rewrite Em. auto.
Qed.

Lemma returns_of_quiet {A : Type} (Q : A -> Prop) (m : M A) :
  quiet Q m -> returns Q m.
Proof.
  intros Hm st. destruct (Hm st) as (a & p' & evs & E & _ & HQ). eauto.
Qed.

Lemma returns_WriteString (s : string) : returns anything (WriteString s).
Proof. intros st. eexists _, _. split; [reflexivity|exact I]. Qed.

Lemma panics_panic {A : Type} : panics (panic : M A).
Proof. intros st. exists st. reflexivity. Qed.

Lemma panics_bind_l {A B : Type} (m : M A) (k : A -> M B) :
  panics m -> panics (m ≫= k).
Proof.
  intros Hm st. destruct (Hm st) as (st' & E). exists st'.
  unfold mbind, M_bind. now rewrite E.
Qed.

Lemma panics_bind_r {A B : Type} (m : M A) (k : A -> M B) :
  returns anything m -> (forall a, panics (k a)) -> panics (m ≫= k).
Proof.
  intros Hm Hk st. destruct (Hm st) as (a & st1 & E & _).
  destruct (Hk a st1) as (st2 & E2). exists st2.
  unfold mbind, M_bind. now rewrite E.
Qed.

Lemma or_return_ok (Q : option NumError -> Prop)
    (m k : M (option NumError)) :
  returns (eq None) m -> returns Q k -> returns Q (or_return m k).
Proof.
  intros Hm Hk. unfold or_return. apply returns_bind with (P := eq None).
  - exact Hm.
  - intros e <-. exact Hk.
Qed.

Lemma or_return_err (err : NumError) (m k : M (option NumError)) :
  returns (eq (Some err)) m -> returns (eq (Some err)) (or_return m k).
Proof.
  intros Hm. unfold or_return.
  apply returns_bind with (P := eq (Some err)).
  - exact Hm.
  - intros e <-. now apply returns_ret.
Qed.

Ltac returns_step :=
  match goal with
  | |- returns _ (_ ≫= _) =>
      apply returns_bind with (P := anything); [|intros ? _]
  | |- returns _ (if ?b then _ else _) => destruct b
  | |- returns _ (mret _) => apply returns_ret; first [exact I|reflexivity]
  | |- returns _ (WriteString _) => apply returns_WriteString
  | |- returns anything (match ?x with _ => _ end) => destruct x eqn:?
  | |- returns anything _ => apply returns_of_quiet; quiet_leaf
  end.
Ltac returns_any := repeat returns_step.

Ltac numeric_step :=
  match goal with
  | |- returns _ (or_return (match ?x with _ => _ end) _) =>
      destruct x eqn:?; cbv beta iota
  | |- returns _ (or_return (mret (Some _)) _) =>
      apply or_return_err; apply returns_ret; reflexivity
  | |- returns _ (or_return _ _) => apply or_return_ok; [returns_any|]
  end.

Lemma Text_returns_first_error (params : gmap string string) (text : string) :
  font_sliceable params ->
  returns (eq (first_error params)) (Text params text).
Proof.
  intros Hfont. unfold Text, first_error, param_error.
  destruct (params !! "font"%string) as [font|] eqn:Efont;
    [rewrite (string_slice_font font (Hfont font Efont))|];
    do 10 (apply returns_bind with (P := anything);
           [returns_any|intros ? _]);
    repeat numeric_step; returns_any.
Qed.

Lemma string_slice_short (font : string) :
  (String.length font < 6)%nat -> string_slice font 5 6 = None.
Proof.
  intros Hlen. unfold string_slice.
  replace (6 <=? String.length font)%nat with false
    by (symmetry; apply Nat.leb_gt; exact Hlen).
  reflexivity.
Qed.

(** X11. How Text ends. When the font value, if there is one, has at least
    six bytes, Text returns, and what it returns is the error of the first
    malformed numeric parameter in the order width, height, x, y, or nil
    when there is none. When the font value is shorter than six bytes, Text
    panics at [font[5:6]], whatever the other parameters are. *)
Theorem Text_outcome (params : gmap string string) (text : string)
    (st : World) :
  (font_sliceable params ->
   result (Text params text) st = Done (first_error params))
  /\ (forall font : string,
        params !! "font"%string = Some font ->
        (String.length font < 6)%nat ->
        result (Text params text) st = Panic).
Proof.
  split.
  - intros Hfont.
    destruct (Text_returns_first_error params text Hfont st)
      as (a & st' & E & <-).
    unfold result. now rewrite E.
  - intros font Efont Hlen.
    assert (H : panics (Text params text)).
    { unfold Text. rewrite Efont, (string_slice_short font Hlen).
      repeat (apply panics_bind_r; [solve [returns_any]|intros ?]).
      apply panics_bind_l, panics_panic. }
    destruct (H st) as (st' & E). unfold result. now rewrite E.
Qed.

(** ** Text: what its parameters do to the state *)

Lemma writes_of_events {A : Type} (m : M A) (st : World) (r : Res A)
    (p : Printer) (evs : list Event) :
  m st = (r, mkWorld p (trace st ++ evs)) ->
  writes_of m st = written (mkWorld p evs).
Proof.
  intros E. unfold writes_of, exec. rewrite E. cbn [snd].
  rewrite written_app_events.
  replace (written (mkWorld p (trace st))) with (written st) by reflexivity.
  apply drop_app_length'.
Qed.

Lemma written_same_trace (p : Printer) (st : World) :
  written (mkWorld p (trace st)) = written st.
Proof. reflexivity. Qed.



Section KeepsAny.

Variable I : Printer -> Prop.

Lemma keeps_any_SetAlign (align : string) : keeps I (SetAlign align).
Proof. unfold SetAlign. keeps_auto. Qed.

Lemma keeps_any_SetLang (lang : string) : keeps I (SetLang lang).
Proof. unfold SetLang. keeps_auto. Qed.

Lemma keeps_any_SetFont (font : string) : keeps I (SetFont font).
Proof. unfold SetFont. keeps_auto. Qed.

Lemma keeps_any_WriteString (s : string) : keeps I (WriteString s).
Proof. intros st H. exact H. Qed.

Lemma keeps_any_SendMove (x : Z) :
  keeps I (SendMoveX x) /\ keeps I (SendMoveY x).
Proof. split; intros st H; exact H. Qed.

End KeepsAny.

Lemma only_switched_on_SetFontSize (p0 : Printer) (w h : Z) :
  keeps (only_switched_on p0) (SetFontSize w h).
Proof.
  intros st H. unfold exec. rewrite SetFontSize_run.
  destruct ((0 <? w) && (0 <? h) && (w <=? 8) && (h <=? 8)); exact H.
Qed.

Lemma only_switched_on_setters (p0 : Printer) :
  keeps (only_switched_on p0) (SetSmooth 1) /\
  keeps (only_switched_on p0) (SetEmphasize 1) /\
  keeps (only_switched_on p0) (SetUnderline 1) /\
  keeps (only_switched_on p0) (SetReverse 1) /\
  keeps (only_switched_on p0) (SetRotate 1).
Proof.
  repeat apply conj; intros st H; unfold only_switched_on in *;
    cbn; tauto.
Qed.

(** X13. Text can switch the toggles smooth, emphasize, underline, reverse
    and rotate on, and it can never switch one off; it never touches the
    upside-down toggle. This holds whatever the parameters are, also when
    Text returns an error or panics. *)
Theorem Text_only_switches_on (params : gmap string string) (text : string)
    (st : World) :
  let p := prn st in
  let p' := prn (exec (Text params text) st) in
  upsidedown p' = upsidedown p /\
  (underline p' = underline p \/ underline p' = 1) /\
  (emphasize p' = emphasize p \/ emphasize p' = 1) /\
  (rotate p' = rotate p \/ rotate p' = 1) /\
  (reverse p' = reverse p \/ reverse p' = 1) /\
  (smooth p' = smooth p \/ smooth p' = 1).
Proof.
  intros p p'. subst p p'.
  assert (H : keeps (only_switched_on (prn st)) (Text params text)).
  { unfold Text. keeps_auto;
      first [ apply keeps_any_SetAlign | apply keeps_any_SetLang
            | apply keeps_any_SetFont | apply only_switched_on_SetFontSize
            | apply only_switched_on_setters
            | apply keeps_any_WriteString | apply keeps_any_SendMove ]. }
  apply H. unfold only_switched_on. tauto.
Qed.

(** ** The text replacer *)

Lemma find_pair_no_amp (c : ascii) (s : string) :
  c <> "&"%char -> find_pair textReplacer (String c s) = None.
Proof.
  intros Hc. unfold textReplacer, str1. cbn [find_pair String.prefix].
  destruct (ascii_dec "&" c) as [Heq|_]; [congruence|reflexivity].
Qed.

Lemma Replace_no_amp (s1 s : string) :
  no_amp s1 ->
  Replace textReplacer 0 (s1 ++ s) = (s1 ++ Replace textReplacer 0 s)%string.
Proof.
  unfold no_amp. induction s1 as [|c s1 IH]; intros H; [reflexivity|].
  cbn [list_ascii_of_string] in H. apply Forall_cons in H as [Hc H].
  change (String c s1 ++ s)%string with (String c (s1 ++ s)).
  cbn [Replace]. rewrite find_pair_no_amp by exact Hc.
  now rewrite IH.
Qed.

Lemma append_empty_r (s : string) : (s ++ "")%string = s.
Proof.
  induction s as [|c s IH]; [reflexivity|].
  change (String c s ++ "")%string with (String c (s ++ "")).
  now rewrite IH.
Qed.

Lemma prefix_append (old s : string) :
  String.prefix old (old ++ s)%string = true.
Proof.
  induction old as [|c old IH]; [now destruct s|].
  change (String c old ++ s)%string with (String c (old ++ s)).
  cbn [String.prefix]. destruct (ascii_dec c c); [exact IH|congruence].
Qed.

Lemma Replace_skip (pairs : list (string * string)) (t s : string) :
  Replace pairs (String.length t) (t ++ s)%string = Replace pairs 0 s.
Proof.
  induction t as [|c t IH]; [reflexivity|].
  change (String c t ++ s)%string with (String c (t ++ s)).
  cbn [String.length Replace]. exact IH.
Qed.

(** A pair found at the head of the text is replaced, and the scan goes on
    behind its old string. *)
Lemma Replace_head (pairs : list (string * string)) (old new s : string) :
  old <> ""%string ->
  find_pair pairs (old ++ s)%string = Some (old, new) ->
  Replace pairs 0 (old ++ s)%string = (new ++ Replace pairs 0 s)%string.
Proof.
  intros Hne Hfind. destruct old as [|c old]; [congruence|].
  change (String c old ++ s)%string with (String c (old ++ s)) in *.
  cbn [Replace]. rewrite Hfind. cbn [String.length Nat.sub].
  now rewrite Nat.sub_0_r, Replace_skip.
Qed.

Ltac decide_prefixes s :=
  repeat match goal with
         | |- context [String.prefix ?a ?b] =>
             first
               [ replace (String.prefix a b) with false
                   by (vm_compute; reflexivity)
               | replace (String.prefix a b) with true
                   by (symmetry; apply (prefix_append a s)) ]
         end.

Lemma find_pair_entity (old new s : string) :
  In (old, new) textReplacer ->
  old <> ""%string /\
  find_pair textReplacer (old ++ s)%string = Some (old, new).
Proof.
  unfold textReplacer at 1. cbn [In]. unfold str1. intros H.
  repeat (destruct H as [H|H];
          [injection H as <- <-; split; [discriminate|];
           unfold textReplacer, str1; cbn [find_pair];
           decide_prefixes s; reflexivity|]).
  contradiction.
Qed.

(** X14. The text replacer works in one pass. Text before the first
    ampersand is copied as it is; an entity of the table at the head of the
    text is replaced by its character, and the scan resumes behind the
    entity, so the character it produced is never read again: [&amp;lt;]
    gives [&lt;], not [<]. *)
Theorem textReplacer_single_pass (s1 s old new : string) :
  (no_amp s1 ->
   Replace textReplacer 0 (s1 ++ s)
   = (s1 ++ Replace textReplacer 0 s)%string)
  /\ (In (old, new) textReplacer ->
      Replace textReplacer 0 (old ++ s)
      = (new ++ Replace textReplacer 0 s)%string)
  /\ (In (old, new) textReplacer -> no_amp s ->
      Replace textReplacer 0 (old ++ s) = (new ++ s)%string).
Proof.
  assert (Hhead : In (old, new) textReplacer ->
                  Replace textReplacer 0 (old ++ s)
                  = (new ++ Replace textReplacer 0 s)%string).
  { intros Hin. destruct (find_pair_entity old new s Hin) as [Hne Hfind].
    now apply Replace_head. }
  assert (Hplain : no_amp s -> Replace textReplacer 0 s = s).
  { intros Hs. pose proof (Replace_no_amp s "" Hs) as H.
    cbn [Replace] in H. now rewrite !append_empty_r in H. }
  split; [apply Replace_no_amp|]. split; [exact Hhead|].
  intros Hin Hs. rewrite Hhead by exact Hin. now rewrite Hplain.
Qed.

(** ** Barcode and the recorded state *)

(** X16. Barcode resets the recorded style state to that of a new printer,
    whatever it was, and sends no style command for it: its writes are the
    alignment command, at most one barcode frame (the length-prefixed one
    above format 69, the NUL-terminated one below 69, none at 69) and the
    payload. A SendFontSize right after it sends size byte 00. *)
Theorem Barcode_forgets_style (barcode : string) (format : Z) (st : World) :
  let st' := exec (Barcode barcode format) st in
  prn st' = default_printer /\
  (exists frame : list (list Z),
      writes_of (Barcode barcode format) st
      = [align_center] ++ frame ++ [bytes_of_string barcode] /\
      (length frame <= 1)%nat) /\
  writes_of SendFontSize st' = [[0x1D; 0x21; 0x00]] /\
  writes_of (Barcode barcode format) st
  = [align_center] ++
    (if 69 <? format
     then [length_prefixed (Barcode_code format) barcode]
     else if format <? 69
          then [nul_terminated (Barcode_code format) barcode]
          else []) ++
    [bytes_of_string barcode].
Proof.
  intros st'. subst st'. unfold exec at 1 2. rewrite Barcode_run.
  cbn [snd prn]. split; [reflexivity|]. split; [|split].
  - rewrite Barcode_writes. eexists. split; [reflexivity|].
    destruct (69 <? format); [|destruct (format <? 69)]; cbn; lia.
  - apply writes_of_appended with (r := Done tt) (p := default_printer).
    reflexivity.
  - apply Barcode_writes.
Qed.

(** ** The rotate command and the language command *)

Lemma writes_of_log_then_write {A : Type} (m : M A) (st : World) (r : Res A)
    (p : Printer) (line : list LogArg) (buf : list Z) :
  m st = (r, mkWorld p ((trace st ++ [EvLog line]) ++ [EvWrite buf])) ->
  writes_of m st = [buf].
Proof.
  intros E. rewrite <- app_assoc in E.
  now rewrite (writes_of_events _ _ _ _ _ E).
Qed.

Ltac lang_case c :=
  exists c; split;
  [lia
  |first [ eapply writes_of_appended with (r := Done tt); reflexivity
         | eapply writes_of_log_then_write with (r := Done tt); reflexivity ]].

Lemma SetLang_writes (lang : string) (st : World) :
  exists c : Z, 0 <= c <= 9 /\ writes_of (SetLang lang) st = [[0x1B; 0x52; c]].
Proof.
  unfold SetLang.
  destruct (String.eqb lang "en"); [lang_case 0|].
  destruct (String.eqb lang "fr"); [lang_case 1|].
  destruct (String.eqb lang "de"); [lang_case 2|].
  destruct (String.eqb lang "uk"); [lang_case 3|].
  destruct (String.eqb lang "da"); [lang_case 4|].
  destruct (String.eqb lang "sv"); [lang_case 5|].
  destruct (String.eqb lang "it"); [lang_case 6|].
  destruct (String.eqb lang "es"); [lang_case 7|].
  destruct (String.eqb lang "ja"); [lang_case 8|].
  destruct (String.eqb lang "no"); [lang_case 9|].
  lang_case 0.
Qed.

(** X17. SetLang and SetRotate send the same command, 1B 52: for every
    language string, SetLang writes a frame 1B 52 c with c from 0 to 9, and
    SetRotate(c) writes the same bytes; so SetRotate(1) is on the wire what
    SetLang("fr") is, and the SendRotate of Feed selects language 0. *)
Theorem SetRotate_is_SetLang (lang : string) (st : World) :
  (exists c : Z,
      0 <= c <= 9 /\
      writes_of (SetLang lang) st = [[0x1B; 0x52; c]] /\
      writes_of (SetRotate c) st = writes_of (SetLang lang) st)
  /\ writes_of (SetRotate 1) st = writes_of (SetLang "fr") st
  /\ writes_of (SetRotate 0) st = writes_of (SetLang "en") st.
Proof.
  assert (Hrot : forall c, 0 <= c <= 9 ->
                   writes_of (SetRotate c) st = [[0x1B; 0x52; c]]).
  { intros c Hc.
    rewrite (writes_of_appended (SetRotate c) st (Done tt)
               (set_rotate c (prn st)) [[0x1B; 0x52] ++ fmt_c c])
      by reflexivity.
    now rewrite fmt_c_ascii by lia. }
  split; [|split].
  - destruct (SetLang_writes lang st) as (c & Hc & Hw).
    exists c. rewrite Hw, Hrot by exact Hc. auto.
  - rewrite Hrot by lia. symmetry.
    now apply writes_of_appended with (r := Done tt) (p := prn st).
  - rewrite Hrot by lia. symmetry.
    now apply writes_of_appended with (r := Done tt) (p := prn st).
Qed.

(** ** gSend and Image *)

Lemma gSend_run (m fn : Z) (data : list Z) (st : World) :
  Z.of_nat (length data) + 2 <= int_max ->
  gSend m fn data st
  = (Done tt,
     mkWorld (prn st)
       (trace st ++
        map EvWrite [[0x1b; 0x28; 0x4c];
                     le_bytes 2 (Z.of_nat (length data) + 2) ++ [m; fn];
                     data])).
Proof.
  intros Hlen. set (l := Z.of_nat (length data) + 2) in *.
  assert (Hl : int_add (Z.of_nat (length data)) 2 = l).
  { apply int_wrap_id. unfold in_int, int_min, int_max in *. lia. }
  assert (Hq : 0 <= l / 256 <= l).
  { split; [apply Z.div_pos; lia|]. apply Z.div_le_upper_bound; lia. }
  unfold gSend. rewrite Hl. unfold int_rem, int_quo, byte_of.
  rewrite Z.rem_mod_nonneg, Z.quot_div_nonneg by lia.
  rewrite int_wrap_id by (unfold in_int, int_min, int_max in *; lia).
  rewrite Z.mod_mod by lia.
  unfold le_bytes. cbn [seq map app].
  change (256 ^ Z.of_nat 0) with 1. change (256 ^ Z.of_nat 1) with 256.
  rewrite Z.div_1_r.
  cbv [mbind M_bind Write emit prn trace]. now rewrite <- !app_assoc.
Qed.

(** X18. gSend writes three buffers: 1B 28 4C; then the length of the data
    plus 2 as two little-endian bytes, followed by m and fn; then the data.
    The two length bytes hold the length only below 65536: for 65534 bytes
    of data or more they hold it modulo 65536. *)
Theorem gSend_frame (m fn : Z) (data : list Z) (st : World) :
  Z.of_nat (length data) + 2 <= int_max ->
  let l := Z.of_nat (length data) + 2 in
  writes_of (gSend m fn data) st
  = [[0x1b; 0x28; 0x4c]; le_bytes 2 l ++ [m; fn]; data]
  /\ prn (exec (gSend m fn data) st) = prn st
  /\ le_decode (le_bytes 2 l) = l mod 2 ^ 16
  /\ (l < 2 ^ 16 <-> le_decode (le_bytes 2 l) = l).
Proof.
  intros Hlen l. pose proof (gSend_run m fn data st Hlen) as E.
  split; [exact (writes_of_appended _ _ _ _ _ E)|].
  split; [unfold exec; now rewrite E|].
  assert (Hdec : le_decode (le_bytes 2 l) = l mod 2 ^ 16)
    by (now rewrite le_decode_bytes).
  split; [exact Hdec|]. rewrite Hdec. split.
  - intros Hfit. apply Z.mod_small. lia.
  - intros Heq. rewrite <- Heq. apply Z.mod_pos_bound. lia.
Qed.

Lemma gSend_frame_3 :
  let l := Z.of_nat (length [1; 2; 3]) + 2 in
  writes_of (gSend 0x30 0x70 [1; 2; 3]) world0
  = [[0x1b; 0x28; 0x4c]; le_bytes 2 l ++ [0x30; 0x70]; [1; 2; 3]]
  /\ prn (exec (gSend 0x30 0x70 [1; 2; 3]) world0) = prn world0
  /\ le_decode (le_bytes 2 l) = l mod 2 ^ 16
  /\ (l < 2 ^ 16 <-> le_decode (le_bytes 2 l) = l).
Proof.
  apply (gSend_frame 0x30 0x70 [1; 2; 3] world0). unfold int_max. cbn. lia.
Defined.

Lemma Image_unfold (D : string -> Z + list Z) (params : gmap string string)
    (data : string) :
  Image D params data
  = (match params !! "align"%string with
     | Some align => SetAlign align | None => mret tt end ;;
     Image_body D params data).
Proof. reflexivity. Qed.

Lemma world_eta (st : World) : mkWorld (prn st) (trace st) = st.
Proof. now destruct st. Qed.

Ltac body_run :=
  cbv [Image_body mbind M_bind mret M_ret log_Println emit prn trace
       default from_option id];
  rewrite <- ?app_assoc; cbn [app].

Lemma Image_body_decoded (D : string -> Z + list Z)
    (params : gmap string string) (data w h : string) (wi hi : Z)
    (st : World) :
  params !! "width"%string = Some w -> Atoi w = inr wi ->
  params !! "height"%string = Some h -> Atoi h = inr hi ->
  match D data with
  | inl offset =>
      Image_body D params data st = (Done (Some (ImageCorruptInput offset)), st)
  | inr dec =>
      Z.of_nat (length dec) + 6 <= int_max ->
      exists line : list LogArg,
        Image_body D params data st
        = (Done None,
           mkWorld (prn st)
             (trace st ++ EvLog line :: map EvWrite (image_frames dec)))
  end.
Proof.
  intros Ew Eaw Eh Eah.
  destruct (D data) as [offset|dec] eqn:Ed.
  - unfold Image_body. rewrite Ew, Eh. cbn [default from_option id].
    rewrite Eaw, Eah, Ed. reflexivity.
  - intros Hlen. eexists.
    unfold Image_body. rewrite Ew, Eh. cbn [default from_option id].
    rewrite Eaw, Eah, Ed.
    assert (H1 : Z.of_nat (length ([48; 1; 1; 49] ++ dec)) + 2 <= int_max)
      by (rewrite length_app; cbn [length]; lia).
    assert (H2 : Z.of_nat (length (@nil Z)) + 2 <= int_max)
      by (unfold int_max; cbn; lia).
    cbv [mbind M_bind mret M_ret log_Println emit].
    rewrite (gSend_run _ _ _ _ H1). rewrite (gSend_run _ _ _ _ H2).
    cbn [prn trace]. rewrite <- !app_assoc. cbn [app map length].
    unfold image_frames. cbn [map].
    replace (Z.of_nat (S (S (S (S (length dec))))) + 2)
      with (Z.of_nat (length dec) + 6) by lia.
    reflexivity.
Qed.

(** The alignment step of Image: it returns, and its writes are
    [image_align]. *)
Lemma Image_align_step (params : gmap string string) (st : World) :
  exists (p1 : Printer) (evs1 : list Event),
    match params !! "align"%string with
    | Some align => SetAlign align | None => mret tt end st
    = (Done tt, mkWorld p1 (trace st ++ evs1)) /\
    written (mkWorld p1 evs1) = image_align params st.
Proof.
  unfold image_align.
  destruct (params !! "align"%string) as [align|].
  - destruct (quiet_SetAlign align st) as ([] & p1 & evs1 & E & _ & _).
    exists p1, evs1. split; [exact E|].
    symmetry. exact (writes_of_events _ _ _ _ _ E).
  - exists (prn st), []. split; [|reflexivity].
    cbn. now rewrite app_nil_r, world_eta.
Qed.

Lemma written_any_printer (p q : Printer) (evs : list Event) :
  written (mkWorld p evs) = written (mkWorld q evs).
Proof. reflexivity. Qed.

(** ** The font parameter of Text *)

Lemma string_slice_sixth (font : string) (c : ascii) :
  String.get 5 font = Some c ->
  string_slice font 5 6 = Some (String c EmptyString).
Proof.
  destruct font as [|a0 [|a1 [|a2 [|a3 [|a4 [|a5 r]]]]]]; try discriminate.
  cbn. intros [= ->]. unfold string_slice. cbn.
  now destruct r.
Qed.

Lemma ToUpper1_letter (c : ascii) :
  let b := byte_of_ascii c in
  String.eqb (ToUpper1 (String c EmptyString)) "A" = (b =? 65) || (b =? 97)
  /\ String.eqb (ToUpper1 (String c EmptyString)) "B" = (b =? 66) || (b =? 98)
  /\ String.eqb (ToUpper1 (String c EmptyString)) "C" = (b =? 67) || (b =? 99).
Proof.
  destruct c as [[] [] [] [] [] [] [] []]; vm_compute; auto.
Qed.

Lemma SetFont_sixth (c : ascii) (st : World) :
  let b := byte_of_ascii c in
  let font := ToUpper1 (String c EmptyString) in
  SetFont font st
  = (Done tt,
     mkWorld (prn st)
       (trace st ++
        (if font_letter b then []
         else [EvLog [LStr "Invalid font: '%s', defaulting to 'A'";
                      LStr font]]) ++
        [EvWrite [0x1B; 0x4D; font_number b]])).
Proof.
  intros b font. subst font.
  destruct (ToUpper1_letter c) as (EA & EB & EC). fold b in EA, EB, EC.
  unfold SetFont, font_letter, font_number. rewrite EA, EB, EC.
  destruct ((b =? 65) || (b =? 97)); [|destruct ((b =? 66) || (b =? 98));
    [|destruct ((b =? 67) || (b =? 99))]];
    cbv [mbind M_bind mret M_ret Write log_Println emit prn trace];
    cbn [orb]; rewrite <- ?app_assoc; reflexivity.
Qed.

(** X20. The font parameter of Text is read at its sixth byte only, without
    regard to case: a value with b or B there selects font 1, with c or C
    font 2, and with any other byte font 0, whatever the first five bytes
    and the bytes behind the sixth are. A byte that is none of the six
    letters adds the "Invalid font" line to the log. The printer state is
    unchanged. *)
Theorem Text_font_sixth_byte (params : gmap string string) (font : string)
    (c : ascii) (st : World) :
  Forall (fun k => params !! k = None) keys_but_font ->
  params !! "font"%string = Some font ->
  String.get 5 font = Some c ->
  let b := byte_of_ascii c in
  result (Text params "") st = Done None
  /\ prn (exec (Text params "") st) = prn st
  /\ writes_of (Text params "") st = [[0x1B; 0x4D; font_number b]]
  /\ (font_letter b = true <->
      Forall (fun e => exists buf, e = EvWrite buf)
        (added (Text params "") st)).
Proof.
  intros Hnone Hlook Hget b.
  assert (E : Text params "" st
              = (Done None,
                 exec (SetFont (ToUpper1 (String c EmptyString))) st)).
  { unfold keys_but_font in Hnone.
    repeat match goal with
           | H : Forall _ (_ :: _) |- _ => apply Forall_cons in H as [? H]
           end.
    unfold Text.
    repeat match goal with
           | H : params !! _ = None |- _ => rewrite H; clear H
           end.
    rewrite Hlook, (string_slice_sixth font c Hget).
    unfold exec. rewrite SetFont_sixth.
    cbv [or_return mbind M_bind mret M_ret].
    rewrite SetFont_sixth. reflexivity. }
  unfold writes_of, added, result, exec. rewrite E. cbn [fst snd].
  unfold exec. rewrite SetFont_sixth. cbn [snd prn trace]. fold b.
  split; [reflexivity|]. split; [reflexivity|]. split.
  - rewrite written_app_events, written_same_trace, drop_app_length'.
    destruct (font_letter b); reflexivity.
  - rewrite drop_app_length'.
    destruct (font_letter b); split; intros H; try reflexivity.
    + repeat constructor. eauto.
    + discriminate.
    + apply Forall_cons in H as [[buf Hbuf] _]. discriminate.
Qed.

Lemma Text_font_sixth_byte_xxxxxb :
  writes_of (Text {[ "font"%string := "xxxxxb"%string ]} "") world0
  = [[0x1B; 0x4D; 1]].
Proof.
  refine (proj1 (proj2 (proj2
    (Text_font_sixth_byte {[ "font"%string := "xxxxxb"%string ]}
       "xxxxxb" "b"%char world0 _ _ _)))).
  - unfold keys_but_font. repeat constructor.
  - reflexivity.
  - reflexivity.
Defined.

(** ** WriteNode *)

Lemma length_append (s t : string) :
  String.length (s ++ t) = (String.length s + String.length t)%nat.
Proof.
  induction s as [|c s IH]; [reflexivity|].
  change (S (String.length (s ++ t))
          = S (String.length s + String.length t)).
  now rewrite IH.
Qed.

Lemma length_substring_le (n : nat) (s : string) :
  (String.length (substring 0 n s) <= n)%nat.
Proof.
  revert s. induction n as [|n IH]; intros [|c s]; cbn; try lia.
  specialize (IH s). lia.
Qed.

Lemma WriteNode_cstr_run (data : string) (st : World) :
  exists cstr : string,
    WriteNode_cstr data st = (Done cstr, st) /\
    (String.length cstr <= 51)%nat /\
    (data = ""%string -> cstr = ""%string) /\
    (data <> ""%string -> (String.length data <= 40)%nat ->
     cstr = (" => '" ++ data ++ "'")%string).
Proof.
  unfold WriteNode_cstr.
  destruct (String.eqb data "") eqn:Edata; cbn [negb].
  - apply String.eqb_eq in Edata. exists ""%string.
    split; [reflexivity|]. split; [cbn; lia|]. split; [reflexivity|].
    intros H. contradiction.
  - apply eqb_neq in Edata.
    destruct (40 <? String.length data)%nat eqn:Elen.
    + apply Nat.ltb_lt in Elen. unfold string_slice.
      replace (40 <=? String.length data)%nat with true
        by (symmetry; apply Nat.leb_le; lia).
      cbn [Nat.leb andb Nat.sub].
      exists (" => '" ++ (substring 0 40 data ++ " ...") ++ "'")%string.
      split; [reflexivity|]. split.
      * rewrite !length_append.
        pose proof (length_substring_le 40 data). cbn. lia.
      * split; [intros H; contradiction|]. intros _ H. lia.
    + apply Nat.ltb_ge in Elen.
      exists (" => '" ++ data ++ "'")%string.
      split; [reflexivity|]. split.
      * rewrite !length_append. cbn. lia.
      * split; [intros H; contradiction|]. reflexivity.
Qed.

Ltac returns_leaf :=
  let st := fresh "st" in
  intros st; eexists _, _; split; [reflexivity|exact I].

Ltac returns_all :=
  repeat match goal with
         | |- returns _ (_ ≫= _) =>
             apply returns_bind with (P := anything); [|intros ? _]
         | |- returns _ (if ?b then _ else _) => destruct b
         | |- returns _ (match ?x with _ => _ end) => destruct x
         | |- returns _ (mret _) => apply returns_ret; exact I
         | |- returns _ _ => returns_leaf
         end.

Lemma returns_Feed (params : gmap string string) :
  returns anything (Feed params).
Proof. unfold Feed, or_return. returns_all. Qed.

Lemma returns_Image (D : string -> Z + list Z) (params : gmap string string)
    (data : string) :
  returns anything (Image D params data).
Proof.
  unfold Image, gSend. returns_all.
  all: apply returns_of_quiet, quiet_SetAlign.
Qed.

Lemma returns_FeedAndCut (params : gmap string string) :
  returns anything (FeedAndCut params).
Proof. unfold FeedAndCut. returns_all. Qed.

Lemma returns_WriteNode_cstr (data : string) :
  returns anything (WriteNode_cstr data).
Proof.
  intros st. destruct (WriteNode_cstr_run data st) as (cstr & E & _).
  exists cstr, st. split; [exact E|exact I].
Qed.

Lemma returns_weaken {A : Type} (Q : A -> Prop) (m : M A) :
  returns Q m -> returns anything m.
Proof.
  intros H st. destruct (H st) as (a & st' & E & _). exists a, st'.
  split; [exact E|exact I].
Qed.

Lemma panics_Text (params : gmap string string) (text font : string) :
  params !! "font"%string = Some font ->
  (String.length font < 6)%nat ->
  panics (Text params text).
Proof.
  intros Efont Hlen. unfold Text.
  rewrite Efont, (string_slice_short font Hlen).
  repeat (apply panics_bind_r; [solve [returns_any]|intros ?]).
  apply panics_bind_l, panics_panic.
Qed.

Lemma keeps_any_WriteNode_cstr (I : Printer -> Prop) (data : string) :
  keeps I (WriteNode_cstr data).
Proof. unfold WriteNode_cstr. keeps_auto. Qed.

Lemma keeps_any_Image (I : Printer -> Prop) (D : string -> Z + list Z)
    (params : gmap string string) (data : string) :
  keeps I (Image D params data).
Proof. unfold Image, gSend. keeps_auto. apply keeps_any_SetAlign. Qed.

(** X21. WriteNode reports nothing to its caller: it returns normally
    whenever the operation it dispatches to returns, also when Text, Feed or
    Image returned an error, and it panics only for a text node whose font
    value is shorter than six bytes. A node name other than text, feed, cut,
    pulse and image adds its log line and nothing else. The data excerpt of
    the log line is at most 51 bytes, and the slice [data[0:40]] never
    panics. No node but text and feed changes the printer state. *)
Theorem WriteNode_outcome (fmt_map : gmap string string -> string)
    (D : string -> Z + list Z) (name : string)
    (params : gmap string string) (data : string) (st : World) :
  let node := WriteNode fmt_map D name params data in
  (name <> "text"%string \/ font_sliceable params ->
   result node st = Done tt)
  /\ (forall font : string,
        name = "text"%string ->
        params !! "font"%string = Some font ->
        (String.length font < 6)%nat ->
        result node st = Panic)
  /\ (~ In name ["text"; "feed"; "cut"; "pulse"; "image"]%string ->
      exists cstr : string,
        (String.length cstr <= 51)%nat /\
        node st
        = (Done tt,
           mkWorld (prn st)
             (trace st ++
              [EvLog [LStr ("Write: %s => %+v%s" ++ str1 10); LStr name;
                      LStr (fmt_map params); LStr cstr]])))
  /\ (name <> "text"%string -> name <> "feed"%string ->
      prn (exec node st) = prn st).
Proof.
  intros node. subst node. split; [|split; [|split]].
  - intros Hok.
    assert (H : returns anything (WriteNode fmt_map D name params data)).
    { unfold WriteNode, drop_result.
      apply returns_bind with (P := anything);
        [apply returns_WriteNode_cstr|intros cstr _].
      apply returns_bind with (P := anything); [returns_leaf|intros _ _].
      destruct (String.eqb name "text") eqn:Etext.
      { apply String.eqb_eq in Etext.
        destruct Hok as [Hne|Hfont]; [contradiction|].
        apply returns_bind with (P := anything);
          [|intros ? _; apply returns_ret; exact I].
        exact (returns_weaken _ _
                 (Text_returns_first_error params data Hfont)). }
      destruct (String.eqb name "feed");
        [apply returns_bind with (P := anything);
           [apply returns_Feed|intros ? _; apply returns_ret; exact I]|].
      destruct (String.eqb name "cut"); [apply returns_FeedAndCut|].
      destruct (String.eqb name "pulse"); [returns_leaf|].
      destruct (String.eqb name "image");
        [apply returns_bind with (P := anything);
           [apply returns_Image|intros ? _; apply returns_ret; exact I]|].
      apply returns_ret; exact I. }
    destruct (H st) as ([] & st' & E & _). unfold result. now rewrite E.
  - intros font -> Efont Hlen.
    assert (H : panics (WriteNode fmt_map D "text" params data)).
    { unfold WriteNode, drop_result.
      apply panics_bind_r; [apply returns_WriteNode_cstr|intros cstr].
      apply panics_bind_r; [returns_leaf|intros _].
      cbn [String.eqb Ascii.eqb Bool.eqb].
      apply panics_bind_l. exact (panics_Text params data font Efont Hlen). }
    destruct (H st) as (st' & E). unfold result. now rewrite E.
  - intros Hname.
    destruct (WriteNode_cstr_run data st) as (cstr & E & Hlen & _).
    exists cstr. split; [exact Hlen|].
    unfold WriteNode. unfold mbind at 1. unfold M_bind at 1. rewrite E.
    repeat match goal with
           | |- context [String.eqb name ?s] =>
               replace (String.eqb name s) with false
                 by (symmetry; apply eqb_neq; intros ->; apply Hname;
                     cbn; tauto)
           end.
    reflexivity.
  - intros Htext Hfeed.
    assert (H : keeps (fun p => p = prn st)
                  (WriteNode fmt_map D name params data)).
    { unfold WriteNode, drop_result.
      apply keeps_bind; [apply keeps_any_WriteNode_cstr|intros cstr].
      apply keeps_bind; [apply keeps_emit|intros _].
      destruct (String.eqb name "text") eqn:Etext;
        [apply String.eqb_eq in Etext; contradiction|].
      destruct (String.eqb name "feed") eqn:Efeed;
        [apply String.eqb_eq in Efeed; contradiction|].
      destruct (String.eqb name "cut");
        [unfold FeedAndCut, Formfeed, FormfeedN, Cut; keeps_auto|].
      destruct (String.eqb name "pulse"); [apply keeps_emit|].
      destruct (String.eqb name "image");
        [apply keeps_bind; [apply keeps_any_Image|intros ?; apply keeps_ret]|].
      apply keeps_ret. }
    now apply H.
Qed.

(** X22. The size invariant of the printer state holds through the graphics
    commands and the dispatch as well: from a state whose width and height
    are both in 1..8, gSend, Image and WriteNode, for every node name, leave
    a state whose width and height are both in 1..8, also when WriteNode
    panics inside Text. *)
Theorem font_size_invariant_dispatch (fmt_map : gmap string string -> string)
    (D : string -> Z + list Z) (name : string)
    (params : gmap string string) (data : string) (m fn : Z)
    (buf : list Z) :
  keeps font_ok (gSend m fn buf)
  /\ keeps font_ok (Image D params data)
  /\ keeps font_ok (WriteNode fmt_map D name params data).
Proof.
  split; [unfold gSend; keeps_auto|].
  split; [apply keeps_any_Image|].
  unfold WriteNode, drop_result.
  apply keeps_bind; [apply keeps_any_WriteNode_cstr|intros cstr].
  apply keeps_bind; [apply keeps_emit|intros _].
  destruct (String.eqb name "text");
    [apply keeps_bind; [apply keeps_Text|intros ?; apply keeps_ret]|].
  destruct (String.eqb name "feed");
    [apply keeps_bind; [apply keeps_Feed|intros ?; apply keeps_ret]|].
  destruct (String.eqb name "cut");
    [unfold FeedAndCut, Formfeed, FormfeedN, Cut; keeps_auto|].
  destruct (String.eqb name "pulse"); [apply keeps_emit|].
  destruct (String.eqb name "image");
    [apply keeps_bind; [apply keeps_any_Image|intros ?; apply keeps_ret]|].
  apply keeps_ret.
Qed.

(** * The parameters of Text, the setters, and the failing runs *)

(** ** Text, parameter by parameter *)

Lemma ends_in_done (last : M (option NumError)) :
  ends_in last last params_done.
Proof.
  intros p tr. exists []. split; [constructor|]. split; [reflexivity|].
  cbn. now rewrite app_nil_r.
Qed.

Lemma ends_in_after (last : M (option NumError)) (m : M unit)
    (k : M (option NumError)) (s : Step) (e : Ending) :
  handles m s -> ends_in last k e -> ends_in last (m ≫= fun _ => k) (after s e).
Proof.
  intros Hm Hk p tr.
  destruct (Hm p tr) as (evs1 & E1 & Hq1 & Hw1).
  unfold after. destruct (s p) as [p1 w1] eqn:Es. cbn [fst snd] in *.
  destruct (Hk p1 (tr ++ evs1)) as (evs2 & Hq2 & Hw2 & E2).
  destruct (e p1) as [err [p2 w2]] eqn:Ee. cbn [fst snd] in *.
  exists (evs1 ++ evs2).
  split; [now apply Forall_app|].
  split; [rewrite written_app_events; now f_equal|].
  unfold mbind, M_bind. rewrite E1. rewrite app_assoc.
  destruct err; exact E2.
Qed.

Lemma ends_in_or_else (last m k : M (option NumError)) (s e : Ending) :
  decides m s -> ends_in last k e -> ends_in last (or_return m k) (or_else s e).
Proof.
  intros Hm Hk p tr.
  destruct (Hm p tr) as (evs1 & E1 & Hq1 & Hw1).
  unfold or_else. destruct (s p) as [err1 [p1 w1]] eqn:Es.
  cbn [fst snd] in *.
  destruct err1 as [err1|].
  - exists evs1. split; [exact Hq1|]. split; [exact Hw1|].
    cbn [fst snd]. unfold or_return, mbind, M_bind. now rewrite E1.
  - destruct (Hk p1 (tr ++ evs1)) as (evs2 & Hq2 & Hw2 & E2).
    destruct (e p1) as [err [p2 w2]] eqn:Ee. cbn [fst snd] in *.
    exists (evs1 ++ evs2).
    split; [now apply Forall_app|].
    split; [rewrite written_app_events; now f_equal|].
    unfold or_return, mbind, M_bind. rewrite E1. rewrite app_assoc.
    destruct err; exact E2.
Qed.

(** A handler that does nothing. *)
Ltac handled_nothing :=
  exists []; cbn [fst snd];
  split; [cbn; now rewrite app_nil_r|split; [constructor|reflexivity]].

(** A handler that adds the events [evs]. *)
Ltac handled evs :=
  exists evs; cbn [fst snd];
  split;
    [cbv [mbind M_bind mret M_ret Write log_Println emit prn trace];
     rewrite <- ?app_assoc; reflexivity
    |split; [repeat constructor|reflexivity]].

Lemma handles_align (params : gmap string string) :
  handles match params !! "align"%string with
          | Some align => SetAlign align | None => mret tt end
    (align_step params).
Proof.
  intros p tr. unfold align_step.
  destruct (params !! "align"%string) as [align|]; [|handled_nothing].
  unfold SetAlign, align_code.
  destruct (String.eqb align "left");
    [handled [EvWrite [0x1B; 0x61; 0]]|].
  destruct (String.eqb align "center");
    [handled [EvWrite [0x1B; 0x61; 1]]|].
  destruct (String.eqb align "right");
    [handled [EvWrite [0x1B; 0x61; 2]]|].
  handled [EvLog [LStr "Invalid alignment: %s"; LStr align];
           EvWrite [0x1B; 0x61; 0]].
Qed.

Lemma handles_lang (params : gmap string string) :
  handles match params !! "lang"%string with
          | Some lang => SetLang lang | None => mret tt end
    (lang_step params).
Proof.
  intros p tr. unfold lang_step.
  destruct (params !! "lang"%string) as [lang|]; [|handled_nothing].
  unfold SetLang, lang_code.
  destruct (String.eqb lang "en"); [handled [EvWrite [0x1B; 0x52; 0]]|].
  destruct (String.eqb lang "fr"); [handled [EvWrite [0x1B; 0x52; 1]]|].
  destruct (String.eqb lang "de"); [handled [EvWrite [0x1B; 0x52; 2]]|].
  destruct (String.eqb lang "uk"); [handled [EvWrite [0x1B; 0x52; 3]]|].
  destruct (String.eqb lang "da"); [handled [EvWrite [0x1B; 0x52; 4]]|].
  destruct (String.eqb lang "sv"); [handled [EvWrite [0x1B; 0x52; 5]]|].
  destruct (String.eqb lang "it"); [handled [EvWrite [0x1B; 0x52; 6]]|].
  destruct (String.eqb lang "es"); [handled [EvWrite [0x1B; 0x52; 7]]|].
  destruct (String.eqb lang "ja"); [handled [EvWrite [0x1B; 0x52; 8]]|].
  destruct (String.eqb lang "no"); [handled [EvWrite [0x1B; 0x52; 9]]|].
  handled [EvLog [LStr "Invalid language: %s"; LStr lang];
           EvWrite [0x1B; 0x52; 0]].
Qed.

Lemma handles_smooth (params : gmap string string) :
  handles match params !! "smooth"%string with
          | Some smooth => if is_on smooth then SetSmooth 1 else mret tt
          | None => mret tt end
    (toggle_step "smooth" set_smooth [0x1D; 0x62] params).
Proof.
  intros p tr. unfold toggle_step.
  destruct (params !! "smooth"%string) as [v|]; [|handled_nothing].
  destruct (is_on v); [|handled_nothing].
  handled [EvWrite [0x1D; 0x62; 1]].
Qed.

Lemma handles_em (params : gmap string string) :
  handles match params !! "em"%string with
          | Some em => if is_on em then SetEmphasize 1 else mret tt
          | None => mret tt end
    (toggle_step "em" set_emphasize [0x1B; 0x47] params).
Proof.
  intros p tr. unfold toggle_step.
  destruct (params !! "em"%string) as [v|]; [|handled_nothing].
  destruct (is_on v); [|handled_nothing].
  handled [EvWrite [0x1B; 0x47; 1]].
Qed.

Lemma handles_ul (params : gmap string string) :
  handles match params !! "ul"%string with
          | Some ul => if is_on ul then SetUnderline 1 else mret tt
          | None => mret tt end
    (toggle_step "ul" set_underline [0x1B; 0x2D] params).
Proof.
  intros p tr. unfold toggle_step.
  destruct (params !! "ul"%string) as [v|]; [|handled_nothing].
  destruct (is_on v); [|handled_nothing].
  handled [EvWrite [0x1B; 0x2D; 1]].
Qed.

Lemma handles_reverse (params : gmap string string) :
  handles match params !! "reverse"%string with
          | Some reverse => if is_on reverse then SetReverse 1 else mret tt
          | None => mret tt end
    (toggle_step "reverse" set_reverse [0x1D; 0x42] params).
Proof.
  intros p tr. unfold toggle_step.
  destruct (params !! "reverse"%string) as [v|]; [|handled_nothing].
  destruct (is_on v); [|handled_nothing].
  handled [EvWrite [0x1D; 0x42; 1]].
Qed.

Lemma handles_rotate (params : gmap string string) :
  handles match params !! "rotate"%string with
          | Some rotate => if is_on rotate then SetRotate 1 else mret tt
          | None => mret tt end
    (toggle_step "rotate" set_rotate [0x1B; 0x52] params).
Proof.
  intros p tr. unfold toggle_step.
  destruct (params !! "rotate"%string) as [v|]; [|handled_nothing].
  destruct (is_on v); [|handled_nothing].
  handled [EvWrite [0x1B; 0x52; 1]].
Qed.

Lemma get_sixth (font : string) :
  (6 <= String.length font)%nat -> exists c : ascii, String.get 5 font = Some c.
Proof.
  destruct font as [|a0 [|a1 [|a2 [|a3 [|a4 [|a5 r]]]]]]; cbn; try lia.
  eauto.
Qed.

Lemma handles_font (params : gmap string string) :
  font_sliceable params ->
  handles match params !! "font"%string with
          | Some font =>
              match string_slice font 5 6 with
              | Some c => SetFont (ToUpper1 c)
              | None => panic
              end
          | None => mret tt end
    (font_step params).
Proof.
  intros Hfont p tr. unfold font_step.
  destruct (params !! "font"%string) as [font|] eqn:Efont; [|handled_nothing].
  destruct (get_sixth font (Hfont font Efont)) as [c Hc].
  rewrite Hc, (string_slice_sixth font c Hc), SetFont_sixth.
  cbn [prn trace fst snd].
  destruct (font_letter (byte_of_ascii c)).
  - handled [EvWrite [0x1B; 0x4D; font_number (byte_of_ascii c)]].
  - handled [EvLog [LStr "Invalid font: '%s', defaulting to 'A'";
                    LStr (ToUpper1 (String c EmptyString))];
             EvWrite [0x1B; 0x4D; font_number (byte_of_ascii c)]].
Qed.

Lemma handles_size (w h : Z) : handles (SetFontSize w h) (size_step w h).
Proof.
  intros p tr. rewrite SetFontSize_run. unfold size_step. cbn [prn trace].
  destruct ((0 <? w) && (0 <? h) && (w <=? 8) && (h <=? 8)) eqn:Hg.
  - apply font_size_guard in Hg as [Hw Hh].
    rewrite font_size_byte by assumption.
    handled [EvWrite [0x1D; 0x21; Z.lor (Z.shiftl (w - 1) 4) (h - 1)]].
  - handled [EvLog [LStr "Invalid font size passed: %d x %d"; LInt w; LInt h]].
Qed.

Lemma handles_dw (params : gmap string string) :
  handles match params !! "dw"%string with
          | Some dw =>
              if is_on dw then p ← get_prn ; SetFontSize 2 (height p)
              else mret tt
          | None => mret tt end
    (dw_step params).
Proof.
  intros p tr. unfold dw_step.
  destruct (params !! "dw"%string) as [v|]; [|handled_nothing].
  destruct (is_on v); [|handled_nothing].
  exact (handles_size 2 (height p) p tr).
Qed.

Lemma handles_dh (params : gmap string string) :
  handles match params !! "dh"%string with
          | Some dh =>
              if is_on dh then p ← get_prn ; SetFontSize (width p) 2
              else mret tt
          | None => mret tt end
    (dh_step params).
Proof.
  intros p tr. unfold dh_step.
  destruct (params !! "dh"%string) as [v|]; [|handled_nothing].
  destruct (is_on v); [|handled_nothing].
  exact (handles_size (width p) 2 p tr).
Qed.

(** A handler that only returns. *)
Ltac decided_nothing :=
  exists []; cbn [fst snd];
  split; [cbn; now rewrite app_nil_r|split; [constructor|reflexivity]].

Lemma decides_step (m : M unit) (s : Step) :
  handles m s ->
  forall (p : Printer) (tr : list Event),
    exists evs : list Event,
      (m ≫= fun _ => mret (@None NumError)) (mkWorld p tr)
      = (Done None, mkWorld (fst (s p)) (tr ++ evs)) /\
      Forall no_render evs /\
      written (mkWorld p evs) = snd (s p).
Proof.
  intros Hm p tr. destruct (Hm p tr) as (evs & E & Hq & Hw).
  exists evs. split; [|auto]. unfold mbind, M_bind. now rewrite E.
Qed.

Lemma decides_width (params : gmap string string) :
  decides match params !! "width"%string with
          | Some width =>
              match Atoi width with
              | inr i =>
                  p ← get_prn ; SetFontSize (byte_of i) (height p) ;;
                  mret None
              | inl err => mret (Some err)
              end
          | None => mret None end
    (width_step params).
Proof.
  intros p tr. unfold width_step, number_step.
  destruct (params !! "width"%string) as [v|]; [|decided_nothing].
  destruct (Atoi v) as [err|i]; [decided_nothing|].
  exact (decides_step _ _ (handles_size (i mod 256) (height p)) p tr).
Qed.

Lemma decides_height (params : gmap string string) :
  decides match params !! "height"%string with
          | Some height =>
              match Atoi height with
              | inr i =>
                  p ← get_prn ; SetFontSize (width p) (byte_of i) ;;
                  mret None
              | inl err => mret (Some err)
              end
          | None => mret None end
    (height_step params).
Proof.
  intros p tr. unfold height_step, number_step.
  destruct (params !! "height"%string) as [v|]; [|decided_nothing].
  destruct (Atoi v) as [err|i]; [decided_nothing|].
  exact (decides_step _ _ (handles_size (width p) (i mod 256)) p tr).
Qed.

Lemma mod_uint16 (i : Z) : 0 <= i mod 2 ^ 16 < 2 ^ 16.
Proof. apply Z.mod_pos_bound. lia. Qed.

Lemma decides_x (params : gmap string string) :
  decides match params !! "x"%string with
          | Some x =>
              match Atoi x with
              | inr i => SendMoveX (uint16_of i) ;; mret None
              | inl err => mret (Some err)
              end
          | None => mret None end
    (x_step params).
Proof.
  intros p tr. unfold x_step, number_step.
  destruct (params !! "x"%string) as [v|]; [|decided_nothing].
  destruct (Atoi v) as [err|i]; [decided_nothing|].
  exists [EvWrite ([0x1B; 0x24] ++ le_bytes 2 (i mod 2 ^ 16))].
  cbn [fst snd]. split; [|split; [repeat constructor|reflexivity]].
  rewrite <- (move_bytes (i mod 2 ^ 16) (mod_uint16 i)). reflexivity.
Qed.

Lemma decides_y (params : gmap string string) :
  decides match params !! "y"%string with
          | Some y =>
              match Atoi y with
              | inr i => SendMoveY (uint16_of i) ;; mret None
              | inl err => mret (Some err)
              end
          | None => mret None end
    (y_step params).
Proof.
  intros p tr. unfold y_step, number_step.
  destruct (params !! "y"%string) as [v|]; [|decided_nothing].
  destruct (Atoi v) as [err|i]; [decided_nothing|].
  exists [EvWrite ([0x1D; 0x24] ++ le_bytes 2 (i mod 2 ^ 16))].
  cbn [fst snd]. split; [|split; [repeat constructor|reflexivity]].
  rewrite <- (move_bytes (i mod 2 ^ 16) (mod_uint16 i)). reflexivity.
Qed.

(** Text does the steps of its parameters and then goes on to the text. *)
Lemma Text_ends_in (params : gmap string string) (text : string) :
  font_sliceable params ->
  ends_in (Text_last text) (Text params text) (Text_params params).
Proof.
  intros Hfont. unfold Text, Text_params.
  apply ends_in_after; [apply handles_align|].
  apply ends_in_after; [apply handles_lang|].
  apply ends_in_after; [apply handles_smooth|].
  apply ends_in_after; [apply handles_em|].
  apply ends_in_after; [apply handles_ul|].
  apply ends_in_after; [apply handles_reverse|].
  apply ends_in_after; [apply handles_rotate|].
  apply ends_in_after; [apply handles_font, Hfont|].
  apply ends_in_after; [apply handles_dw|].
  apply ends_in_after; [apply handles_dh|].
  apply ends_in_or_else; [apply decides_width|].
  apply ends_in_or_else; [apply decides_height|].
  apply ends_in_or_else; [apply decides_x|].
  apply ends_in_or_else; [apply decides_y|].
  apply ends_in_done.
Qed.

Lemma fst_after (s : Step) (e : Ending) (p : Printer) :
  fst (after s e p) = fst (e (fst (s p))).
Proof.
  unfold after. destruct (s p) as [p1 w1]. cbn [fst].
  now destruct (e p1) as [err [p2 w2]].
Qed.

Lemma fst_or_else (s e : Ending) (p : Printer) :
  fst (or_else s e p)
  = match fst (s p) with
    | Some err => Some err
    | None => fst (e (fst (snd (s p))))
    end.
Proof.
  unfold or_else. destruct (s p) as [[err|] [p1 w1]]; cbn [fst snd];
    [reflexivity|].
  now destruct (e p1) as [err [p2 w2]].
Qed.

Lemma fst_number_step (key : string) (f : Z -> Step)
    (params : gmap string string) (p : Printer) :
  fst (number_step key f params p) = param_error params key.
Proof.
  unfold number_step, param_error.
  destruct (params !! key) as [v|]; [|reflexivity].
  now destruct (Atoi v).
Qed.

(** The error the steps stop with is that of the first malformed numeric
    parameter. *)
Lemma Text_params_error (params : gmap string string) (p : Printer) :
  fst (Text_params params p) = first_error params.
Proof.
  unfold Text_params. rewrite !fst_after, !fst_or_else.
  unfold width_step, height_step, x_step, y_step.
  rewrite !fst_number_step. unfold first_error.
  destruct (param_error params "width"); [reflexivity|].
  destruct (param_error params "height"); [reflexivity|].
  destruct (param_error params "x"); [reflexivity|].
  now destruct (param_error params "y").
Qed.

Lemma malformed_first_error (params : gmap string string) :
  malformed params -> exists err : NumError, first_error params = Some err.
Proof.
  intros (key & v & err & Hkey & Hlook & Hatoi).
  assert (Hk : param_error params key = Some err)
    by (unfold param_error; now rewrite Hlook, Hatoi).
  unfold numeric_keys in Hkey. rewrite !elem_of_cons in Hkey.
  unfold first_error.
  destruct Hkey as [->|[->|[->|[->|Hnil]]]];
    [..|now apply elem_of_nil in Hnil].
  - rewrite Hk. eauto.
  - destruct (param_error params "width"); [eauto|]. rewrite Hk. eauto.
  - destruct (param_error params "width"); [eauto|].
    destruct (param_error params "height"); [eauto|]. rewrite Hk. eauto.
  - destruct (param_error params "width"); [eauto|].
    destruct (param_error params "height"); [eauto|].
    destruct (param_error params "x"); [eauto|]. rewrite Hk. eauto.
Qed.


Lemma added_events {A : Type} (m : M A) (st : World) (r : Res A)
    (p : Printer) (evs : list Event) :
  m st = (r, mkWorld p (trace st ++ evs)) -> added m st = evs.
Proof.
  intros E. unfold added, exec. rewrite E. cbn [snd trace].
  apply drop_app_length'.
Qed.

(** C6, amended. For every params map with a malformed numeric parameter
    under width, height, x or y, whose font value, if there is one, has at
    least six bytes, Text returns the error of the first malformed one and
    does not send the text; the commands of the parameters it handled before
    that one are already written to the sink: the writes of the call are
    exactly [param_frames], the frames of align, lang, smooth, em, ul,
    reverse, rotate, font, dw, dh and of the numeric parameters before the
    malformed one, in this order. Nothing at all is written when the
    malformed parameter is width and none of align, lang, smooth, em, ul,
    reverse, rotate, font, dw, dh is given. *)
Theorem Text_malformed_numeric (params : gmap string string) (text : string)
    (st : World) :
  malformed params ->
  font_sliceable params ->
  (exists (err : NumError) (evs : list Event),
      first_error params = Some err /\
      result (Text params text) st = Done (Some err) /\
      trace (exec (Text params text) st) = trace st ++ evs /\
      Forall no_render evs /\
      written (mkWorld (prn st) evs) = param_frames params (prn st) /\
      writes_of (Text params text) st = param_frames params (prn st))
  /\
  (Forall (fun k => params !! k = None) style_keys ->
   forall (v : string) (err : NumError),
     params !! "width"%string = Some v -> Atoi v = inl err ->
     Text params text st = (Done (Some err), st)).
Proof.
  intros Hbad Hfont. split.
  - destruct (malformed_first_error params Hbad) as [err Herr].
    destruct st as [p tr].
    destruct (Text_ends_in params text Hfont p tr) as (evs & Hq & Hw & E).
    rewrite Text_params_error, Herr in E.
    exists err, evs. unfold result, exec. rewrite E. cbn [fst snd prn trace].
    repeat split; try assumption.
    rewrite (writes_of_events _ _ _ _ _ E). exact Hw.
  - intros Hnone v err Hlook Hatoi. unfold style_keys in Hnone.
    repeat match goal with
           | H : Forall _ (_ :: _) |- _ =>
               apply Forall_cons in H as [? H]
           end.
    unfold Text.
    repeat match goal with
           | H : params !! _ = None |- _ => rewrite H; clear H
           end.
    rewrite Hlook, Hatoi. reflexivity.
Qed.

Lemma params_width_malformed :
  malformed params_width /\ font_sliceable params_width.
Proof.
  split.
  - exists "width"%string, "abc"%string, ErrSyntax.
    split; [unfold numeric_keys; apply elem_of_cons; now left|].
    split; reflexivity.
  - intros font Hfont. vm_compute in Hfont. discriminate Hfont.
Defined.

(** The theorem at align=left, width=abc, where the alignment command is
    written before the error, and at width=abc alone, where nothing is. *)
Lemma Text_malformed_numeric_align_width :
  (result (Text params_align_width "hi") world0 = Done (Some ErrSyntax) /\
   writes_of (Text params_align_width "hi") world0 = [[0x1B; 0x61; 0x00]])
  /\ Text params_width "hi" world0 = (Done (Some ErrSyntax), world0).
Proof.
  destruct (Text_malformed_numeric params_align_width "hi" world0
              (proj1 params_align_width_malformed)
              (proj2 params_align_width_malformed))
    as [(err & evs & Herr & Hres & _ & _ & _ & Hw) _].
  destruct (Text_malformed_numeric params_width "hi" world0
              (proj1 params_width_malformed)
              (proj2 params_width_malformed))
    as [_ Hnone].
  split; [split|].
  - rewrite Hres. vm_compute in Herr. congruence.
  - rewrite Hw. vm_compute. reflexivity.
  - apply (Hnone ltac:(unfold style_keys; repeat constructor) "abc"%string);
      reflexivity.
Defined.



(** ** The setters again *)

Lemma writes_of_run {A : Type} (m : M A) (st : World) (r : Res A)
    (p : Printer) (ws : list (list Z)) :
  m st = (r, mkWorld p (trace st ++ map EvWrite ws)) -> writes_of m st = ws.
Proof.
  intros E. rewrite (writes_of_events _ _ _ _ _ E).
  unfold written. cbn [trace]. apply omap_EvWrite.
Qed.

(** C8, amended. Of the style setters only SetFontSize validates its input:
    a font dimension outside [1,8] leaves the state as it was and sends
    nothing. The six toggle setters validate nothing: each stores the byte
    it is given, whatever its value, touches no other field, and sends the
    command with that byte: one write of the two command bytes and the byte
    as [%c] formats it, which is the byte itself below 128. *)
Theorem setters_validation (v w h : Z) (st : World) :
  (~ (1 <= w <= 8 /\ 1 <= h <= 8) ->
   prn (exec (SetFontSize w h) st) = prn st /\
   writes_of (SetFontSize w h) st = [])
  /\ prn (exec (SetUnderline v) st) = set_underline v (prn st)
  /\ prn (exec (SetEmphasize v) st) = set_emphasize v (prn st)
  /\ prn (exec (SetUpsidedown v) st) = set_upsidedown v (prn st)
  /\ prn (exec (SetRotate v) st) = set_rotate v (prn st)
  /\ prn (exec (SetReverse v) st) = set_reverse v (prn st)
  /\ prn (exec (SetSmooth v) st) = set_smooth v (prn st)
  /\ underline (prn (exec (SetUnderline v) st)) = v
  /\ emphasize (prn (exec (SetEmphasize v) st)) = v
  /\ upsidedown (prn (exec (SetUpsidedown v) st)) = v
  /\ rotate (prn (exec (SetRotate v) st)) = v
  /\ reverse (prn (exec (SetReverse v) st)) = v
  /\ smooth (prn (exec (SetSmooth v) st)) = v
  /\ writes_of (SetUnderline v) st = [[0x1B; 0x2D] ++ fmt_c v]
  /\ writes_of (SetEmphasize v) st = [[0x1B; 0x47] ++ fmt_c v]
  /\ writes_of (SetUpsidedown v) st = [[0x1B; 0x7B] ++ fmt_c v]
  /\ writes_of (SetRotate v) st = [[0x1B; 0x52] ++ fmt_c v]
  /\ writes_of (SetReverse v) st = [[0x1D; 0x42] ++ fmt_c v]
  /\ writes_of (SetSmooth v) st = [[0x1D; 0x62] ++ fmt_c v]
  /\ (0 <= v < 128 -> fmt_c v = [v]).
Proof.
  split.
  - intros Hout.
    assert (E : SetFontSize w h st
                = (Done tt,
                   mkWorld (prn st)
                     (trace st ++
                      [EvLog [LStr "Invalid font size passed: %d x %d";
                              LInt w; LInt h]]))).
    { rewrite SetFontSize_run.
      case_eq ((0 <? w) && (0 <? h) && (w <=? 8) && (h <=? 8)); intros Hg;
        [|reflexivity].
      apply font_size_guard in Hg. contradiction. }
    split.
    + unfold exec. now rewrite E.
    + now rewrite (writes_of_events _ _ _ _ _ E).
  - do 12 (split; [reflexivity|]).
    split; [exact (writes_of_run _ _ _ _ [_] (SetUnderline_run v st))|].
    split; [exact (writes_of_run _ _ _ _ [_] (SetEmphasize_run v st))|].
    split; [exact (writes_of_run _ _ _ _ [_] (SetUpsidedown_run v st))|].
    split; [exact (writes_of_run _ _ _ _ [_] (SetRotate_run v st))|].
    split; [exact (writes_of_run _ _ _ _ [_] (SetReverse_run v st))|].
    split; [exact (writes_of_run _ _ _ _ [_] (SetSmooth_run v st))|].
    apply fmt_c_ascii.
Qed.

(** C9. The style setters are idempotent: for every value [v], calling
    SetUnderline(v) twice in succession writes the same command frame both
    times, 1B 2D and [v], and leaves the stored state unchanged between the
    two calls; likewise SetEmphasize with 1B 47, SetUpsidedown with 1B 7B,
    SetRotate with 1B 52, SetReverse with 1D 42 and SetSmooth with 1D 62,
    and SetFontSize with 1D 21 and the size byte for a width and a height
    in 1..8; outside that range SetFontSize adds its log line both times
    and no frame. *)
Theorem style_setters_idempotent (v w h : Z) :
  idempotent (SetUnderline v) /\
  (forall st, added (SetUnderline v) st = [EvWrite ([0x1B; 0x2D] ++ fmt_c v)])
  /\ (0 <= v < 128 -> [0x1B; 0x2D] ++ fmt_c v = [0x1B; 0x2D; v])
  /\ idempotent (SetEmphasize v)
  /\ idempotent (SetUpsidedown v)
  /\ idempotent (SetRotate v)
  /\ idempotent (SetReverse v)
  /\ idempotent (SetSmooth v)
  /\ idempotent (SetFontSize w h)
  /\ (forall st, added (SetEmphasize v) st = [EvWrite ([0x1B; 0x47] ++ fmt_c v)])
  /\ (forall st,
        added (SetUpsidedown v) st = [EvWrite ([0x1B; 0x7B] ++ fmt_c v)])
  /\ (forall st, added (SetRotate v) st = [EvWrite ([0x1B; 0x52] ++ fmt_c v)])
  /\ (forall st, added (SetReverse v) st = [EvWrite ([0x1D; 0x42] ++ fmt_c v)])
  /\ (forall st, added (SetSmooth v) st = [EvWrite ([0x1D; 0x62] ++ fmt_c v)])
  /\ (1 <= w <= 8 /\ 1 <= h <= 8 ->
      forall st,
        added (SetFontSize w h) st
        = [EvWrite [0x1D; 0x21; Z.lor (Z.shiftl (w - 1) 4) (h - 1)]])
  /\ (~ (1 <= w <= 8 /\ 1 <= h <= 8) ->
      forall st,
        added (SetFontSize w h) st
        = [EvLog [LStr "Invalid font size passed: %d x %d"; LInt w; LInt h]])
  /\ (0 <= v < 128 -> fmt_c v = [v]).
Proof.
  repeat apply conj.
  - apply idempotent_const with (f := set_underline v)
      (evs := [EvWrite ([0x1B; 0x2D] ++ fmt_c v)]);
      [apply SetUnderline_run | intros []; reflexivity].
  - intros st. exact (added_events _ _ _ _ _ (SetUnderline_run v st)).
  - intros Hv. now rewrite fmt_c_ascii.
  - apply idempotent_const with (f := set_emphasize v)
      (evs := [EvWrite ([0x1B; 0x47] ++ fmt_c v)]);
      [apply SetEmphasize_run | intros []; reflexivity].
  - apply idempotent_const with (f := set_upsidedown v)
      (evs := [EvWrite ([0x1B; 0x7B] ++ fmt_c v)]);
      [apply SetUpsidedown_run | intros []; reflexivity].
  - apply idempotent_const with (f := set_rotate v)
      (evs := [EvWrite ([0x1B; 0x52] ++ fmt_c v)]);
      [apply SetRotate_run | intros []; reflexivity].
  - apply idempotent_const with (f := set_reverse v)
      (evs := [EvWrite ([0x1D; 0x42] ++ fmt_c v)]);
      [apply SetReverse_run | intros []; reflexivity].
  - apply idempotent_const with (f := set_smooth v)
      (evs := [EvWrite ([0x1D; 0x62] ++ fmt_c v)]);
      [apply SetSmooth_run | intros []; reflexivity].
  - destruct ((0 <? w) && (0 <? h) && (w <=? 8) && (h <=? 8)) eqn:Hg.
    + eapply idempotent_const with (f := fun p => set_height h (set_width w p)).
      * intros st. rewrite SetFontSize_run, Hg. reflexivity.
      * intros []. reflexivity.
    + eapply idempotent_const with (f := fun p => p).
      * intros st. rewrite SetFontSize_run, Hg. reflexivity.
      * reflexivity.
  - intros st. exact (added_events _ _ _ _ _ (SetEmphasize_run v st)).
  - intros st. exact (added_events _ _ _ _ _ (SetUpsidedown_run v st)).
  - intros st. exact (added_events _ _ _ _ _ (SetRotate_run v st)).
  - intros st. exact (added_events _ _ _ _ _ (SetReverse_run v st)).
  - intros st. exact (added_events _ _ _ _ _ (SetSmooth_run v st)).
  - intros [Hw Hh] st.
    pose proof (SetFontSize_run w h st) as E.
    rewrite (proj2 (font_size_guard w h) (conj Hw Hh)) in E.
    rewrite font_size_byte in E by assumption.
    exact (added_events _ _ _ _ _ E).
  - intros Hout st.
    pose proof (SetFontSize_run w h st) as E.
    destruct ((0 <? w) && (0 <? h) && (w <=? 8) && (h <=? 8)) eqn:Hg.
    + apply font_size_guard in Hg. contradiction.
    + exact (added_events _ _ _ _ _ E).
  - apply fmt_c_ascii.
Qed.

(** ** Raster on an image that does not hold its rows *)

Section RasterShort.

Variables (width height lineWidth : Z) (imgBw : Slice).
Hypothesis height_int : height <= int_max.
Hypothesis lineWidth_nonneg : 0 <= lineWidth.
Hypothesis rows_int : height * lineWidth <= int_max.



End RasterShort.




(** ** Image *)

(** The body of Image returns the error of the first of width and height
    that Atoi refuses, an absent one read as the empty string, and writes
    nothing. *)
Lemma Image_body_error (D : string -> Z + list Z)
    (params : gmap string string) (data : string) (st : World)
    (err : NumError) :
  let wstr := default ""%string (params !! "width"%string) in
  let hstr := default ""%string (params !! "height"%string) in
  Atoi wstr = inl err \/
  (exists wi : Z, Atoi wstr = inr wi /\ Atoi hstr = inl err) ->
  exists evs : list Event,
    Image_body D params data st
    = (Done (Some (ImageNumError err)), mkWorld (prn st) (trace st ++ evs))
    /\ written (mkWorld (prn st) evs) = [].
Proof.
  intros wstr hstr Herr. subst wstr hstr. unfold Image_body.
  destruct (params !! "width"%string) as [w|],
           (params !! "height"%string) as [h|];
    cbn [default from_option id] in *;
    (destruct Herr as [Hw|(wi & Hw & Hh)];
     [rewrite Hw|first [congruence|rewrite Hw, Hh]]);
    first
      [ eexists; (split; [body_run; reflexivity|reflexivity])
      | exists []; split; [|reflexivity];
        destruct st as [p tr]; cbn; now rewrite app_nil_r ].
Qed.

(** X19. How Image ends, for any base64 decoder. It returns the error that
    strconv.Atoi gives for the width, an absent width being read as the
    empty string, which Atoi refuses with a syntax error; with a width that
    is a number it returns in the same way the error Atoi gives for the
    height; and when the data does not decode it returns the error of the
    decoder. In these cases the sink has received the alignment command at
    most. Otherwise it returns nil after two graphics commands, 1B 28 4C
    with function 0x70 and the header 30 01 01 31 before the decoded bytes,
    then 1B 28 4C with function 0x32; the width and the height are parsed
    but are in none of the bytes written. Image never changes the printer
    state. The alignment command is 1B 61 and 0, 1 or 2. *)
Theorem Image_outcome (D : string -> Z + list Z)
    (params : gmap string string) (data : string) (st : World) :
  let wstr := default ""%string (params !! "width"%string) in
  let hstr := default ""%string (params !! "height"%string) in
  prn (exec (Image D params data) st) = prn st
  /\ Atoi "" = inl ErrSyntax
  /\ (forall err : NumError,
        Atoi wstr = inl err ->
        result (Image D params data) st = Done (Some (ImageNumError err)) /\
        writes_of (Image D params data) st = image_align params st)
  /\ (forall (wi : Z) (err : NumError),
        Atoi wstr = inr wi -> Atoi hstr = inl err ->
        result (Image D params data) st = Done (Some (ImageNumError err)) /\
        writes_of (Image D params data) st = image_align params st)
  /\ (forall wi hi : Z,
        Atoi wstr = inr wi -> Atoi hstr = inr hi ->
        match D data with
        | inl offset =>
            result (Image D params data) st
            = Done (Some (ImageCorruptInput offset)) /\
            writes_of (Image D params data) st = image_align params st
        | inr dec =>
            Z.of_nat (length dec) + 6 <= int_max ->
            result (Image D params data) st = Done None /\
            writes_of (Image D params data) st
            = image_align params st ++ image_frames dec
        end)
  /\ image_align params st
     = match params !! "align"%string with
       | Some align => [[0x1B; 0x61; align_code align]]
       | None => []
       end.
Proof.
  intros wstr hstr.
  destruct (Image_align_step params st) as (p1 & evs1 & Ealign & Hw1).
  assert (Hbind : Image D params data st
                  = Image_body D params data (mkWorld p1 (trace st ++ evs1))).
  { rewrite Image_unfold. unfold mbind at 1, M_bind at 1.
    now rewrite Ealign. }
  assert (Herror : forall err : NumError,
    Atoi wstr = inl err \/
    (exists wi : Z, Atoi wstr = inr wi /\ Atoi hstr = inl err) ->
    result (Image D params data) st = Done (Some (ImageNumError err)) /\
    writes_of (Image D params data) st = image_align params st).
  { intros err Herr.
    destruct (Image_body_error D params data
                (mkWorld p1 (trace st ++ evs1)) err Herr) as (evs & E & Hw).
    cbn [prn trace] in E, Hw. rewrite <- app_assoc in E.
    rewrite <- Hbind in E. split.
    - unfold result. now rewrite E.
    - rewrite (writes_of_events _ _ _ _ _ E), written_app_events, Hw, Hw1.
      apply app_nil_r. }
  split.
  { assert (H : keeps (fun p => p = prn st) (Image D params data))
      by apply keeps_any_Image.
    now apply H. }
  split; [reflexivity|].
  split; [intros err Hw; apply Herror; now left|].
  split; [intros wi err Hw Hh; apply Herror; right; eauto|].
  split.
  - intros wi hi Eaw Eah.
    destruct (params !! "width"%string) as [w|] eqn:Ew;
      [|discriminate Eaw].
    destruct (params !! "height"%string) as [h|] eqn:Eh;
      [|discriminate Eah].
    pose proof (Image_body_decoded D params data w h wi hi
                  (mkWorld p1 (trace st ++ evs1)) Ew Eaw Eh Eah) as Hbody.
    destruct (D data) as [offset|dec].
    + rewrite <- Hbind in Hbody. split.
      * unfold result. now rewrite Hbody.
      * now rewrite (writes_of_events _ _ _ _ _ Hbody).
    + intros Hlen. destruct (Hbody Hlen) as (line & E).
      cbn [prn trace] in E. rewrite <- app_assoc in E.
      rewrite <- Hbind in E. split.
      * unfold result. now rewrite E.
      * rewrite (writes_of_events _ _ _ _ _ E), written_app_events, Hw1.
        reflexivity.
  - unfold image_align.
    destruct (params !! "align"%string) as [align|] eqn:Ea; [|reflexivity].
    destruct st as [p tr].
    destruct (handles_align params p tr) as (evs & E & _ & Hw).
    rewrite Ea in E. unfold align_step in E, Hw. rewrite Ea in Hw.
    cbn [fst snd] in E, Hw.
    rewrite (writes_of_events _ _ _ _ _ E). exact Hw.
Qed.
